(** * Pomelo webhook core: domain, ledger and orchestrator

    A shallow embedding of the Go packages [internal/domain] (Money,
    Transaction, Adjustment), [internal/adapters/output/memory]
    (Repository) and [internal/application] (Service), followed by the
    properties of the validation-and-ledger core.

    Conventions of the embedding:
    - [int64] values are integers of [Z]; the only arithmetic of the
      program, the addition of [Money.Add], is wrapped to 64 bits by
      [wrap64], as Go's [+] on [int64] does;
    - Go strings are [string] (sequences of bytes, compared bytewise);
      [TransactionType] and [TransactionStatus] are strings, as in Go;
    - Go maps are finite maps [gmap string _];
    - a function returning [(T, error)] with the zero value of [T] next
      to a non-nil error is a [result T]; a function whose result value
      is meaningful next to an error (the service entry points) returns
      the pair itself, with [option error] for the error;
    - the repository is passed explicitly: a method that writes returns
      the new repository next to its error. *)

From Stdlib Require Import ZArith Lia.
From stdpp Require Import gmap strings list fin_maps.

Open Scope Z_scope.

(** ** Machine integers *)

Definition int64_min : Z := - 2 ^ 63.
Definition int64_max : Z := 2 ^ 63 - 1.

Definition in_int64 (z : Z) : Prop := int64_min <= z <= int64_max.

(** Two's-complement wrap-around of a 64-bit signed result. *)
Definition wrap64 (z : Z) : Z := (z + 2 ^ 63) mod 2 ^ 64 - 2 ^ 63.

(** ** Errors (internal/domain/errors.go)

    The sentinels are the package-level [errors.New] values.  An error
    is a sentinel, or a sentinel wrapped by [fmt.Errorf("%w: ...")] with
    the text that follows the colon.  [errors_Is] is [errors.Is] against
    a sentinel. *)

Inductive sentinel : Type :=
| ErrTransactionNotFound
| ErrPurchaseNotApproved
| ErrExceedsOriginalAmount
| ErrNegativeAmount
| ErrAmountOutOfRange
| ErrCurrencyMismatch
| ErrInvalidTransactionType
| ErrDuplicateIdempotencyKey
| ErrOriginalTransactionRequired
| ErrDuplicateTransactionID
| ErrInvalidInput.

#[global] Instance sentinel_eq_dec : EqDecision sentinel.
Proof. solve_decision. Defined.

Inductive error : Type :=
| Plain (s : sentinel)
| Wrapf (s : sentinel) (detail : string).

#[global] Instance error_eq_dec : EqDecision error.
Proof. solve_decision. Defined.

Definition unwrap (e : error) : sentinel :=
  match e with Plain s => s | Wrapf s _ => s end.

Definition errors_Is (e : error) (target : sentinel) : bool :=
  bool_decide (unwrap e = target).

Inductive result (A : Type) : Type :=
| Ok (a : A)
| Err (e : error).
Arguments Ok {A} a.
Arguments Err {A} e.

(** Early return on error: [x ← r; k] is Go's
    [x, err := r; if err != nil { return zero, err }; k]. *)
#[global] Instance result_bind : MBind result :=
  fun A B (k : A -> result B) (r : result A) =>
    match r with Ok a => k a | Err e => Err e end.

Definition succeeds {A : Type} (r : result A) : Prop := exists a, r = Ok a.

Definition fails_with {A : Type} (r : result A) (s : sentinel) : Prop :=
  exists e, r = Err e /\ errors_Is e s = true.

(** ** Money (internal/domain/money.go) *)

Module Money.

Record t : Type := mk { Amount : Z; Currency : string }.

#[global] Instance eq_dec : EqDecision t.
Proof. solve_decision. Defined.

Definition mismatch (m other : t) : error :=
  Wrapf ErrCurrencyMismatch (Currency m +:+ " vs " +:+ Currency other).

Definition Add (m other : t) : result t :=
  if bool_decide (Currency m <> Currency other)
  then Err (mismatch m other)
  else Ok (mk (wrap64 (Amount m + Amount other)) (Currency m)).

Definition GreaterThan (m other : t) : result bool :=
  if bool_decide (Currency m <> Currency other)
  then Err (mismatch m other)
  else Ok (Amount m >? Amount other).

End Money.

Definition NewMoney (amount : Z) (currency : string) : result Money.t :=
  if amount <? 0 then Err (Plain ErrNegativeAmount)
  else Ok (Money.mk amount currency).

(** ** Transactions (internal/domain/transaction.go) *)

Definition MinPurchaseAmount : Z := 100.
Definition MaxPurchaseAmount : Z := 500000.

(** [type TransactionType string] and [type TransactionStatus string]. *)
Abbreviation TransactionType := string (only parsing).
Abbreviation TransactionStatus := string (only parsing).

Definition TypePurchase : TransactionType := "PURCHASE".
Definition TypeReversalPurchase : TransactionType := "REVERSAL_PURCHASE".
Definition TypeRefund : TransactionType := "REFUND".

Definition StatusApproved : TransactionStatus := "APPROVED".
Definition StatusRejected : TransactionStatus := "REJECTED".

(** [time.Time] is carried through untouched; an instant is an integer. *)
Abbreviation Time := Z (only parsing).

Module AmountBreakdown.

Record t : Type := mk {
  Local : Money.t;
  Transaction : Money.t;
  Settlement : Money.t;
  Original : Money.t
}.

End AmountBreakdown.

Module Merchant.

Record t : Type := mk {
  ID : string;
  MCC : string;
  Address : string;
  Name : string;
  City : string;
  State : string
}.

End Merchant.

Module Event.

Record t : Type := mk {
  ID : string;
  CreatedAt : Time;
  IdempotencyKey : string
}.

End Event.

Module Transaction.

Record t : Type := mk {
  ID : string;
  Type_ : TransactionType;
  Status : TransactionStatus;
  Amount : AmountBreakdown.t;
  Merchant : Merchant.t;
  Event : Event.t;
  OriginalTransactionID : string;
  UserID : string;
  CardID : string;
  Country : string;
  Currency : string;
  PointOfSale : string
}.

Definition IsApprovedPurchase (t : t) : bool :=
  bool_decide (Type_ t = TypePurchase) && bool_decide (Status t = StatusApproved).

Definition CanReceiveAdjustment (t : t) : bool := IsApprovedPurchase t.

End Transaction.

Definition NewPurchase
    (id : string) (status : TransactionStatus) (amount : AmountBreakdown.t)
    (merchant : Merchant.t) (event : Event.t)
    (userID cardID country currency pointOfSale : string)
  : result Transaction.t :=
  if bool_decide (id = "")
  then Err (Wrapf ErrInvalidInput "transaction id is required")
  else if bool_decide (Event.ID event = "")
          || bool_decide (Event.IdempotencyKey event = "")
  then Err (Wrapf ErrInvalidInput "event id and idempotency key are required")
  else if (Money.Amount (AmountBreakdown.Local amount) <? MinPurchaseAmount)
          || (Money.Amount (AmountBreakdown.Local amount) >? MaxPurchaseAmount)
  then Err (Plain ErrAmountOutOfRange)
  else Ok (Transaction.mk id TypePurchase status amount merchant event
             "" userID cardID country currency pointOfSale).

(** ** Adjustments (internal/domain/adjustment.go) *)

Module Adjustment.

Record t : Type := mk {
  ID : string;
  Type_ : TransactionType;
  Status : TransactionStatus;
  Amount : AmountBreakdown.t;
  Merchant : Merchant.t;
  Event : Event.t;
  OriginalTransactionID : string;
  UserID : string;
  CardID : string;
  Country : string;
  Currency : string;
  PointOfSale : string
}.

(** The error is Go's [error] result: [None] is [nil]. *)
Definition ValidateAgainstPurchase
    (a : t) (original : Transaction.t) (existingTotal : Money.t)
  : option error :=
  if negb (Transaction.CanReceiveAdjustment original)
  then Some (Plain ErrPurchaseNotApproved)
  else if bool_decide (Status a <> StatusApproved)
  then None
  else match Money.Add existingTotal (AmountBreakdown.Local (Amount a)) with
       | Err err => Some err
       | Ok newTotal =>
           match Money.GreaterThan newTotal
                   (AmountBreakdown.Local (Transaction.Amount original)) with
           | Err err => Some err
           | Ok exceeds =>
               if exceeds then Some (Plain ErrExceedsOriginalAmount) else None
           end
       end.

End Adjustment.

Definition NewAdjustment
    (id : string) (txType : TransactionType) (status : TransactionStatus)
    (amount : AmountBreakdown.t) (merchant : Merchant.t) (event : Event.t)
    (originalTransactionID : string)
    (userID cardID country currency pointOfSale : string)
  : result Adjustment.t :=
  if bool_decide (txType <> TypeReversalPurchase)
     && bool_decide (txType <> TypeRefund)
  then Err (Wrapf ErrInvalidTransactionType txType)
  else if bool_decide (originalTransactionID = "")
  then Err (Plain ErrOriginalTransactionRequired)
  else if bool_decide (id = "")
  then Err (Wrapf ErrInvalidInput "adjustment id is required")
  else if bool_decide (Event.ID event = "")
          || bool_decide (Event.IdempotencyKey event = "")
  then Err (Wrapf ErrInvalidInput "event id and idempotency key are required")
  else Ok (Adjustment.mk id txType status amount merchant event
             originalTransactionID userID cardID country currency pointOfSale).

(** ** Ports (internal/application/ports) *)

Module Command.

(** [ports.ProcessTransactionCommand]: primitive fields only. *)
Record t : Type := mk {
  TransactionID : string;
  TransactionType_ : string;
  TransactionStatus_ : string;
  OriginalTransactionID : string;
  LocalAmount : Z;
  LocalCurrency : string;
  TxAmount : Z;
  TxCurrency : string;
  SettlementAmount : Z;
  SettlementCurrency : string;
  OriginalAmount : Z;
  OriginalCurrency : string;
  MerchantID : string;
  MerchantMCC : string;
  MerchantAddress : string;
  MerchantName : string;
  MerchantCity : string;
  MerchantState : string;
  EventID : string;
  EventCreatedAt : Time;
  IdempotencyKey : string;
  UserID : string;
  CardID : string;
  Country : string;
  Currency : string;
  PointOfSale : string
}.

(** The [int64] fields of a command hold 64-bit values. *)
Definition well_formed (c : t) : Prop :=
  in_int64 (LocalAmount c) /\ in_int64 (TxAmount c) /\
  in_int64 (SettlementAmount c) /\ in_int64 (OriginalAmount c).

End Command.

Module Result.

(** [ports.ProcessTransactionResult]. *)
Record t : Type := mk { TransactionID : string; Idempotent : bool }.

(** The zero value [ProcessTransactionResult{}]. *)
Definition zero : t := mk "" false.

End Result.

(** ** The in-memory ledger (internal/adapters/output/memory)

    The three maps of [memory.Repository].  Every method of the Go type
    holds the repository's lock for its whole body, so a method is one
    step on the repository state. *)

Module Repository.

Record t : Type := mk {
  transactions : gmap string Transaction.t;
  adjustments : gmap string (list Adjustment.t);
  idempotencyKeys : gmap string string
}.

Definition NewRepository : t := mk ∅ ∅ ∅.

Definition SaveTransaction (r : t) (tx : Transaction.t) : t * option error :=
  match idempotencyKeys r !! Event.IdempotencyKey (Transaction.Event tx) with
  | Some _ => (r, Some (Plain ErrDuplicateIdempotencyKey))
  | None =>
      match transactions r !! Transaction.ID tx with
      | Some _ => (r, Some (Plain ErrDuplicateTransactionID))
      | None =>
          (mk (<[Transaction.ID tx := tx]> (transactions r))
              (adjustments r)
              (<[Event.IdempotencyKey (Transaction.Event tx) := Transaction.ID tx]>
                 (idempotencyKeys r)),
           None)
      end
  end.

(** [r.adjustments[k]] of a missing key is the nil slice. *)
Definition adjustmentsOf (r : t) (originalTxID : string) : list Adjustment.t :=
  default [] (adjustments r !! originalTxID).

Definition SaveAdjustment (r : t) (adj : Adjustment.t) : t * option error :=
  match idempotencyKeys r !! Event.IdempotencyKey (Adjustment.Event adj) with
  | Some _ => (r, Some (Plain ErrDuplicateIdempotencyKey))
  | None =>
      (mk (transactions r)
          (<[Adjustment.OriginalTransactionID adj :=
               adjustmentsOf r (Adjustment.OriginalTransactionID adj) ++ [adj]]>
             (adjustments r))
          (<[Event.IdempotencyKey (Adjustment.Event adj) := Adjustment.ID adj]>
             (idempotencyKeys r)),
       None)
  end.

Definition GetTransactionByID (r : t) (id : string) : result Transaction.t :=
  match transactions r !! id with
  | Some tx => Ok tx
  | None => Err (Plain ErrTransactionNotFound)
  end.

(** [slices.Clone]: the caller receives the values, never the ledger's
    own slice. *)
Definition GetAdjustmentsByTransactionID (r : t) (originalTxID : string)
  : result (list Adjustment.t) :=
  Ok (adjustmentsOf r originalTxID).

Definition GetByIdempotencyKey (r : t) (key : string) : string * bool :=
  match idempotencyKeys r !! key with
  | Some id => (id, true)
  | None => ("", false)
  end.

(** [slices.Collect(maps.Values(...))]: Go leaves the order of the
    values unspecified; the model lists them in the order of the map's
    keys, and no property below depends on that order. *)
Definition ListTransactions (r : t) : result (list Transaction.t) :=
  Ok (map_to_list (transactions r)).*2.

End Repository.

(** ** The orchestrator (internal/application/service.go)

    [Service] holds only the repository; its methods take the repository
    state and return the state they leave behind. *)

Module Service.

(** What a service call hands back: the new ledger, and Go's
    [(ProcessTransactionResult, error)]. *)
Abbreviation outcome := (Repository.t * (Result.t * option error))%type (only parsing).

Definition merchantOf (cmd : Command.t) : Merchant.t :=
  Merchant.mk (Command.MerchantID cmd) (Command.MerchantMCC cmd)
    (Command.MerchantAddress cmd) (Command.MerchantName cmd)
    (Command.MerchantCity cmd) (Command.MerchantState cmd).

Definition eventOf (cmd : Command.t) : Event.t :=
  Event.mk (Command.EventID cmd) (Command.EventCreatedAt cmd)
    (Command.IdempotencyKey cmd).

(** Steps 2 and 3 of [processPurchase]: the four amounts, then the
    purchase. *)
Definition buildPurchase (cmd : Command.t) : result Transaction.t :=
  localMoney ← NewMoney (Command.LocalAmount cmd) (Command.LocalCurrency cmd);
  txMoney ← NewMoney (Command.TxAmount cmd) (Command.TxCurrency cmd);
  settlementMoney ←
    NewMoney (Command.SettlementAmount cmd) (Command.SettlementCurrency cmd);
  originalMoney ←
    NewMoney (Command.OriginalAmount cmd) (Command.OriginalCurrency cmd);
  let amount :=
    AmountBreakdown.mk localMoney txMoney settlementMoney originalMoney in
  NewPurchase (Command.TransactionID cmd) (Command.TransactionStatus_ cmd)
    amount (merchantOf cmd) (eventOf cmd)
    (Command.UserID cmd) (Command.CardID cmd) (Command.Country cmd)
    (Command.Currency cmd) (Command.PointOfSale cmd).

Definition processPurchase (r : Repository.t) (cmd : Command.t) : outcome :=
  if (Repository.GetByIdempotencyKey r (Command.IdempotencyKey cmd)).2
  then (r, (Result.mk (Command.TransactionID cmd) true,
            Some (Plain ErrDuplicateIdempotencyKey)))
  else
    match buildPurchase cmd with
    | Err err => (r, (Result.zero, Some err))
    | Ok tx =>
        match Repository.SaveTransaction r tx with
        | (r', Some err) =>
            if errors_Is err ErrDuplicateIdempotencyKey
            then (r', (Result.mk (Command.TransactionID cmd) true, Some err))
            else (r', (Result.zero, Some err))
        | (r', None) => (r', (Result.mk (Transaction.ID tx) false, None))
        end
    end.

(** The loop of [sumExistingAdjustments], from a running [total]. *)
Fixpoint sumFrom (total : Money.t) (adjs : list Adjustment.t) : result Money.t :=
  match adjs with
  | [] => Ok total
  | adj :: rest =>
      if bool_decide (Adjustment.Status adj <> StatusApproved)
      then sumFrom total rest
      else
        total' ← Money.Add total (AmountBreakdown.Local (Adjustment.Amount adj));
        sumFrom total' rest
  end.

Definition sumExistingAdjustments (adjs : list Adjustment.t) (currency : string)
  : result Money.t :=
  total ← NewMoney 0 currency;
  sumFrom total adjs.

(** Step 4 of [processAdjustment]: the four amounts, then the
    adjustment. *)
Definition buildAdjustment (cmd : Command.t) : result Adjustment.t :=
  localMoney ← NewMoney (Command.LocalAmount cmd) (Command.LocalCurrency cmd);
  txMoney ← NewMoney (Command.TxAmount cmd) (Command.TxCurrency cmd);
  settlementMoney ←
    NewMoney (Command.SettlementAmount cmd) (Command.SettlementCurrency cmd);
  originalMoney ←
    NewMoney (Command.OriginalAmount cmd) (Command.OriginalCurrency cmd);
  let amount :=
    AmountBreakdown.mk localMoney txMoney settlementMoney originalMoney in
  NewAdjustment (Command.TransactionID cmd) (Command.TransactionType_ cmd)
    (Command.TransactionStatus_ cmd) amount (merchantOf cmd) (eventOf cmd)
    (Command.OriginalTransactionID cmd)
    (Command.UserID cmd) (Command.CardID cmd) (Command.Country cmd)
    (Command.Currency cmd) (Command.PointOfSale cmd).

(** Steps 3 to 6 of [processAdjustment]: everything between the advisory
    idempotency check and the save; none of it writes. *)
Definition prepareAdjustment (r : Repository.t) (cmd : Command.t)
  : result Adjustment.t :=
  original ← Repository.GetTransactionByID r (Command.OriginalTransactionID cmd);
  adj ← buildAdjustment cmd;
  existingAdjs ←
    Repository.GetAdjustmentsByTransactionID r (Command.OriginalTransactionID cmd);
  existingTotal ← sumExistingAdjustments existingAdjs (Command.LocalCurrency cmd);
  match Adjustment.ValidateAgainstPurchase adj original existingTotal with
  | Some err => Err err
  | None => Ok adj
  end.

Definition processAdjustment (r : Repository.t) (cmd : Command.t) : outcome :=
  if bool_decide (Command.OriginalTransactionID cmd = "")
  then (r, (Result.zero, Some (Plain ErrOriginalTransactionRequired)))
  else if (Repository.GetByIdempotencyKey r (Command.IdempotencyKey cmd)).2
  then (r, (Result.mk (Command.TransactionID cmd) true,
            Some (Plain ErrDuplicateIdempotencyKey)))
  else
    match prepareAdjustment r cmd with
    | Err err => (r, (Result.zero, Some err))
    | Ok adj =>
        match Repository.SaveAdjustment r adj with
        | (r', Some err) =>
            if errors_Is err ErrDuplicateIdempotencyKey
            then (r', (Result.mk (Command.TransactionID cmd) true, Some err))
            else (r', (Result.zero, Some err))
        | (r', None) => (r', (Result.mk (Adjustment.ID adj) false, None))
        end
    end.

Definition ProcessTransaction (r : Repository.t) (cmd : Command.t) : outcome :=
  if bool_decide (Command.TransactionType_ cmd = TypePurchase)
  then processPurchase r cmd
  else if bool_decide (Command.TransactionType_ cmd = TypeReversalPurchase)
          || bool_decide (Command.TransactionType_ cmd = TypeRefund)
  then processAdjustment r cmd
  else (r, (Result.zero,
            Some (Wrapf ErrInvalidTransactionType (Command.TransactionType_ cmd)))).

Definition GetTransaction (r : Repository.t) (id : string) : result Transaction.t :=
  Repository.GetTransactionByID r id.

Definition ListTransactions (r : Repository.t) : result (list Transaction.t) :=
  Repository.ListTransactions r.

End Service.

(** ** Runs of the service and of the ledger *)

(** The ledger after a sequence of events, oldest first. *)
Definition run (r : Repository.t) (cmds : list Command.t) : Repository.t :=
  foldl (fun r cmd => (Service.ProcessTransaction r cmd).1) r cmds.

(** Ledger states the service can produce from a fresh repository. *)
Definition reachable (r : Repository.t) : Prop :=
  exists cmds, r = run Repository.NewRepository cmds.

(** The exact (unbounded) sum of the local amounts of the approved
    adjustments of a list: the quantity the budget rule speaks of. *)
Definition approvedTotal (adjs : list Adjustment.t) : Z :=
  foldr (fun adj acc =>
           if bool_decide (Adjustment.Status adj = StatusApproved)
           then Money.Amount (AmountBreakdown.Local (Adjustment.Amount adj)) + acc
           else acc) 0 adjs.

(** The budget rule for one ledger: every purchase covers the approved
    adjustments that reference it. *)
Definition budget_respected (r : Repository.t) : Prop :=
  forall id p,
    Repository.transactions r !! id = Some p ->
    approvedTotal (Repository.adjustmentsOf r id)
    <= Money.Amount (AmountBreakdown.Local (Transaction.Amount p)).

(** Amounts that leave room for any purchase total below the 64-bit
    ceiling. *)
Definition amount_bounded (cmd : Command.t) : Prop :=
  Command.LocalAmount cmd <= int64_max - MaxPurchaseAmount.

(** Every list of adjustments of the ledger belongs to a stored
    purchase, holds only non-negative local amounts, and its approved
    total is covered by that purchase. *)
Definition adjustments_covered (r : Repository.t) : Prop :=
  forall id adjs,
    Repository.adjustments r !! id = Some adjs ->
    exists p,
      Repository.transactions r !! id = Some p /\
      Forall (fun adj =>
                0 <= Money.Amount (AmountBreakdown.Local (Adjustment.Amount adj)))
             adjs /\
      approvedTotal adjs
      <= Money.Amount (AmountBreakdown.Local (Transaction.Amount p)).

Definition purchases_in_range (r : Repository.t) : Prop :=
  forall id p,
    Repository.transactions r !! id = Some p ->
    MinPurchaseAmount
    <= Money.Amount (AmountBreakdown.Local (Transaction.Amount p))
    <= MaxPurchaseAmount.

(** ** Test fixtures (internal/application/service_test.go)

    [makePurchaseCmd] and [makeAdjustCmd] of the service tests, with the
    clock reading [time.Now()] fixed to 0. *)

Definition makePurchaseCmd (id status idemKey : string) (amount : Z) : Command.t :=
  Command.mk id "PURCHASE" status ""
    amount "BRL" amount "BRL" amount "BRL" amount "BRL"
    "m1" "" "" "Store" "" ""
    ("evt-" +:+ id) 0 idemKey
    "u1" "card1" "BR" "BRL" "POS".

Definition makeAdjustCmd (id txType status originalID idemKey : string) (amount : Z)
  : Command.t :=
  Command.mk id txType status originalID
    amount "BRL" amount "BRL" amount "BRL" amount "BRL"
    "m1" "" "" "Store" "" ""
    ("evt-" +:+ id) 0 idemKey
    "u1" "card1" "BR" "BRL" "POS".

(** ** Commit operations on the ledger

    The two writing methods of the repository, as one operation type, so
    that a history of commits is a list. *)

Inductive commit : Type :=
| CommitTransaction (tx : Transaction.t)
| CommitAdjustment (adj : Adjustment.t).

Definition commit_key (c : commit) : string :=
  match c with
  | CommitTransaction tx => Event.IdempotencyKey (Transaction.Event tx)
  | CommitAdjustment adj => Event.IdempotencyKey (Adjustment.Event adj)
  end.

Definition commit_id (c : commit) : string :=
  match c with
  | CommitTransaction tx => Transaction.ID tx
  | CommitAdjustment adj => Adjustment.ID adj
  end.

Definition apply_commit (r : Repository.t) (c : commit) : Repository.t * option error :=
  match c with
  | CommitTransaction tx => Repository.SaveTransaction r tx
  | CommitAdjustment adj => Repository.SaveAdjustment r adj
  end.

(** A history of commits, oldest first: the final ledger and the error
    each commit returned. *)
Fixpoint commits (r : Repository.t) (cs : list commit)
  : Repository.t * list (option error) :=
  match cs with
  | [] => (r, [])
  | c :: rest =>
      let '(r1, e) := apply_commit r c in
      let '(r2, es) := commits r1 rest in
      (r2, e :: es)
  end.

(** ** Concurrent callers of the ledger

    Several goroutines, each running one commit.  [SaveTransaction] and
    [SaveAdjustment] start with [r.mu.Lock()] and release the lock in a
    deferred [r.mu.Unlock()]; between the two, a goroutine runs the
    statements of the method one at a time.  A configuration holds the
    ledger, the goroutine that owns the mutex (if any) and the program
    point of every goroutine; a step is one statement of one goroutine,
    chosen freely by the scheduler, except that [Lock] waits for the
    mutex to be free. *)

Module Concurrent.

Inductive point : Type :=
| AtLock                          (* about to call r.mu.Lock() *)
| AtCheckKey                      (* if _, exists := r.idempotencyKeys[key] *)
| AtCheckID                       (* if _, exists := r.transactions[tx.ID] *)
| AtPutKey                        (* r.idempotencyKeys[key] = id *)
| AtPutValue                      (* r.transactions[id] = tx, or the append *)
| AtUnlock (res : option error)   (* return value fixed, Unlock pending *)
| Returned (res : option error).

Record config : Type := mk {
  ledger : Repository.t;
  holder : option nat;
  points : list point
}.

Definition putKey (r : Repository.t) (c : commit) : Repository.t :=
  Repository.mk (Repository.transactions r) (Repository.adjustments r)
    (<[commit_key c := commit_id c]> (Repository.idempotencyKeys r)).

Definition putValue (r : Repository.t) (c : commit) : Repository.t :=
  match c with
  | CommitTransaction tx =>
      Repository.mk (<[Transaction.ID tx := tx]> (Repository.transactions r))
        (Repository.adjustments r) (Repository.idempotencyKeys r)
  | CommitAdjustment adj =>
      Repository.mk (Repository.transactions r)
        (<[Adjustment.OriginalTransactionID adj :=
             Repository.adjustmentsOf r (Adjustment.OriginalTransactionID adj)
             ++ [adj]]> (Repository.adjustments r))
        (Repository.idempotencyKeys r)
  end.

(** One statement between [Lock] and [Unlock]: the next program point
    and the ledger it leaves. *)
Definition inside (c : commit) (pt : point) (r : Repository.t)
  : option (point * Repository.t) :=
  match pt with
  | AtCheckKey =>
      match Repository.idempotencyKeys r !! commit_key c with
      | Some _ => Some (AtUnlock (Some (Plain ErrDuplicateIdempotencyKey)), r)
      | None =>
          match c with
          | CommitTransaction _ => Some (AtCheckID, r)
          | CommitAdjustment _ => Some (AtPutKey, r)
          end
      end
  | AtCheckID =>
      match c with
      | CommitTransaction tx =>
          match Repository.transactions r !! Transaction.ID tx with
          | Some _ => Some (AtUnlock (Some (Plain ErrDuplicateTransactionID)), r)
          | None => Some (AtPutKey, r)
          end
      | CommitAdjustment _ => None
      end
  | AtPutKey => Some (AtPutValue, putKey r c)
  | AtPutValue => Some (AtUnlock None, putValue r c)
  | AtLock | AtUnlock _ | Returned _ => None
  end.

(** The goroutines run the commits [ops], goroutine [i] running
    [ops !! i]. *)
Inductive step (ops : list commit) : config -> config -> Prop :=
| step_lock (c : config) (i : nat) :
    points c !! i = Some AtLock ->
    holder c = None ->
    step ops c (mk (ledger c) (Some i) (<[i := AtCheckKey]> (points c)))
| step_inside (c : config) (i : nat) (o : commit) (pt pt' : point)
    (r' : Repository.t) :
    ops !! i = Some o ->
    points c !! i = Some pt ->
    inside o pt (ledger c) = Some (pt', r') ->
    step ops c (mk r' (holder c) (<[i := pt']> (points c)))
| step_unlock (c : config) (i : nat) (res : option error) :
    points c !! i = Some (AtUnlock res) ->
    step ops c (mk (ledger c) None (<[i := Returned res]> (points c))).

Definition start (r : Repository.t) (ops : list commit) : config :=
  mk r None (replicate (length ops) AtLock).

(** Configurations the scheduler can reach. *)
Definition reachable (r : Repository.t) (ops : list commit) (c : config) : Prop :=
  rtc (step ops) (start r ops) c.

(** Goroutine [i] has returned [res]. *)
Definition returned (c : config) (i : nat) (res : option error) : Prop :=
  points c !! i = Some (Returned res).

(** [order] lists the goroutines that have returned, without repetition. *)
Definition lists_returned (c : config) (order : list nat) : Prop :=
  NoDup order /\ forall i, i ∈ order <-> exists res, returned c i res.

(** What the goroutine inside the critical section has done so far:
    [before] is the ledger when it took the lock, [now] the ledger at
    program point [pt]. *)
Definition progress (c : commit) (pt : point) (before now : Repository.t) : Prop :=
  match pt with
  | AtCheckKey => now = before
  | AtCheckID =>
      now = before /\
      Repository.idempotencyKeys before !! commit_key c = None /\
      exists tx, c = CommitTransaction tx
  | AtPutKey =>
      now = before /\
      Repository.idempotencyKeys before !! commit_key c = None /\
      forall tx, c = CommitTransaction tx ->
                 Repository.transactions before !! Transaction.ID tx = None
  | AtPutValue =>
      now = putKey before c /\
      Repository.idempotencyKeys before !! commit_key c = None /\
      forall tx, c = CommitTransaction tx ->
                 Repository.transactions before !! Transaction.ID tx = None
  | AtUnlock res => apply_commit before c = (now, res)
  | AtLock | Returned _ => False
  end.

Definition idle (pt : point) : Prop :=
  pt = AtLock \/ exists res, pt = Returned res.

(** The commits of the goroutines of [order], in that order. *)
Definition history (ops : list commit) (order : list nat) : list commit :=
  omap (fun i => ops !! i) order.

(** The configuration agrees with the sequential history [order]: the
    goroutines that returned are those of [order], each with the error
    the history gives it, and the ledger is the history's ledger, up to
    the work in progress of the goroutine holding the lock. *)
Definition agrees (r0 : Repository.t) (ops : list commit) (c : config)
    (order : list nat) : Prop :=
  length (points c) = length ops /\
  NoDup order /\
  (forall n i, order !! n = Some i ->
     exists e, (commits r0 (history ops order)).2 !! n = Some e /\
               points c !! i = Some (Returned e)) /\
  (forall i res, points c !! i = Some (Returned res) -> i ∈ order) /\
  match holder c with
  | None =>
      ledger c = (commits r0 (history ops order)).1 /\
      forall i pt, points c !! i = Some pt -> idle pt
  | Some h =>
      (exists o pt, ops !! h = Some o /\ points c !! h = Some pt /\
                    progress o pt (commits r0 (history ops order)).1 (ledger c)) /\
      forall i pt, i <> h -> points c !! i = Some pt -> idle pt
  end.

(** Program points from which a goroutine can only end with
    DuplicateIdempotencyKey, once its key is recorded. *)
Definition doomed (pt : point) : Prop :=
  pt = AtLock \/ pt = AtCheckKey \/
  pt = AtUnlock (Some (Plain ErrDuplicateIdempotencyKey)) \/
  pt = Returned (Some (Plain ErrDuplicateIdempotencyKey)).

(** The step of goroutine [i], when it can move; [None] when it is
    blocked on the mutex or has returned. *)
Definition fire (ops : list commit) (i : nat) (c : config) : option config :=
  match points c !! i with
  | None => None
  | Some AtLock =>
      match holder c with
      | None => Some (mk (ledger c) (Some i) (<[i := AtCheckKey]> (points c)))
      | Some _ => None
      end
  | Some (AtUnlock res) =>
      Some (mk (ledger c) None (<[i := Returned res]> (points c)))
  | Some pt =>
      o ← ops !! i;
      '(pt', r') ← inside o pt (ledger c);
      Some (mk r' (holder c) (<[i := pt']> (points c)))
  end.

(** A schedule names the goroutine that moves at each step. *)
Fixpoint schedule (ops : list commit) (turns : list nat) (c : config)
  : option config :=
  match turns with
  | [] => Some c
  | i :: rest => c' ← fire ops i c; schedule ops rest c'
  end.

(** The statements a goroutine still has to run, and their total over
    all goroutines. *)
Definition remaining (pt : point) : nat :=
  match pt with
  | AtLock => 6
  | AtCheckKey => 5
  | AtCheckID => 4
  | AtPutKey => 3
  | AtPutValue => 2
  | AtUnlock _ => 1
  | Returned _ => 0
  end.

Definition weight (c : config) : nat := sum_list (remaining <$> points c).

End Concurrent.

(** ** Test fixtures (internal/domain tests)

    [makeMerchant], [makeEvent] and [makeAmountBreakdown] of the domain
    tests; the last one drops the error of [NewMoney], which leaves the
    zero Money. *)

Definition makeMerchant : Merchant.t :=
  Merchant.mk "m1" "5411" "" "Test Store" "SP" "SP".

Definition makeEvent (idempotencyKey : string) : Event.t :=
  Event.mk "evt1" 0 idempotencyKey.

Definition makeAmountBreakdown (amount : Z) (currency : string) : AmountBreakdown.t :=
  let m := match NewMoney amount currency with
           | Ok m => m
           | Err _ => Money.mk 0 ""
           end in
  AmountBreakdown.mk m m m m.

(** ** Test fixtures (internal/adapters/output/memory tests)

    [makePurchase] and [makeAdjustment] of the repository tests.  Both
    drop the constructor's error, which leaves the zero value. *)

Module MemoryFixtures.

Definition zeroMoney : Money.t := Money.mk 0 "".

Definition zeroAmount : AmountBreakdown.t :=
  AmountBreakdown.mk zeroMoney zeroMoney zeroMoney zeroMoney.

Definition makeMoney (amount : Z) : Money.t :=
  match NewMoney amount "BRL" with Ok m => m | Err _ => zeroMoney end.

Definition makeAmountBreakdown (amount : Z) : AmountBreakdown.t :=
  let m := makeMoney amount in AmountBreakdown.mk m m m m.

Definition makePurchase (id idemKey : string) (amount : Z) : Transaction.t :=
  match NewPurchase id StatusApproved (makeAmountBreakdown amount)
          (Merchant.mk "m1" "" "" "Store" "" "")
          (Event.mk ("evt-" +:+ id) 0 idemKey) "u1" "card1" "BR" "BRL" "POS" with
  | Ok tx => tx
  | Err _ =>
      Transaction.mk "" "" "" zeroAmount (Merchant.mk "" "" "" "" "" "")
        (Event.mk "" 0 "") "" "" "" "" "" ""
  end.

Definition makeAdjustment (id originalID idemKey : string) (amount : Z) : Adjustment.t :=
  match NewAdjustment id TypeRefund StatusApproved (makeAmountBreakdown amount)
          (Merchant.mk "m1" "" "" "Store" "" "")
          (Event.mk ("evt-" +:+ id) 0 idemKey) originalID
          "u1" "card1" "BR" "BRL" "POS" with
  | Ok adj => adj
  | Err _ =>
      Adjustment.mk "" "" "" zeroAmount (Merchant.mk "" "" "" "" "" "")
        (Event.mk "" 0 "") "" "" "" "" "" ""
  end.

End MemoryFixtures.


(** ** What a ledger built by the service holds *)

(** A purchase as the service stores it under [id]. *)
Definition stored_purchase (id : string) (p : Transaction.t) : Prop :=
  Transaction.ID p = id /\ id <> "" /\
  Transaction.Type_ p = TypePurchase /\
  Transaction.OriginalTransactionID p = "" /\
  Event.ID (Transaction.Event p) <> "" /\
  Event.IdempotencyKey (Transaction.Event p) <> "" /\
  MinPurchaseAmount
  <= Money.Amount (AmountBreakdown.Local (Transaction.Amount p))
  <= MaxPurchaseAmount /\
  0 <= Money.Amount (AmountBreakdown.Transaction (Transaction.Amount p)) /\
  0 <= Money.Amount (AmountBreakdown.Settlement (Transaction.Amount p)) /\
  0 <= Money.Amount (AmountBreakdown.Original (Transaction.Amount p)).

(** An adjustment as the service stores it in the list of purchase
    [p], filed under [id]. *)
Definition stored_adjustment (id : string) (p : Transaction.t)
    (adj : Adjustment.t) : Prop :=
  Adjustment.OriginalTransactionID adj = id /\
  (Adjustment.Type_ adj = TypeReversalPurchase \/ Adjustment.Type_ adj = TypeRefund) /\
  Adjustment.ID adj <> "" /\
  Event.ID (Adjustment.Event adj) <> "" /\
  Event.IdempotencyKey (Adjustment.Event adj) <> "" /\
  0 <= Money.Amount (AmountBreakdown.Local (Adjustment.Amount adj)) /\
  0 <= Money.Amount (AmountBreakdown.Transaction (Adjustment.Amount adj)) /\
  0 <= Money.Amount (AmountBreakdown.Settlement (Adjustment.Amount adj)) /\
  0 <= Money.Amount (AmountBreakdown.Original (Adjustment.Amount adj)) /\
  (Adjustment.Status adj = StatusApproved ->
   Money.Currency (AmountBreakdown.Local (Adjustment.Amount adj))
   = Money.Currency (AmountBreakdown.Local (Transaction.Amount p))).

Definition purchases_well_formed (r : Repository.t) : Prop :=
  forall id p, Repository.transactions r !! id = Some p -> stored_purchase id p.

Definition adjustments_well_formed (r : Repository.t) : Prop :=
  forall id adjs,
    Repository.adjustments r !! id = Some adjs ->
    adjs <> [] /\
    exists p,
      Repository.transactions r !! id = Some p /\
      Transaction.IsApprovedPurchase p = true /\
      Forall (stored_adjustment id p) adjs.

(** Every stored record has its idempotency key recorded, mapped to the
    record's transaction ID. *)
Definition keys_recorded (r : Repository.t) : Prop :=
  (forall id p,
     Repository.transactions r !! id = Some p ->
     Repository.idempotencyKeys r !! Event.IdempotencyKey (Transaction.Event p)
     = Some id) /\
  (forall id adjs adj,
     Repository.adjustments r !! id = Some adjs -> adj ∈ adjs ->
     Repository.idempotencyKeys r !! Event.IdempotencyKey (Adjustment.Event adj)
     = Some (Adjustment.ID adj)).

(** The idempotency keys of all stored records: purchases first, then
    the adjustments list by list. *)
Definition recordKeys (r : Repository.t) : list string :=
  ((fun p => Event.IdempotencyKey (Transaction.Event p))
     <$> (map_to_list (Repository.transactions r)).*2)
  ++ ((fun adj => Event.IdempotencyKey (Adjustment.Event adj))
        <$> mjoin (map_to_list (Repository.adjustments r)).*2).

(** ** Error texts (internal/domain/errors.go)

    [err.Error()]: the text of a sentinel, and for an error built by
    [fmt.Errorf("%w: ...")] that text, a colon and the detail. *)

Definition sentinelText (s : sentinel) : string :=
  match s with
  | ErrTransactionNotFound => "transaction not found"
  | ErrPurchaseNotApproved => "adjustment target must be an approved purchase"
  | ErrExceedsOriginalAmount => "total adjustments exceed original purchase amount"
  | ErrNegativeAmount => "amount cannot be negative"
  | ErrAmountOutOfRange => "purchase amount must be between R$1,00 and R$5.000,00"
  | ErrCurrencyMismatch => "currency mismatch"
  | ErrInvalidTransactionType => "invalid transaction type"
  | ErrDuplicateIdempotencyKey => "duplicate idempotency key"
  | ErrOriginalTransactionRequired =>
      "reversal/refund must reference an original transaction"
  | ErrDuplicateTransactionID =>
      "transaction ID already exists with a different event"
  | ErrInvalidInput => "invalid input"
  end.

Definition errorText (e : error) : string :=
  match e with
  | Plain s => sentinelText s
  | Wrapf s detail => sentinelText s +:+ ": " +:+ detail
  end.

(** ** The HTTP adapter (internal/adapters/input/http)

    The request handlers, from the decoded request to the status code
    and the value handed to the JSON encoder.  The JSON codec and the two
    library functions [ToCommand] calls are outside the repository: a
    handler takes the decoded body ([None] when decoding failed), and
    [time.Parse] and the [%q] verb of [fmt] are parameters. *)

Module DTOAmount.

Record t : Type := mk { Total : Z; Currency : string }.

End DTOAmount.

Module DTOAmounts.

Record t : Type := mk {
  Local : DTOAmount.t;
  Transaction : DTOAmount.t;
  Settlement : DTOAmount.t;
  Original : DTOAmount.t
}.

End DTOAmounts.

Module DTOMerchant.

Record t : Type := mk {
  ID : string;
  MCC : string;
  Address : string;
  Name : string;
  City : string;
  State : string
}.

End DTOMerchant.

Module DTOEvent.

Record t : Type := mk {
  ID : string;
  CreatedAt : string;
  IdempotencyKey : string
}.

End DTOEvent.

Module WebhookRequestDTO.

Record t : Type := mk {
  ID : string;
  Type_ : string;
  Status : string;
  Amount : DTOAmounts.t;
  Merchant : DTOMerchant.t;
  Event : DTOEvent.t;
  OriginalTransactionID : string;
  UserID : string;
  CardID : string;
  Country : string;
  Currency : string;
  PointOfSale : string
}.

End WebhookRequestDTO.

Module WebhookResponseDTO.

Record t : Type := mk {
  TransactionID : string;
  Idempotent : bool;
  Message : string
}.

End WebhookResponseDTO.

Module ErrorResponseDTO.

Record t : Type := mk { Error : string; Code : string }.

End ErrorResponseDTO.

Module HTTP.

Definition StatusOK : Z := 200.
Definition StatusBadRequest : Z := 400.
Definition StatusNotFound : Z := 404.
Definition StatusConflict : Z := 409.
Definition StatusUnprocessableEntity : Z := 422.
Definition StatusInternalServerError : Z := 500.

(** The values the handlers pass to [writeJSON]. *)
Inductive payload : Type :=
| WebhookPayload (v : WebhookResponseDTO.t)
| ErrorPayload (v : ErrorResponseDTO.t)
| TransactionPayload (v : Transaction.t)
| TransactionsPayload (v : list Transaction.t)
| HealthPayload.

(** What [writeJSON] sends: the status code and the encoded value (the
    content type is always application/json). *)
Record response : Type := mkResponse { status : Z; body : payload }.

Definition writeJSON (status : Z) (v : payload) : response :=
  mkResponse status v.

Definition writeError (status : Z) (msg code : string) : response :=
  writeJSON status (ErrorPayload (ErrorResponseDTO.mk msg code)).

Definition handleDomainError (err : error) (result : Result.t) : response :=
  if errors_Is err ErrDuplicateIdempotencyKey then
    writeJSON StatusOK
      (WebhookPayload
         (WebhookResponseDTO.mk (Result.TransactionID result) true
            "duplicate event, already processed"))
  else if errors_Is err ErrTransactionNotFound then
    writeError StatusNotFound (errorText err) "NOT_FOUND"
  else if errors_Is err ErrExceedsOriginalAmount then
    writeError StatusConflict (errorText err) "EXCEEDS_ORIGINAL_AMOUNT"
  else if errors_Is err ErrPurchaseNotApproved then
    writeError StatusConflict (errorText err) "PURCHASE_NOT_APPROVED"
  else if errors_Is err ErrDuplicateTransactionID then
    writeError StatusConflict (errorText err) "DUPLICATE_TRANSACTION_ID"
  else if errors_Is err ErrAmountOutOfRange then
    writeError StatusUnprocessableEntity (errorText err) "AMOUNT_OUT_OF_RANGE"
  else if errors_Is err ErrNegativeAmount then
    writeError StatusBadRequest (errorText err) "NEGATIVE_AMOUNT"
  else if errors_Is err ErrOriginalTransactionRequired then
    writeError StatusBadRequest (errorText err) "ORIGINAL_TRANSACTION_REQUIRED"
  else if errors_Is err ErrCurrencyMismatch then
    writeError StatusBadRequest (errorText err) "CURRENCY_MISMATCH"
  else if errors_Is err ErrInvalidTransactionType then
    writeError StatusBadRequest (errorText err) "INVALID_TRANSACTION_TYPE"
  else if errors_Is err ErrInvalidInput then
    writeError StatusBadRequest (errorText err) "INVALID_INPUT"
  else
    writeError StatusInternalServerError "internal server error" "INTERNAL_ERROR".

Definition handleGetTransaction (r : Repository.t) (id : string) : response :=
  match Service.GetTransaction r id with
  | Err err =>
      if errors_Is err ErrTransactionNotFound
      then writeError StatusNotFound (errorText err) "NOT_FOUND"
      else writeError StatusInternalServerError "internal server error"
             "INTERNAL_ERROR"
  | Ok tx => writeJSON StatusOK (TransactionPayload tx)
  end.

Definition handleListTransactions (r : Repository.t) : response :=
  match Service.ListTransactions r with
  | Err _ =>
      writeError StatusInternalServerError "internal server error" "INTERNAL_ERROR"
  | Ok txs => writeJSON StatusOK (TransactionsPayload txs)
  end.

Definition handleHealth : response := writeJSON StatusOK HealthPayload.

Section Library.

(** [time.Parse(time.RFC3339, s)]: the instant, or the text of the
    parse error. *)
Variable parseRFC3339 : string -> string + Time.

(** The [%q] verb: the Go-quoted form of a string. *)
Variable quote : string -> string.

(** [ToCommand]: the command, or the text of the validation error. *)
Definition ToCommand (d : WebhookRequestDTO.t) : string + Command.t :=
  if bool_decide (WebhookRequestDTO.ID d = "") then inl "id is required"
  else if bool_decide (WebhookRequestDTO.Type_ d = "") then inl "type is required"
  else if bool_decide (DTOEvent.ID (WebhookRequestDTO.Event d) = "")
  then inl "event.id is required"
  else if bool_decide (DTOEvent.IdempotencyKey (WebhookRequestDTO.Event d) = "")
  then inl "event.idempotency_key is required"
  else if bool_decide (WebhookRequestDTO.Status d <> "APPROVED")
          && bool_decide (WebhookRequestDTO.Status d <> "REJECTED")
  then inl ("status must be APPROVED or REJECTED, got: "
            +:+ quote (WebhookRequestDTO.Status d))
  else
    match parseRFC3339 (DTOEvent.CreatedAt (WebhookRequestDTO.Event d)) with
    | inl err => inl ("event.created_at must be RFC3339: " +:+ err)
    | inr createdAt =>
        let amount := WebhookRequestDTO.Amount d in
        let merchant := WebhookRequestDTO.Merchant d in
        inr (Command.mk
               (WebhookRequestDTO.ID d)
               (WebhookRequestDTO.Type_ d)
               (WebhookRequestDTO.Status d)
               (WebhookRequestDTO.OriginalTransactionID d)
               (DTOAmount.Total (DTOAmounts.Local amount))
               (DTOAmount.Currency (DTOAmounts.Local amount))
               (DTOAmount.Total (DTOAmounts.Transaction amount))
               (DTOAmount.Currency (DTOAmounts.Transaction amount))
               (DTOAmount.Total (DTOAmounts.Settlement amount))
               (DTOAmount.Currency (DTOAmounts.Settlement amount))
               (DTOAmount.Total (DTOAmounts.Original amount))
               (DTOAmount.Currency (DTOAmounts.Original amount))
               (DTOMerchant.ID merchant)
               (DTOMerchant.MCC merchant)
               (DTOMerchant.Address merchant)
               (DTOMerchant.Name merchant)
               (DTOMerchant.City merchant)
               (DTOMerchant.State merchant)
               (DTOEvent.ID (WebhookRequestDTO.Event d))
               createdAt
               (DTOEvent.IdempotencyKey (WebhookRequestDTO.Event d))
               (WebhookRequestDTO.UserID d)
               (WebhookRequestDTO.CardID d)
               (WebhookRequestDTO.Country d)
               (WebhookRequestDTO.Currency d)
               (WebhookRequestDTO.PointOfSale d))
    end.

(** [handleWebhook], from the decoded body: the ledger it leaves and
    the response. *)
Definition handleWebhook (r : Repository.t) (decoded : option WebhookRequestDTO.t)
  : Repository.t * response :=
  match decoded with
  | None => (r, writeError StatusBadRequest "invalid request body" "BAD_REQUEST")
  | Some dto =>
      match ToCommand dto with
      | inl err => (r, writeError StatusBadRequest err "VALIDATION_ERROR")
      | inr cmd =>
          match Service.ProcessTransaction r cmd with
          | (r', (result, Some err)) => (r', handleDomainError err result)
          | (r', (result, None)) =>
              (r', writeJSON StatusOK
                     (WebhookPayload
                        (WebhookResponseDTO.mk (Result.TransactionID result) false
                           "transaction processed")))
          end
      end
  end.

End Library.

End HTTP.

(** ** Test fixtures (internal/adapters/input/http tests)

    [buildWebhookBody] of the handler tests, before it is marshalled. *)

Definition buildWebhookBody (txType status originalID : string)
  : WebhookRequestDTO.t :=
  WebhookRequestDTO.mk "tx1" txType status
    (DTOAmounts.mk (DTOAmount.mk 1000 "BRL") (DTOAmount.mk 1000 "BRL")
       (DTOAmount.mk 1000 "BRL") (DTOAmount.mk 1000 "BRL"))
    (DTOMerchant.mk "m1" "" "" "Store" "" "")
    (DTOEvent.mk "evt1" "2024-01-01T00:00:00Z" "idem1")
    originalID "u1" "card1" "BR" "BRL" "".

(** ** Predicates on requests and responses *)

(** What a command built by [ToCommand] carries. *)
Definition copied (d : WebhookRequestDTO.t) (createdAt : Z) (cmd : Command.t)
  : Prop :=
  let amount := WebhookRequestDTO.Amount d in
  let merchant := WebhookRequestDTO.Merchant d in
  Command.TransactionID cmd = WebhookRequestDTO.ID d /\
  Command.TransactionType_ cmd = WebhookRequestDTO.Type_ d /\
  Command.TransactionStatus_ cmd = WebhookRequestDTO.Status d /\
  Command.OriginalTransactionID cmd = WebhookRequestDTO.OriginalTransactionID d /\
  Command.LocalAmount cmd = DTOAmount.Total (DTOAmounts.Local amount) /\
  Command.LocalCurrency cmd = DTOAmount.Currency (DTOAmounts.Local amount) /\
  Command.TxAmount cmd = DTOAmount.Total (DTOAmounts.Transaction amount) /\
  Command.TxCurrency cmd = DTOAmount.Currency (DTOAmounts.Transaction amount) /\
  Command.SettlementAmount cmd = DTOAmount.Total (DTOAmounts.Settlement amount) /\
  Command.SettlementCurrency cmd
  = DTOAmount.Currency (DTOAmounts.Settlement amount) /\
  Command.OriginalAmount cmd = DTOAmount.Total (DTOAmounts.Original amount) /\
  Command.OriginalCurrency cmd = DTOAmount.Currency (DTOAmounts.Original amount) /\
  Command.MerchantID cmd = DTOMerchant.ID merchant /\
  Command.MerchantMCC cmd = DTOMerchant.MCC merchant /\
  Command.MerchantAddress cmd = DTOMerchant.Address merchant /\
  Command.MerchantName cmd = DTOMerchant.Name merchant /\
  Command.MerchantCity cmd = DTOMerchant.City merchant /\
  Command.MerchantState cmd = DTOMerchant.State merchant /\
  Command.EventID cmd = DTOEvent.ID (WebhookRequestDTO.Event d) /\
  Command.EventCreatedAt cmd = createdAt /\
  Command.IdempotencyKey cmd = DTOEvent.IdempotencyKey (WebhookRequestDTO.Event d) /\
  Command.UserID cmd = WebhookRequestDTO.UserID d /\
  Command.CardID cmd = WebhookRequestDTO.CardID d /\
  Command.Country cmd = WebhookRequestDTO.Country d /\
  Command.Currency cmd = WebhookRequestDTO.Currency d /\
  Command.PointOfSale cmd = WebhookRequestDTO.PointOfSale d.

(** What [ToCommand] requires of a request before it parses the time. *)
Definition presentable (d : WebhookRequestDTO.t) : Prop :=
  WebhookRequestDTO.ID d <> "" /\
  WebhookRequestDTO.Type_ d <> "" /\
  DTOEvent.ID (WebhookRequestDTO.Event d) <> "" /\
  DTOEvent.IdempotencyKey (WebhookRequestDTO.Event d) <> "" /\
  (WebhookRequestDTO.Status d = StatusApproved
   \/ WebhookRequestDTO.Status d = StatusRejected).

(** The code of an error response. *)
Definition codeOf (resp : HTTP.response) : option string :=
  match HTTP.body resp with
  | HTTP.ErrorPayload v => Some (ErrorResponseDTO.Code v)
  | _ => None
  end.

(** * Properties *)

(** ** Machine arithmetic *)

Lemma wrap64_in_range (z : Z) : in_int64 z -> wrap64 z = z.
Proof.
  unfold in_int64, int64_min, int64_max, wrap64. intros Hz.
  rewrite Z.mod_small; lia.
Qed.

Lemma wrap64_is_int64 (z : Z) : in_int64 (wrap64 z).
Proof.
  unfold in_int64, int64_min, int64_max, wrap64.
  pose proof (Z.mod_pos_bound (z + 2 ^ 63) (2 ^ 64) ltac:(lia)). lia.
Qed.

(** ** Errors *)

Lemma errors_Is_Plain (s t : sentinel) : errors_Is (Plain s) t = true <-> s = t.
Proof. unfold errors_Is. simpl. apply bool_decide_eq_true. Qed.

Lemma fails_with_not_succeeds {A : Type} (r : result A) (s : sentinel) :
  fails_with r s -> ~ succeeds r.
Proof. intros (e & -> & _) (a & Ha). discriminate. Qed.

(** ** Money *)

Lemma NewMoney_ok (amount : Z) (currency : string) :
  0 <= amount -> NewMoney amount currency = Ok (Money.mk amount currency).
Proof. intros H. unfold NewMoney. destruct (Z.ltb_spec amount 0); [lia | done]. Qed.

Lemma NewMoney_negative (amount : Z) (currency : string) :
  amount < 0 -> NewMoney amount currency = Err (Plain ErrNegativeAmount).
Proof. intros H. unfold NewMoney. destruct (Z.ltb_spec amount 0); [done | lia]. Qed.

Lemma NewMoney_inv (amount : Z) (currency : string) (m : Money.t) :
  NewMoney amount currency = Ok m ->
  0 <= amount /\ m = Money.mk amount currency.
Proof.
  unfold NewMoney. destruct (Z.ltb_spec amount 0); [discriminate |].
  intros [= <-]. done.
Qed.

(** [Add] and [GreaterThan] refuse exactly the pairs whose currency
    strings differ; equal strings are never refused. *)
Lemma Add_mismatch_iff (a b : Money.t) :
  fails_with (Money.Add a b) ErrCurrencyMismatch
  <-> Money.Currency a <> Money.Currency b.
Proof.
  unfold Money.Add. case_bool_decide as Hc.
  - split; [done |]. intros _. eexists. split; [done | done].
  - split; [| done]. intros (e & He & _). discriminate.
Qed.

Lemma GreaterThan_mismatch_iff (a b : Money.t) :
  fails_with (Money.GreaterThan a b) ErrCurrencyMismatch
  <-> Money.Currency a <> Money.Currency b.
Proof.
  unfold Money.GreaterThan. case_bool_decide as Hc.
  - split; [done |]. intros _. eexists. split; [done | done].
  - split; [| done]. intros (e & He & _). discriminate.
Qed.

Lemma Add_same_currency (a b : Money.t) :
  Money.Currency a = Money.Currency b ->
  Money.Add a b
  = Ok (Money.mk (wrap64 (Money.Amount a + Money.Amount b)) (Money.Currency a)).
Proof. intros Hc. unfold Money.Add. by rewrite bool_decide_eq_false_2 by auto. Qed.

(** Within the 64-bit range the amount of [Add] is the exact sum. *)
Lemma Add_exact (a b : Money.t) :
  Money.Currency a = Money.Currency b ->
  in_int64 (Money.Amount a + Money.Amount b) ->
  Money.Add a b
  = Ok (Money.mk (Money.Amount a + Money.Amount b) (Money.Currency a)).
Proof. intros Hc Hr. rewrite Add_same_currency by done. by rewrite wrap64_in_range. Qed.

Lemma GreaterThan_same_currency (a b : Money.t) :
  Money.Currency a = Money.Currency b ->
  Money.GreaterThan a b = Ok (Money.Amount a >? Money.Amount b).
Proof. intros Hc. unfold Money.GreaterThan. by rewrite bool_decide_eq_false_2 by auto. Qed.

(** Currency comparison is bytewise: two codes that differ only in case
    are different currencies. *)
Example Add_case_sensitive :
  fails_with (Money.Add (Money.mk 100 "BRL") (Money.mk 50 "brl")) ErrCurrencyMismatch.
Proof. apply Add_mismatch_iff. done. Qed.

(** C9 (Money.Add, Money.GreaterThan).  The claim: both operations fail
    with CurrencyMismatch exactly when the currency strings differ, and
    on equal currencies [Add] returns the sum of the two amounts in that
    currency.  The currency half is [Add_mismatch_iff] and
    [GreaterThan_mismatch_iff]; this theorem evaluates [Add] where the
    sum half breaks: both operands are values [NewMoney] accepts, the
    currencies agree, and the amount returned is the most negative
    64-bit integer instead of the sum 2^63. *)
Theorem Add_overflows_int64 :
  let a := Money.mk 9223372036854775807 "BRL" in
  let b := Money.mk 1 "BRL" in
  NewMoney 9223372036854775807 "BRL" = Ok a /\
  NewMoney 1 "BRL" = Ok b /\
  Money.Add a b = Ok (Money.mk (-9223372036854775808) "BRL") /\
  Money.Amount a + Money.Amount b = 9223372036854775808.
Proof. repeat split; vm_compute; reflexivity. Qed.

(** ** Purchase construction *)

Lemma NewPurchase_inv id status amount merchant event u c co cu pos tx :
  NewPurchase id status amount merchant event u c co cu pos = Ok tx ->
  id <> "" /\ Event.ID event <> "" /\ Event.IdempotencyKey event <> "" /\
  MinPurchaseAmount <= Money.Amount (AmountBreakdown.Local amount) <= MaxPurchaseAmount /\
  tx = Transaction.mk id TypePurchase status amount merchant event "" u c co cu pos.
Proof.
  unfold NewPurchase.
  case_bool_decide as Hid; [discriminate |].
  destruct (bool_decide (Event.ID event = "")) eqn:He; [discriminate |].
  destruct (bool_decide (Event.IdempotencyKey event = "")) eqn:Hk; [discriminate |].
  simpl.
  destruct (Z.ltb_spec (Money.Amount (AmountBreakdown.Local amount)) MinPurchaseAmount);
    [discriminate |].
  destruct (Z.gtb_spec (Money.Amount (AmountBreakdown.Local amount)) MaxPurchaseAmount);
    [discriminate |].
  simpl. intros [= <-].
  apply bool_decide_eq_false in He, Hk. repeat split; done || lia.
Qed.

Lemma NewPurchase_ok id status amount merchant event u c co cu pos :
  id <> "" -> Event.ID event <> "" -> Event.IdempotencyKey event <> "" ->
  MinPurchaseAmount <= Money.Amount (AmountBreakdown.Local amount) <= MaxPurchaseAmount ->
  NewPurchase id status amount merchant event u c co cu pos
  = Ok (Transaction.mk id TypePurchase status amount merchant event "" u c co cu pos).
Proof.
  intros Hid He Hk Hr. unfold NewPurchase.
  rewrite !bool_decide_eq_false_2 by done. simpl.
  destruct (Z.ltb_spec (Money.Amount (AmountBreakdown.Local amount)) MinPurchaseAmount);
    [lia |].
  destruct (Z.gtb_spec (Money.Amount (AmountBreakdown.Local amount)) MaxPurchaseAmount);
    [lia | done].
Qed.

Lemma NewPurchase_out_of_range id status amount merchant event u c co cu pos :
  id <> "" -> Event.ID event <> "" -> Event.IdempotencyKey event <> "" ->
  ~ MinPurchaseAmount <= Money.Amount (AmountBreakdown.Local amount) <= MaxPurchaseAmount ->
  NewPurchase id status amount merchant event u c co cu pos
  = Err (Plain ErrAmountOutOfRange).
Proof.
  intros Hid He Hk Hr. unfold NewPurchase.
  rewrite !bool_decide_eq_false_2 by done. simpl.
  destruct (Z.ltb_spec (Money.Amount (AmountBreakdown.Local amount)) MinPurchaseAmount);
    [done |].
  destruct (Z.gtb_spec (Money.Amount (AmountBreakdown.Local amount)) MaxPurchaseAmount);
    [done | lia].
Qed.

(** C5 (NewMoney, NewPurchase).  A purchase is created from an amount
    [a] by building the local Money with [NewMoney] and handing it to
    [NewPurchase], as [processPurchase] does.  With the identifiers
    present, creation succeeds if and only if 100 <= a <= 500000; an
    amount in 0..99 or above 500000 fails with AmountOutOfRange; a
    negative amount fails in [NewMoney] with NegativeAmount, so the range
    check is never reached for it. *)
Theorem NewPurchase_amount_range
    (a : Z) (cur id : string) (status : TransactionStatus)
    (txMoney settlementMoney originalMoney : Money.t)
    (merchant : Merchant.t) (event : Event.t) (u c co cu pos : string) :
  id <> "" -> Event.ID event <> "" -> Event.IdempotencyKey event <> "" ->
  let created :=
    localMoney ← NewMoney a cur;
    NewPurchase id status
      (AmountBreakdown.mk localMoney txMoney settlementMoney originalMoney)
      merchant event u c co cu pos in
  (succeeds created <-> 100 <= a <= 500000) /\
  (0 <= a < 100 \/ 500000 < a -> created = Err (Plain ErrAmountOutOfRange)) /\
  (a < 0 -> created = Err (Plain ErrNegativeAmount)) /\
  (a < 0 -> ~ fails_with created ErrAmountOutOfRange).
Proof.
  intros Hid He Hk created.
  assert (Hneg : a < 0 -> created = Err (Plain ErrNegativeAmount)).
  { intros Ha. unfold created. by rewrite NewMoney_negative. }
  assert (Hout : 0 <= a < 100 \/ 500000 < a -> created = Err (Plain ErrAmountOutOfRange)).
  { intros Ha. unfold created. rewrite NewMoney_ok by lia. simpl.
    apply NewPurchase_out_of_range; try done.
    simpl. unfold MinPurchaseAmount, MaxPurchaseAmount. lia. }
  split; [split | split; [done | split; [done |]]].
  - intros [tx Htx].
    destruct (Z.lt_ge_cases a 0) as [Ha | Ha].
    { rewrite Hneg in Htx by done. discriminate. }
    destruct (Z.lt_ge_cases a 100) as [Hlo | Hlo].
    { rewrite Hout in Htx by lia. discriminate. }
    destruct (Z.le_gt_cases a 500000) as [Hhi | Hhi]; [lia |].
    rewrite Hout in Htx by lia. discriminate.
  - intros Ha. unfold created. rewrite NewMoney_ok by lia. simpl.
    eexists. by apply NewPurchase_ok.
  - intros Ha (e & He' & Hs). rewrite Hneg in He' by done.
    by simplify_eq.
Qed.

Lemma NewPurchase_amount_range_witness :
  succeeds (localMoney ← NewMoney 100 "BRL";
            NewPurchase "tx1" StatusApproved
              (AmountBreakdown.mk localMoney (Money.mk 100 "BRL")
                 (Money.mk 100 "BRL") (Money.mk 100 "BRL"))
              (Merchant.mk "m1" "5411" "" "Test Store" "SP" "SP")
              (Event.mk "evt1" 0 "idem1") "u" "c" "BR" "BRL" "POS").
Proof.
  refine (proj2 (proj1 (NewPurchase_amount_range 100 "BRL" "tx1" StatusApproved
           (Money.mk 100 "BRL") (Money.mk 100 "BRL") (Money.mk 100 "BRL")
           (Merchant.mk "m1" "5411" "" "Test Store" "SP" "SP")
           (Event.mk "evt1" 0 "idem1") "u" "c" "BR" "BRL" "POS" _ _ _)) _);
    [done | done | done | lia].
Defined.

(** ** The validation engine *)

Lemma CanReceiveAdjustment_iff (p : Transaction.t) :
  Transaction.CanReceiveAdjustment p = true
  <-> Transaction.Type_ p = TypePurchase /\ Transaction.Status p = StatusApproved.
Proof.
  unfold Transaction.CanReceiveAdjustment, Transaction.IsApprovedPurchase.
  rewrite andb_true_iff, !bool_decide_eq_true. done.
Qed.

Lemma ValidateAgainstPurchase_not_approved_purchase a original existing :
  Transaction.CanReceiveAdjustment original = false ->
  Adjustment.ValidateAgainstPurchase a original existing
  = Some (Plain ErrPurchaseNotApproved).
Proof. intros H. unfold Adjustment.ValidateAgainstPurchase. by rewrite H. Qed.

Lemma ValidateAgainstPurchase_rejected a original existing :
  Transaction.CanReceiveAdjustment original = true ->
  Adjustment.Status a <> StatusApproved ->
  Adjustment.ValidateAgainstPurchase a original existing = None.
Proof.
  intros H Hs. unfold Adjustment.ValidateAgainstPurchase. rewrite H. simpl.
  by rewrite bool_decide_eq_true_2.
Qed.

(** C6, the input that refutes the claim as stated.  The purchase is an
    approved PURCHASE of BRL 1000, the adjustment is APPROVED for USD 500
    and the running total is BRL 0: the total 0 + 500 does not exceed
    1000, so the claim promises success, and the function returns
    CurrencyMismatch. *)
Lemma ValidateAgainstPurchase_currency_counterexample :
  exists (original : Transaction.t) (a : Adjustment.t) (existing : Money.t),
    NewPurchase "tx1" StatusApproved (makeAmountBreakdown 1000 "BRL")
      makeMerchant (makeEvent "idem-tx1") "u" "c" "BR" "BRL" "POS" = Ok original /\
    NewAdjustment "adj1" TypeRefund StatusApproved (makeAmountBreakdown 500 "USD")
      makeMerchant (makeEvent "adj-idem-adj1") "tx1" "u" "c" "BR" "BRL" "POS" = Ok a /\
    NewMoney 0 "BRL" = Ok existing /\
    Transaction.CanReceiveAdjustment original = true /\
    Adjustment.Status a = StatusApproved /\
    Money.Amount existing + Money.Amount (AmountBreakdown.Local (Adjustment.Amount a))
    <= Money.Amount (AmountBreakdown.Local (Transaction.Amount original)) /\
    Adjustment.ValidateAgainstPurchase a original existing
    = Some (Wrapf ErrCurrencyMismatch "BRL vs USD").
Proof. do 3 eexists. repeat split; vm_compute; congruence. Qed.

(** C6, amended (Adjustment.ValidateAgainstPurchase).  The function
    returns PurchaseNotApproved when the original is not an approved
    PURCHASE; otherwise it succeeds whenever the adjustment is not
    APPROVED, whatever its amount; otherwise it fails with
    CurrencyMismatch when the running total's currency differs from the
    adjustment's or from the purchase's local currency; otherwise, the
    three currencies being equal and the sum of the running total and
    the adjustment's local amount being a 64-bit value, it fails with
    ExceedsOriginalAmount exactly when that sum is greater than the
    purchase's local amount, and succeeds when it is smaller or equal. *)
Theorem ValidateAgainstPurchase_cases
    (a : Adjustment.t) (original : Transaction.t) (existing : Money.t) :
  let adjLocal := AmountBreakdown.Local (Adjustment.Amount a) in
  let origLocal := AmountBreakdown.Local (Transaction.Amount original) in
  let verdict := Adjustment.ValidateAgainstPurchase a original existing in
  (Transaction.CanReceiveAdjustment original = false ->
     verdict = Some (Plain ErrPurchaseNotApproved)) /\
  (Transaction.CanReceiveAdjustment original = true ->
     Adjustment.Status a <> StatusApproved ->
     verdict = None) /\
  (Transaction.CanReceiveAdjustment original = true ->
     Adjustment.Status a = StatusApproved ->
     Money.Currency existing <> Money.Currency adjLocal
     \/ Money.Currency existing <> Money.Currency origLocal ->
     exists e, verdict = Some e /\ errors_Is e ErrCurrencyMismatch = true) /\
  (Transaction.CanReceiveAdjustment original = true ->
     Adjustment.Status a = StatusApproved ->
     Money.Currency existing = Money.Currency adjLocal ->
     Money.Currency existing = Money.Currency origLocal ->
     in_int64 (Money.Amount existing + Money.Amount adjLocal) ->
     (Money.Amount existing + Money.Amount adjLocal > Money.Amount origLocal ->
        verdict = Some (Plain ErrExceedsOriginalAmount)) /\
     (Money.Amount existing + Money.Amount adjLocal <= Money.Amount origLocal ->
        verdict = None)).
Proof.
  intros adjLocal origLocal verdict.
  split; [apply ValidateAgainstPurchase_not_approved_purchase |].
  split; [apply ValidateAgainstPurchase_rejected |].
  assert (Hstep : Transaction.CanReceiveAdjustment original = true ->
                  Adjustment.Status a = StatusApproved ->
                  verdict
                  = match Money.Add existing adjLocal with
                    | Err err => Some err
                    | Ok newTotal =>
                        match Money.GreaterThan newTotal origLocal with
                        | Err err => Some err
                        | Ok exceeds =>
                            if exceeds then Some (Plain ErrExceedsOriginalAmount)
                            else None
                        end
                    end).
  { intros Hc Hs. unfold verdict, Adjustment.ValidateAgainstPurchase.
    rewrite Hc. simpl. by rewrite bool_decide_eq_false_2 by auto. }
  split.
  - intros Hc Hs Hcur. rewrite Hstep by done.
    destruct (decide (Money.Currency existing = Money.Currency adjLocal)) as [Heq | Hne].
    + destruct Hcur as [Hcur | Hcur]; [done |].
      rewrite Add_same_currency by done.
      unfold Money.GreaterThan. simpl.
      rewrite bool_decide_eq_true_2 by done. by eexists.
    + unfold Money.Add. rewrite bool_decide_eq_true_2 by done. by eexists.
  - intros Hc Hs He1 He2 Hr. rewrite Hstep by done.
    rewrite Add_exact by done.
    rewrite GreaterThan_same_currency by done. simpl.
    split; intros Hcmp.
    + destruct (Z.gtb_spec (Money.Amount existing + Money.Amount adjLocal)
                  (Money.Amount origLocal)); [done | lia].
    + destruct (Z.gtb_spec (Money.Amount existing + Money.Amount adjLocal)
                  (Money.Amount origLocal)); [lia | done].
Qed.

Lemma ValidateAgainstPurchase_cases_witness :
  let original :=
    Transaction.mk "tx1" TypePurchase StatusApproved (makeAmountBreakdown 1000 "BRL")
      makeMerchant (makeEvent "idem-tx1") "" "u" "c" "BR" "BRL" "POS" in
  let a :=
    Adjustment.mk "adj2" TypeRefund StatusApproved (makeAmountBreakdown 600 "BRL")
      makeMerchant (makeEvent "adj-idem-adj2") "tx1" "u" "c" "BR" "BRL" "POS" in
  Adjustment.ValidateAgainstPurchase a original (Money.mk 500 "BRL")
  = Some (Plain ErrExceedsOriginalAmount).
Proof.
  intros original a.
  refine (proj1 (proj2 (proj2 (proj2
            (ValidateAgainstPurchase_cases a original (Money.mk 500 "BRL"))))
            _ _ _ _ _) _).
  - reflexivity.
  - reflexivity.
  - reflexivity.
  - reflexivity.
  - vm_compute. split; discriminate.
  - vm_compute. reflexivity.
Defined.

(** ** The ledger *)

Lemma SaveTransaction_duplicate_key (r : Repository.t) (tx : Transaction.t) :
  is_Some (Repository.idempotencyKeys r
             !! Event.IdempotencyKey (Transaction.Event tx)) ->
  Repository.SaveTransaction r tx = (r, Some (Plain ErrDuplicateIdempotencyKey)).
Proof. intros [id Hid]. unfold Repository.SaveTransaction. by rewrite Hid. Qed.

Lemma SaveTransaction_duplicate_id (r : Repository.t) (tx : Transaction.t) :
  Repository.idempotencyKeys r
    !! Event.IdempotencyKey (Transaction.Event tx) = None ->
  is_Some (Repository.transactions r !! Transaction.ID tx) ->
  Repository.SaveTransaction r tx = (r, Some (Plain ErrDuplicateTransactionID)).
Proof.
  intros Hk [old Hold]. unfold Repository.SaveTransaction. by rewrite Hk, Hold.
Qed.

Lemma SaveTransaction_fresh (r : Repository.t) (tx : Transaction.t) :
  Repository.idempotencyKeys r
    !! Event.IdempotencyKey (Transaction.Event tx) = None ->
  Repository.transactions r !! Transaction.ID tx = None ->
  Repository.SaveTransaction r tx
  = (Repository.mk
       (<[Transaction.ID tx := tx]> (Repository.transactions r))
       (Repository.adjustments r)
       (<[Event.IdempotencyKey (Transaction.Event tx) := Transaction.ID tx]>
          (Repository.idempotencyKeys r)),
     None).
Proof. intros Hk Hid. unfold Repository.SaveTransaction. by rewrite Hk, Hid. Qed.

Lemma SaveTransaction_error_unchanged (r : Repository.t) (tx : Transaction.t) (e : error) :
  (Repository.SaveTransaction r tx).2 = Some e ->
  (Repository.SaveTransaction r tx).1 = r.
Proof.
  unfold Repository.SaveTransaction.
  destruct (Repository.idempotencyKeys r !! _); [done |].
  destruct (Repository.transactions r !! _); [done | discriminate].
Qed.

Lemma SaveAdjustment_duplicate_key (r : Repository.t) (adj : Adjustment.t) :
  is_Some (Repository.idempotencyKeys r
             !! Event.IdempotencyKey (Adjustment.Event adj)) ->
  Repository.SaveAdjustment r adj = (r, Some (Plain ErrDuplicateIdempotencyKey)).
Proof. intros [id Hid]. unfold Repository.SaveAdjustment. by rewrite Hid. Qed.

Lemma SaveAdjustment_fresh (r : Repository.t) (adj : Adjustment.t) :
  Repository.idempotencyKeys r
    !! Event.IdempotencyKey (Adjustment.Event adj) = None ->
  Repository.SaveAdjustment r adj
  = (Repository.mk
       (Repository.transactions r)
       (<[Adjustment.OriginalTransactionID adj :=
            Repository.adjustmentsOf r (Adjustment.OriginalTransactionID adj) ++ [adj]]>
          (Repository.adjustments r))
       (<[Event.IdempotencyKey (Adjustment.Event adj) := Adjustment.ID adj]>
          (Repository.idempotencyKeys r)),
     None).
Proof. intros Hk. unfold Repository.SaveAdjustment. by rewrite Hk. Qed.

(** C4 (Repository.SaveTransaction).  The idempotency key is checked
    first: a recorded key gives DuplicateIdempotencyKey whether or not
    the transaction ID collides as well; with a free key, a recorded
    transaction ID gives DuplicateTransactionID; with both free, the
    transaction is stored under its ID and the key is mapped to that ID,
    the other entries of the two maps and the adjustments staying as
    they were; and whenever an error is returned the ledger is the one
    that was passed in. *)
Theorem SaveTransaction_check_order_atomic (r : Repository.t) (tx : Transaction.t) :
  let key := Event.IdempotencyKey (Transaction.Event tx) in
  let id := Transaction.ID tx in
  (is_Some (Repository.idempotencyKeys r !! key) ->
     Repository.SaveTransaction r tx = (r, Some (Plain ErrDuplicateIdempotencyKey))) /\
  (Repository.idempotencyKeys r !! key = None ->
     is_Some (Repository.transactions r !! id) ->
     Repository.SaveTransaction r tx = (r, Some (Plain ErrDuplicateTransactionID))) /\
  (Repository.idempotencyKeys r !! key = None ->
     Repository.transactions r !! id = None ->
     exists r',
       Repository.SaveTransaction r tx = (r', None) /\
       Repository.transactions r' !! id = Some tx /\
       Repository.idempotencyKeys r' !! key = Some id /\
       (forall id', id' <> id ->
          Repository.transactions r' !! id' = Repository.transactions r !! id') /\
       (forall key', key' <> key ->
          Repository.idempotencyKeys r' !! key' = Repository.idempotencyKeys r !! key') /\
       Repository.adjustments r' = Repository.adjustments r) /\
  (forall e, (Repository.SaveTransaction r tx).2 = Some e ->
     (Repository.SaveTransaction r tx).1 = r).
Proof.
  intros key id.
  split; [apply SaveTransaction_duplicate_key |].
  split; [apply SaveTransaction_duplicate_id |].
  split; [| apply SaveTransaction_error_unchanged].
  intros Hk Hid. eexists. split; [by apply SaveTransaction_fresh |]. simpl.
  split; [apply lookup_insert_eq |].
  split; [apply lookup_insert_eq |].
  split; [intros id' Hne; by apply lookup_insert_ne |].
  split; [intros key' Hne; by apply lookup_insert_ne | done].
Qed.

Lemma SaveTransaction_check_order_atomic_witness :
  let tx := MemoryFixtures.makePurchase "tx1" "idem1" 1000 in
  let r := (Repository.SaveTransaction Repository.NewRepository tx).1 in
  Repository.SaveTransaction r tx = (r, Some (Plain ErrDuplicateIdempotencyKey)).
Proof.
  intros tx r.
  refine (proj1 (SaveTransaction_check_order_atomic r tx) _).
  vm_compute. eexists. reflexivity.
Defined.

(** C2, the input that refutes the claim as stated.  After the purchase
    tx1 and the refund adj1 (key adj-idem1) are committed, the refund
    adj1 is committed again under the new key adj-idem2:
    [SaveAdjustment] returns no error, the second copy is appended, and
    both keys now map to the transaction ID adj1. *)
Lemma SaveAdjustment_same_id_new_key_accepted :
  let r0 := Repository.NewRepository in
  let r1 := (Repository.SaveTransaction r0
               (MemoryFixtures.makePurchase "tx1" "idem1" 1000)).1 in
  let first := MemoryFixtures.makeAdjustment "adj1" "tx1" "adj-idem1" 100 in
  let again := MemoryFixtures.makeAdjustment "adj1" "tx1" "adj-idem2" 100 in
  let r2 := (Repository.SaveAdjustment r1 first).1 in
  let r3 := (Repository.SaveAdjustment r2 again).1 in
  Adjustment.ID first = Adjustment.ID again /\
  (Repository.SaveAdjustment r1 first).2 = None /\
  (Repository.SaveAdjustment r2 again).2 = None /\
  Repository.idempotencyKeys r3 !! "adj-idem1" = Some "adj1" /\
  Repository.idempotencyKeys r3 !! "adj-idem2" = Some "adj1" /\
  Repository.adjustmentsOf r3 "tx1" = [first; again].
Proof. repeat split; vm_compute; reflexivity. Qed.

(** C2, amended (Repository.SaveTransaction, Repository.SaveAdjustment).
    On the purchase path a transaction ID that is already committed is
    never committed again: [SaveTransaction] fails with
    DuplicateTransactionID when the idempotency key presented is not yet
    recorded, and in every case returns an error and leaves the ledger
    unchanged.  [SaveAdjustment] makes no transaction-ID check: it
    commits every adjustment whose idempotency key is not yet recorded
    and maps that key to the adjustment's ID, whatever that ID is. *)
Theorem duplicate_transaction_id_purchase_only (r : Repository.t) :
  (forall tx : Transaction.t,
     is_Some (Repository.transactions r !! Transaction.ID tx) ->
     (Repository.idempotencyKeys r
        !! Event.IdempotencyKey (Transaction.Event tx) = None ->
      Repository.SaveTransaction r tx = (r, Some (Plain ErrDuplicateTransactionID))) /\
     (Repository.SaveTransaction r tx).1 = r /\
     (Repository.SaveTransaction r tx).2 <> None) /\
  (forall adj : Adjustment.t,
     Repository.idempotencyKeys r
       !! Event.IdempotencyKey (Adjustment.Event adj) = None ->
     (Repository.SaveAdjustment r adj).2 = None /\
     Repository.idempotencyKeys (Repository.SaveAdjustment r adj).1
       !! Event.IdempotencyKey (Adjustment.Event adj) = Some (Adjustment.ID adj)).
Proof.
  split.
  - intros tx Hid. split; [intros Hk; by apply SaveTransaction_duplicate_id |].
    destruct (Repository.idempotencyKeys r
                !! Event.IdempotencyKey (Transaction.Event tx)) as [k |] eqn:Hk.
    + rewrite SaveTransaction_duplicate_key by (rewrite Hk; by eexists). done.
    + rewrite SaveTransaction_duplicate_id by done. done.
  - intros adj Hk. rewrite SaveAdjustment_fresh by done. simpl.
    split; [done | apply lookup_insert_eq].
Qed.

Lemma duplicate_transaction_id_purchase_only_witness :
  let r := (Repository.SaveTransaction Repository.NewRepository
              (MemoryFixtures.makePurchase "tx1" "idem1" 1000)).1 in
  Repository.SaveTransaction r (MemoryFixtures.makePurchase "tx1" "idem2" 1000)
  = (r, Some (Plain ErrDuplicateTransactionID)).
Proof.
  intros r.
  refine (proj1 (proj1 (duplicate_transaction_id_purchase_only r)
                   (MemoryFixtures.makePurchase "tx1" "idem2" 1000) _) _).
  - vm_compute. eexists. reflexivity.
  - vm_compute. reflexivity.
Defined.

(** ** Histories of commits *)

Lemma apply_commit_recorded (r : Repository.t) (c : commit) :
  is_Some (Repository.idempotencyKeys r !! commit_key c) ->
  apply_commit r c = (r, Some (Plain ErrDuplicateIdempotencyKey)).
Proof.
  destruct c as [tx | adj]; simpl.
  - apply SaveTransaction_duplicate_key.
  - apply SaveAdjustment_duplicate_key.
Qed.

(** A commit never forgets a recorded key. *)
Lemma apply_commit_keeps_keys (r : Repository.t) (c : commit) (k : string) :
  is_Some (Repository.idempotencyKeys r !! k) ->
  is_Some (Repository.idempotencyKeys (apply_commit r c).1 !! k).
Proof.
  intros Hk. destruct c as [tx | adj]; simpl.
  - unfold Repository.SaveTransaction.
    destruct (Repository.idempotencyKeys r !! Event.IdempotencyKey _); [done |].
    destruct (Repository.transactions r !! _); [done |]. simpl.
    rewrite lookup_insert_is_Some. destruct (decide
      (Event.IdempotencyKey (Transaction.Event tx) = k)); auto.
  - unfold Repository.SaveAdjustment.
    destruct (Repository.idempotencyKeys r !! Event.IdempotencyKey _); [done |].
    simpl. rewrite lookup_insert_is_Some. destruct (decide
      (Event.IdempotencyKey (Adjustment.Event adj) = k)); auto.
Qed.

(** A commit that succeeds records its key. *)
Lemma apply_commit_success_records (r r' : Repository.t) (c : commit) :
  apply_commit r c = (r', None) ->
  is_Some (Repository.idempotencyKeys r' !! commit_key c).
Proof.
  destruct c as [tx | adj]; simpl.
  - unfold Repository.SaveTransaction.
    destruct (Repository.idempotencyKeys r !! Event.IdempotencyKey _); [discriminate |].
    destruct (Repository.transactions r !! _); [discriminate |].
    intros [= <-]. simpl. rewrite lookup_insert_eq. by eexists.
  - unfold Repository.SaveAdjustment.
    destruct (Repository.idempotencyKeys r !! Event.IdempotencyKey _); [discriminate |].
    intros [= <-]. simpl. rewrite lookup_insert_eq. by eexists.
Qed.

Lemma commits_cons (r : Repository.t) (c : commit) (cs : list commit) :
  commits r (c :: cs)
  = ((commits (apply_commit r c).1 cs).1,
     (apply_commit r c).2 :: (commits (apply_commit r c).1 cs).2).
Proof.
  simpl. destruct (apply_commit r c) as [r1 e]. simpl.
  by destruct (commits r1 cs).
Qed.

Lemma commits_app (r : Repository.t) (cs1 cs2 : list commit) :
  commits r (cs1 ++ cs2)
  = ((commits (commits r cs1).1 cs2).1,
     (commits r cs1).2 ++ (commits (commits r cs1).1 cs2).2).
Proof.
  revert r. induction cs1 as [| c cs1 IH]; intros r.
  - simpl. by destruct (commits r cs2).
  - rewrite <- app_comm_cons, !commits_cons. simpl. by rewrite IH.
Qed.

Lemma commits_length (r : Repository.t) (cs : list commit) :
  length (commits r cs).2 = length cs.
Proof.
  revert r. induction cs as [| c cs IH]; intros r; [done |].
  rewrite commits_cons. simpl. by rewrite IH.
Qed.

(** Once a key is recorded, every commit of a history that presents it
    is answered DuplicateIdempotencyKey. *)
Lemma commits_recorded_key (r : Repository.t) (cs : list commit) (k : string) :
  is_Some (Repository.idempotencyKeys r !! k) ->
  forall (m : nat) (cm : commit),
    cs !! m = Some cm -> commit_key cm = k ->
    (commits r cs).2 !! m = Some (Some (Plain ErrDuplicateIdempotencyKey)).
Proof.
  revert r. induction cs as [| c cs IH]; intros r Hk m cm Hm Hkey; [done |].
  rewrite commits_cons. simpl. destruct m as [| m]; simpl in *.
  - injection Hm as ->. subst k. by rewrite apply_commit_recorded.
  - apply (IH _ (apply_commit_keeps_keys r c k Hk) m cm Hm Hkey).
Qed.

(** In a history, a commit that succeeds shuts its key for good. *)
Lemma commits_one_winner (r : Repository.t) (cs : list commit) :
  forall (n m : nat) (cn cm : commit),
    (n < m)%nat ->
    cs !! n = Some cn -> cs !! m = Some cm ->
    commit_key cn = commit_key cm ->
    (commits r cs).2 !! n = Some None ->
    (commits r cs).2 !! m = Some (Some (Plain ErrDuplicateIdempotencyKey)).
Proof.
  revert r. induction cs as [| c cs IH]; intros r n m cn cm Hlt Hn Hm Hkey Hwin;
    [done |].
  rewrite commits_cons in Hwin |- *. simpl in *.
  destruct m as [| m]; [lia |]. destruct n as [| n]; simpl in *.
  - injection Hn as ->. injection Hwin as Hwin.
    apply (commits_recorded_key _ cs (commit_key cn)) with (cm := cm);
      [| done | done].
    apply (apply_commit_success_records r). by apply injective_projections.
  - apply (IH _ n m cn cm); [lia | done | done | done | done].
Qed.

(** ** Goroutines committing under the mutex *)

Lemma idle_not_inside (o : commit) (pt : Concurrent.point) (r : Repository.t) :
  Concurrent.idle pt -> Concurrent.inside o pt r = None.
Proof. intros [-> | [res ->]]; done. Qed.

Lemma idle_not_unlock (pt : Concurrent.point) (res : option error) :
  Concurrent.idle pt -> pt <> Concurrent.AtUnlock res.
Proof. intros [-> | [res' ->]]; done. Qed.

Lemma history_snoc (ops : list commit) (order : list nat) (i : nat) (o : commit) :
  ops !! i = Some o ->
  Concurrent.history ops (order ++ [i]) = Concurrent.history ops order ++ [o].
Proof.
  intros Ho. unfold Concurrent.history. rewrite omap_app. simpl. by rewrite Ho.
Qed.

(** One statement inside the critical section keeps [progress]. *)
Lemma progress_inside (o : commit) (pt pt' : Concurrent.point)
    (before now now' : Repository.t) :
  Concurrent.progress o pt before now ->
  Concurrent.inside o pt now = Some (pt', now') ->
  Concurrent.progress o pt' before now'.
Proof.
  destruct pt; simpl; try done.
  - intros ->.
    destruct (Repository.idempotencyKeys before !! commit_key o) as [k |] eqn:Hk.
    + intros [= <- <-]. simpl. apply apply_commit_recorded. rewrite Hk. by eexists.
    + destruct o as [tx | adj]; intros [= <- <-]; simpl.
      * split; [done |]. split; [done |]. by eexists.
      * split; [done |]. split; [done |]. intros tx [=].
  - intros (-> & Hk & tx & ->).
    destruct (Repository.transactions before !! Transaction.ID tx) as [old |] eqn:Hid.
    + intros [= <- <-]. simpl. apply SaveTransaction_duplicate_id; [done |].
      rewrite Hid. by eexists.
    + intros [= <- <-]. simpl. split; [done |]. split; [done |].
      intros tx' [= <-]. done.
  - intros (-> & Hk & Hid) [= <- <-]. simpl. done.
  - intros (-> & Hk & Hid) [= <- <-]. simpl.
    destruct o as [tx | adj]; simpl.
    + rewrite SaveTransaction_fresh by (done || by apply Hid). done.
    + rewrite SaveAdjustment_fresh by done. done.
Qed.

Lemma agrees_start (r0 : Repository.t) (ops : list commit) :
  Concurrent.agrees r0 ops (Concurrent.start r0 ops) [].
Proof.
  unfold Concurrent.agrees, Concurrent.start. simpl.
  split; [by rewrite length_replicate |].
  split; [constructor |].
  split; [intros n i Hn; done |].
  split.
  - intros i res Hi. apply lookup_replicate in Hi as [? _]. done.
  - split; [done |]. intros i pt Hi. apply lookup_replicate in Hi as [-> _].
    by left.
Qed.

Lemma agrees_step (r0 : Repository.t) (ops : list commit)
    (c c' : Concurrent.config) (order : list nat) :
  Concurrent.agrees r0 ops c order ->
  Concurrent.step ops c c' ->
  exists order', Concurrent.agrees r0 ops c' order'.
Proof.
  intros (Hlen & Hnd & Hret & Hin & Hhold) Hstep.
  destruct Hstep as [c i Hi Hfree | c i o pt pt' r' Ho Hi Hins | c i res Hi].
  - (* Lock *)
    rewrite Hfree in Hhold. destruct Hhold as [Hled Hidle].
    exists order. unfold Concurrent.agrees. simpl.
    split; [by rewrite length_insert |].
    split; [done |].
    split.
    { intros n j Hn. destruct (Hret n j Hn) as (e & He & Hj).
      exists e. split; [done |].
      rewrite list_lookup_insert_ne; [done |]. intros <-. congruence. }
    split.
    { intros j res Hj. destruct (decide (i = j)) as [<- | Hne].
      - rewrite list_lookup_insert_eq in Hj by (by eapply lookup_lt_Some). done.
      - rewrite list_lookup_insert_ne in Hj by done. by eapply Hin. }
    split.
    { assert (is_Some (ops !! i)) as [o Ho].
      { apply lookup_lt_is_Some. rewrite <- Hlen. by eapply lookup_lt_Some. }
      exists o, Concurrent.AtCheckKey. split; [done |].
      split; [apply list_lookup_insert_eq; by eapply lookup_lt_Some |].
      simpl. done. }
    intros j pt Hne Hj. rewrite list_lookup_insert_ne in Hj by done.
    by eapply Hidle.
  - (* a statement between Lock and Unlock *)
    destruct (Concurrent.holder c) as [h |] eqn:Hh.
    2:{ destruct Hhold as [_ Hidle]. specialize (Hidle i pt Hi).
        rewrite (idle_not_inside o pt _ Hidle) in Hins. done. }
    destruct Hhold as [(o' & pt0 & Ho' & Hpt0 & Hprog) Hidle].
    destruct (decide (i = h)) as [-> | Hne].
    2:{ specialize (Hidle i pt Hne Hi).
        rewrite (idle_not_inside o pt _ Hidle) in Hins. done. }
    assert (o' = o) as -> by congruence. assert (pt0 = pt) as -> by congruence.
    pose proof (progress_inside _ _ _ _ _ _ Hprog Hins) as Hprog'.
    exists order. unfold Concurrent.agrees. simpl.
    split; [by rewrite length_insert |].
    split; [done |].
    split.
    { intros n j Hn. destruct (Hret n j Hn) as (e & He & Hj).
      exists e. split; [done |].
      rewrite list_lookup_insert_ne; [done |]. intros <-.
      rewrite Hi in Hj. injection Hj as ->. done. }
    split.
    { intros j res Hj. destruct (decide (h = j)) as [<- | Hne].
      - rewrite list_lookup_insert_eq in Hj by (by eapply lookup_lt_Some).
        injection Hj as ->. done.
      - rewrite list_lookup_insert_ne in Hj by done. by eapply Hin. }
    split.
    { exists o, pt'. split; [done |].
      split; [apply list_lookup_insert_eq; by eapply lookup_lt_Some | done]. }
    intros j ptj Hne Hj. rewrite list_lookup_insert_ne in Hj by done.
    by eapply Hidle.
  - (* Unlock *)
    destruct (Concurrent.holder c) as [h |] eqn:Hh.
    2:{ destruct Hhold as [_ Hidle]. specialize (Hidle i _ Hi).
        by apply (idle_not_unlock _ res) in Hidle. }
    destruct Hhold as [(o & pt0 & Ho & Hpt0 & Hprog) Hidle].
    destruct (decide (i = h)) as [-> | Hne].
    2:{ specialize (Hidle i _ Hne Hi). by apply (idle_not_unlock _ res) in Hidle. }
    assert (pt0 = Concurrent.AtUnlock res) as -> by congruence.
    simpl in Hprog.
    assert (Hfresh : h ∉ order).
    { intros Hel. apply list_elem_of_lookup in Hel as [n Hn].
      destruct (Hret n h Hn) as (e & _ & Hj). congruence. }
    assert (Hhist : length (Concurrent.history ops order) = length order).
    { clear -Hret Hlen. unfold Concurrent.history.
      assert (Hall : forall j, j ∈ order -> is_Some (ops !! j)).
      { intros j Hel. apply list_elem_of_lookup in Hel as [n Hn].
        destruct (Hret n j Hn) as (e & _ & Hj).
        apply lookup_lt_is_Some. rewrite <- Hlen. by eapply lookup_lt_Some. }
      clear Hret. induction order as [| j order IH]; [done |].
      simpl. destruct (Hall j ltac:(left)) as [oj ->]. simpl.
      f_equal. apply IH. intros j' Hel. apply Hall. by right. }
    exists (order ++ [h]). unfold Concurrent.agrees. simpl.
    rewrite (history_snoc ops order h o Ho), commits_app. simpl.
    rewrite Hprog. simpl.
    split; [by rewrite length_insert |].
    split; [apply NoDup_app; split; [done |]; split;
              [intros j Hj1 Hj2; apply list_elem_of_singleton in Hj2 as ->; done
              | apply NoDup_singleton] |].
    split.
    { intros n j Hn. apply lookup_app_Some in Hn as [Hn | [Hge Hn]].
      - destruct (Hret n j Hn) as (e & He & Hj). exists e.
        split; [by apply lookup_app_l_Some |].
        rewrite list_lookup_insert_ne; [done |]. intros <-.
        apply Hfresh. by eapply list_elem_of_lookup_2.
      - apply list_lookup_singleton_Some in Hn as [Hn <-].
        assert (n = length order) as -> by lia.
        exists res. split.
        + rewrite lookup_app_r by (rewrite commits_length, Hhist; lia).
          rewrite commits_length, Hhist, Nat.sub_diag. done.
        + apply list_lookup_insert_eq. by eapply lookup_lt_Some. }
    split.
    { intros j res' Hj. destruct (decide (h = j)) as [<- | Hne].
      - apply elem_of_app. right. by apply list_elem_of_singleton.
      - rewrite list_lookup_insert_ne in Hj by done.
        apply elem_of_app. left. by eapply Hin. }
    split; [done |].
    intros j ptj Hj. destruct (decide (h = j)) as [<- | Hne].
    + rewrite list_lookup_insert_eq in Hj by (by eapply lookup_lt_Some).
      injection Hj as <-. right. by eexists.
    + rewrite list_lookup_insert_ne in Hj by done. by eapply Hidle.
Qed.

Lemma agrees_reachable (r0 : Repository.t) (ops : list commit) (c : Concurrent.config) :
  Concurrent.reachable r0 ops c ->
  exists order, Concurrent.agrees r0 ops c order.
Proof.
  unfold Concurrent.reachable. intros Hrun.
  apply (rtc_ind_r (R := Concurrent.step ops)
           (fun c => exists order, Concurrent.agrees r0 ops c order)
           (Concurrent.start r0 ops)); [| | done].
  - exists []. apply agrees_start.
  - intros c1 c2 _ Hstep [order IH]. by apply (agrees_step r0 ops c1 c2 order).
Qed.

Lemma history_lookup (ops : list commit) (order : list nat) (n i : nat) :
  (forall j, j ∈ order -> is_Some (ops !! j)) ->
  order !! n = Some i ->
  Concurrent.history ops order !! n = ops !! i.
Proof.
  unfold Concurrent.history. revert n.
  induction order as [| j order IH]; intros n Hall Hn; [done |].
  simpl. destruct (Hall j ltac:(left)) as [oj Hoj]. rewrite Hoj. simpl.
  destruct n as [| n]; simpl in *.
  - injection Hn as ->. done.
  - apply IH; [| done]. intros j' Hel. apply Hall. by right.
Qed.

(** Mutual exclusion: two goroutines are never both between [Lock] and
    [Unlock]. *)
Lemma critical_section_exclusive (r0 : Repository.t) (ops : list commit)
    (c : Concurrent.config) (i j : nat) (pi pj : Concurrent.point) :
  Concurrent.reachable r0 ops c ->
  Concurrent.points c !! i = Some pi -> Concurrent.points c !! j = Some pj ->
  ~ Concurrent.idle pi -> ~ Concurrent.idle pj ->
  i = j.
Proof.
  intros Hreach Hi Hj Hni Hnj.
  destruct (agrees_reachable _ _ _ Hreach) as [order (_ & _ & _ & _ & Hhold)].
  destruct (Concurrent.holder c) as [h |].
  - destruct Hhold as [_ Hidle].
    destruct (decide (i = h)) as [-> | Hih]; [| by destruct Hni; eapply Hidle].
    destruct (decide (j = h)) as [-> | Hjh]; [done | by destruct Hnj; eapply Hidle].
  - destruct Hhold as [_ Hidle]. destruct Hni. by eapply Hidle.
Qed.

(** Serializability: what the goroutines returned, and the ledger they
    left, are those of the commits run one after the other in some
    order. *)
Lemma concurrent_commits_serializable (r0 : Repository.t) (ops : list commit)
    (c : Concurrent.config) :
  Concurrent.reachable r0 ops c ->
  exists order,
    Concurrent.lists_returned c order /\
    (forall n i, order !! n = Some i ->
       Concurrent.history ops order !! n = ops !! i /\
       exists e, (commits r0 (Concurrent.history ops order)).2 !! n = Some e /\
                 Concurrent.returned c i e) /\
    (Concurrent.holder c = None ->
       Concurrent.ledger c = (commits r0 (Concurrent.history ops order)).1).
Proof.
  intros Hreach.
  destruct (agrees_reachable _ _ _ Hreach)
    as [order (Hlen & Hnd & Hret & Hin & Hhold)].
  exists order.
  assert (Hall : forall j, j ∈ order -> is_Some (ops !! j)).
  { intros j Hel. apply list_elem_of_lookup in Hel as [n Hn].
    destruct (Hret n j Hn) as (e & _ & Hj).
    apply lookup_lt_is_Some. rewrite <- Hlen. by eapply lookup_lt_Some. }
  split; [split; [done |] |].
  - intros i. split.
    + intros Hel. apply list_elem_of_lookup in Hel as [n Hn].
      destruct (Hret n i Hn) as (e & _ & Hi). by exists e.
    + intros [res Hres]. by eapply Hin.
  - split.
    + intros n i Hn. split; [by apply history_lookup |]. by apply Hret.
    + intros Hfree. rewrite Hfree in Hhold. by destruct Hhold.
Qed.

Lemma commits_keep_keys (r : Repository.t) (cs : list commit) (k : string) :
  is_Some (Repository.idempotencyKeys r !! k) ->
  is_Some (Repository.idempotencyKeys (commits r cs).1 !! k).
Proof.
  revert r. induction cs as [| c cs IH]; intros r Hk; [done |].
  rewrite commits_cons. simpl. apply IH. by apply apply_commit_keeps_keys.
Qed.

Lemma commits_success_records (r : Repository.t) (cs : list commit)
    (n : nat) (cn : commit) :
  cs !! n = Some cn ->
  (commits r cs).2 !! n = Some None ->
  is_Some (Repository.idempotencyKeys (commits r cs).1 !! commit_key cn).
Proof.
  revert r n. induction cs as [| c cs IH]; intros r n Hn Hwin; [done |].
  rewrite commits_cons in Hwin |- *. simpl in *.
  destruct n as [| n]; simpl in *.
  - injection Hn as ->. injection Hwin as Hwin. apply commits_keep_keys.
    apply (apply_commit_success_records r). by apply injective_projections.
  - by apply (IH _ n).
Qed.

Lemma progress_keeps_keys (o : commit) (pt : Concurrent.point)
    (before now : Repository.t) (k : string) :
  Concurrent.progress o pt before now ->
  is_Some (Repository.idempotencyKeys before !! k) ->
  is_Some (Repository.idempotencyKeys now !! k).
Proof.
  intros Hprog Hk. destruct pt; simpl in Hprog; try done.
  - by subst.
  - by destruct Hprog as [-> _].
  - by destruct Hprog as [-> _].
  - destruct Hprog as [-> _]. simpl. rewrite lookup_insert_is_Some.
    destruct (decide (commit_key o = k)); auto.
  - pose proof (apply_commit_keeps_keys before o k Hk) as Hk'.
    by rewrite Hprog in Hk'.
Qed.

(** The key of a goroutine that returned success is in the ledger. *)
Lemma winner_key_recorded (r0 : Repository.t) (ops : list commit)
    (c : Concurrent.config) (i : nat) (oi : commit) :
  Concurrent.reachable r0 ops c ->
  ops !! i = Some oi ->
  Concurrent.returned c i None ->
  is_Some (Repository.idempotencyKeys (Concurrent.ledger c) !! commit_key oi).
Proof.
  intros Hreach Hoi Hwin.
  destruct (agrees_reachable _ _ _ Hreach)
    as [order (Hlen & Hnd & Hret & Hin & Hhold)].
  assert (Hall : forall j, j ∈ order -> is_Some (ops !! j)).
  { intros j Hel. apply list_elem_of_lookup in Hel as [n Hn].
    destruct (Hret n j Hn) as (e & _ & Hj).
    apply lookup_lt_is_Some. rewrite <- Hlen. by eapply lookup_lt_Some. }
  pose proof (Hin i None Hwin) as Hel.
  apply list_elem_of_lookup in Hel as [n Hn].
  destruct (Hret n i Hn) as (e & He & Hi).
  assert (e = None) as -> by (unfold Concurrent.returned in Hwin; congruence).
  assert (Hseq : is_Some (Repository.idempotencyKeys
                            (commits r0 (Concurrent.history ops order)).1
                            !! commit_key oi)).
  { apply (commits_success_records _ _ n); [| done].
    rewrite (history_lookup ops order n i Hall Hn). done. }
  destruct (Concurrent.holder c) as [h |].
  - destruct Hhold as [(o & pt & _ & _ & Hprog) _].
    by eapply progress_keeps_keys.
  - destruct Hhold as [-> _]. done.
Qed.

Lemma step_keeps_keys (ops : list commit) (c c' : Concurrent.config) (k : string) :
  Concurrent.step ops c c' ->
  is_Some (Repository.idempotencyKeys (Concurrent.ledger c) !! k) ->
  is_Some (Repository.idempotencyKeys (Concurrent.ledger c') !! k).
Proof.
  intros Hstep Hk.
  destruct Hstep as [c i Hi Hfree | c i o pt pt' r' Ho Hi Hins | c i res Hi];
    simpl; [done | | done].
  destruct pt; simpl in Hins; try done.
  - destruct (Repository.idempotencyKeys (Concurrent.ledger c) !! commit_key o);
      [by injection Hins as _ <- |].
    destruct o; by injection Hins as _ <-.
  - destruct o as [tx | adj]; [| done].
    destruct (Repository.transactions (Concurrent.ledger c) !! Transaction.ID tx);
      by injection Hins as _ <-.
  - injection Hins as _ <-. simpl. rewrite lookup_insert_is_Some.
    destruct (decide (commit_key o = k)); auto.
  - injection Hins as _ <-. destruct o; done.
Qed.

Lemma step_keeps_doomed (ops : list commit) (c c' : Concurrent.config)
    (j : nat) (oj : commit) :
  Concurrent.step ops c c' ->
  ops !! j = Some oj ->
  is_Some (Repository.idempotencyKeys (Concurrent.ledger c) !! commit_key oj) ->
  (exists pt, Concurrent.points c !! j = Some pt /\ Concurrent.doomed pt) ->
  exists pt', Concurrent.points c' !! j = Some pt' /\ Concurrent.doomed pt'.
Proof.
  intros Hstep Hoj [k Hk] (ptj & Hj & Hd).
  destruct Hstep as [c i Hi Hfree | c i o pt pt' r' Ho Hi Hins | c i res Hi];
    simpl; (destruct (decide (i = j)) as [-> | Hne];
            [| exists ptj; by rewrite list_lookup_insert_ne by done]);
    rewrite list_lookup_insert_eq by (by eapply lookup_lt_Some);
    eexists; (split; [done |]).
  - right. by left.
  - assert (o = oj) as -> by congruence. assert (pt = ptj) as -> by congruence.
    destruct Hd as [-> | [-> | [-> | ->]]]; simpl in Hins; try done.
    rewrite Hk in Hins. injection Hins as <- _. right. right. by left.
  - assert (ptj = Concurrent.AtUnlock res) as -> by congruence.
    destruct Hd as [? | [? | [[= ->] | ?]]]; try done.
    right. right. by right.
Qed.

(** After a goroutine has returned success, a goroutine with the same
    key that had not yet taken the lock returns
    DuplicateIdempotencyKey, whatever the scheduler does. *)
Lemma later_attempt_duplicate (r0 : Repository.t) (ops : list commit)
    (c1 c2 : Concurrent.config) (i j : nat) (oi oj : commit) :
  Concurrent.reachable r0 ops c1 ->
  rtc (Concurrent.step ops) c1 c2 ->
  ops !! i = Some oi -> ops !! j = Some oj ->
  commit_key oi = commit_key oj ->
  Concurrent.returned c1 i None ->
  Concurrent.points c1 !! j = Some Concurrent.AtLock ->
  forall res, Concurrent.returned c2 j res ->
              res = Some (Plain ErrDuplicateIdempotencyKey).
Proof.
  intros Hreach Hrun Hoi Hoj Hkey Hwin Hj.
  pose proof (winner_key_recorded _ _ _ _ _ Hreach Hoi Hwin) as Hrec.
  rewrite Hkey in Hrec.
  assert (Hinv : is_Some (Repository.idempotencyKeys (Concurrent.ledger c2)
                            !! commit_key oj) /\
                 exists pt, Concurrent.points c2 !! j = Some pt /\
                            Concurrent.doomed pt).
  { apply (rtc_ind_r (R := Concurrent.step ops)
             (fun c => is_Some (Repository.idempotencyKeys (Concurrent.ledger c)
                                  !! commit_key oj) /\
                       exists pt, Concurrent.points c !! j = Some pt /\
                                  Concurrent.doomed pt) c1); [| | done].
    - split; [done |]. exists Concurrent.AtLock. split; [done | by left].
    - intros ca cb _ Hstep [Hk Hd]. split.
      + by eapply step_keeps_keys.
      + by eapply step_keeps_doomed. }
  destruct Hinv as [_ (pt & Hpt & Hd)].
  intros res Hres. unfold Concurrent.returned in Hres.
  rewrite Hpt in Hres. injection Hres as ->.
  destruct Hd as [? | [? | [? | [= ->]]]]; done.
Qed.

(** Of two goroutines presenting the same key, at most one returns
    success. *)
Lemma concurrent_one_winner (r0 : Repository.t) (ops : list commit)
    (c : Concurrent.config) (i j : nat) (oi oj : commit) :
  Concurrent.reachable r0 ops c ->
  i <> j ->
  ops !! i = Some oi -> ops !! j = Some oj ->
  commit_key oi = commit_key oj ->
  Concurrent.returned c i None ->
  ~ Concurrent.returned c j None.
Proof.
  intros Hreach Hne Hoi Hoj Hkey Hi Hj.
  destruct (concurrent_commits_serializable _ _ _ Hreach)
    as (order & [Hnd Hlist] & Hseq & _).
  assert (Hpos : forall t, Concurrent.returned c t None -> exists n, order !! n = Some t).
  { intros t Ht. apply list_elem_of_lookup. apply Hlist. by eexists. }
  destruct (Hpos i Hi) as [n Hn]. destruct (Hpos j Hj) as [m Hm].
  assert (Hres : forall t p, order !! p = Some t -> Concurrent.returned c t None ->
                   (commits r0 (Concurrent.history ops order)).2 !! p = Some None).
  { intros t p Hp Ht. destruct (Hseq p t Hp) as (_ & e & He & Hte).
    unfold Concurrent.returned in *. congruence. }
  assert (Hdup : forall p q tp tq op oq,
             (p < q)%nat -> order !! p = Some tp -> order !! q = Some tq ->
             ops !! tp = Some op -> ops !! tq = Some oq ->
             commit_key op = commit_key oq ->
             Concurrent.returned c tp None -> Concurrent.returned c tq None -> False).
  { intros p q tp tq op oq Hlt Hp Hq Hop Hoq Hk Htp Htq.
    pose proof (commits_one_winner r0 (Concurrent.history ops order) p q op oq Hlt)
      as Hone.
    rewrite (proj1 (Hseq p tp Hp)), (proj1 (Hseq q tq Hq)) in Hone.
    specialize (Hone Hop Hoq Hk (Hres tp p Hp Htp)).
    rewrite (Hres tq q Hq Htq) in Hone. discriminate. }
  destruct (Nat.lt_trichotomy n m) as [Hlt | [-> | Hgt]].
  - by eapply (Hdup n m i j oi oj).
  - congruence.
  - by eapply (Hdup m n j i oj oi).
Qed.

(** C7 (Repository.SaveTransaction, Repository.SaveAdjustment).  In any
    history of commits, once a commit with a given idempotency key has
    succeeded, every later commit with that key fails with
    DuplicateIdempotencyKey, so at most one commit per key succeeds.
    The same holds for goroutines committing concurrently under the
    repository's mutex: two goroutines are never both between Lock and
    Unlock; a goroutine that had not yet taken the lock when a goroutine
    with the same key returned success ends with
    DuplicateIdempotencyKey under every schedule; and of two goroutines
    with the same key at most one returns success. *)
Theorem one_winner_per_idempotency_key :
  (forall (r : Repository.t) (cs : list commit) (n m : nat) (cn cm : commit),
     (n < m)%nat ->
     cs !! n = Some cn -> cs !! m = Some cm ->
     commit_key cn = commit_key cm ->
     (commits r cs).2 !! n = Some None ->
     (commits r cs).2 !! m = Some (Some (Plain ErrDuplicateIdempotencyKey))) /\
  (forall (r0 : Repository.t) (ops : list commit) (c : Concurrent.config),
     Concurrent.reachable r0 ops c ->
     (forall i j pi pj,
        Concurrent.points c !! i = Some pi -> Concurrent.points c !! j = Some pj ->
        ~ Concurrent.idle pi -> ~ Concurrent.idle pj -> i = j) /\
     (forall i j oi oj c',
        rtc (Concurrent.step ops) c c' ->
        ops !! i = Some oi -> ops !! j = Some oj ->
        commit_key oi = commit_key oj ->
        Concurrent.returned c i None ->
        Concurrent.points c !! j = Some Concurrent.AtLock ->
        forall res, Concurrent.returned c' j res ->
                    res = Some (Plain ErrDuplicateIdempotencyKey)) /\
     (forall i j oi oj,
        i <> j ->
        ops !! i = Some oi -> ops !! j = Some oj ->
        commit_key oi = commit_key oj ->
        Concurrent.returned c i None ->
        ~ Concurrent.returned c j None)).
Proof.
  split; [intros r cs; apply commits_one_winner |].
  intros r0 ops c Hreach. split; [| split].
  - intros i j pi pj. by apply (critical_section_exclusive r0 ops c).
  - intros i j oi oj c' Hrun. by apply (later_attempt_duplicate r0 ops c c').
  - intros i j oi oj. by apply (concurrent_one_winner r0 ops c).
Qed.

Lemma one_winner_per_idempotency_key_witness :
  (commits Repository.NewRepository
     [CommitTransaction (MemoryFixtures.makePurchase "tx1" "idem1" 1000);
      CommitAdjustment (MemoryFixtures.makeAdjustment "adj1" "tx1" "idem1" 500)]).2
    !! 1%nat
  = Some (Some (Plain ErrDuplicateIdempotencyKey)).
Proof.
  refine (proj1 one_winner_per_idempotency_key Repository.NewRepository
            [CommitTransaction (MemoryFixtures.makePurchase "tx1" "idem1" 1000);
             CommitAdjustment (MemoryFixtures.makeAdjustment "adj1" "tx1" "idem1" 500)]
            0%nat 1%nat _ _ _ _ _ _ _).
  - lia.
  - reflexivity.
  - reflexivity.
  - reflexivity.
  - vm_compute. reflexivity.
Defined.

(** ** Schedules *)

Lemma fire_step (ops : list commit) (i : nat) (c c' : Concurrent.config) :
  Concurrent.fire ops i c = Some c' -> Concurrent.step ops c c'.
Proof.
  unfold Concurrent.fire.
  destruct (Concurrent.points c !! i) as [pt |] eqn:Hpt; [| done].
  assert (Hins : (o ← ops !! i;
                  '(pt', r') ← Concurrent.inside o pt (Concurrent.ledger c);
                  Some (Concurrent.mk r' (Concurrent.holder c)
                          (<[i := pt']> (Concurrent.points c)))) = Some c' ->
                 Concurrent.step ops c c').
  { destruct (ops !! i) as [o |] eqn:Ho; [| done]. simpl.
    destruct (Concurrent.inside o pt (Concurrent.ledger c)) as [[pt' r'] |] eqn:Hi;
      [| done].
    simpl. intros [= <-]. by eapply Concurrent.step_inside. }
  destruct pt; try exact Hins.
  - destruct (Concurrent.holder c) eqn:Hh; [done |]. intros [= <-].
    by apply Concurrent.step_lock.
  - intros [= <-]. by apply Concurrent.step_unlock.
Qed.

Lemma schedule_steps (ops : list commit) (turns : list nat)
    (c c' : Concurrent.config) :
  Concurrent.schedule ops turns c = Some c' -> rtc (Concurrent.step ops) c c'.
Proof.
  revert c. induction turns as [| i turns IH]; intros c; simpl.
  - intros [= <-]. apply rtc_refl.
  - destruct (Concurrent.fire ops i c) as [c1 |] eqn:Hfire; [| done]. simpl.
    intros Hrest. eapply rtc_l; [by apply (fire_step ops i) | by apply IH].
Qed.

(** Two goroutines deliver the same purchase.  The first takes the
    lock; the second cannot take it meanwhile; once the first has
    returned success the second runs and returns
    DuplicateIdempotencyKey. *)
Example same_purchase_twice_concurrently :
  let p := MemoryFixtures.makePurchase "tx1" "idem1" 1000 in
  let ops := [CommitTransaction p; CommitTransaction p] in
  let c0 := Concurrent.start Repository.NewRepository ops in
  Concurrent.schedule ops [0; 1]%nat c0 = None /\
  exists c, Concurrent.schedule ops [0; 0; 0; 0; 0; 0; 1; 1; 1]%nat c0 = Some c /\
            Concurrent.reachable Repository.NewRepository ops c /\
            Concurrent.points c
            = [Concurrent.Returned None;
               Concurrent.Returned (Some (Plain ErrDuplicateIdempotencyKey))] /\
            Repository.ListTransactions (Concurrent.ledger c) = Ok [p].
Proof.
  intros p ops c0. split; [vm_compute; reflexivity |].
  destruct (Concurrent.schedule ops [0; 0; 0; 0; 0; 0; 1; 1; 1]%nat c0)
    as [c |] eqn:Hc; [| vm_compute in Hc; discriminate].
  exists c. split; [done |].
  split; [by eapply schedule_steps |].
  vm_compute in Hc. injection Hc as <-. split; vm_compute; reflexivity.
Qed.

(** ** The orchestrator *)

Lemma GetByIdempotencyKey_found (r : Repository.t) (key : string) :
  is_Some (Repository.idempotencyKeys r !! key) ->
  (Repository.GetByIdempotencyKey r key).2 = true.
Proof. intros [id Hid]. unfold Repository.GetByIdempotencyKey. by rewrite Hid. Qed.

Lemma GetByIdempotencyKey_missing (r : Repository.t) (key : string) :
  Repository.idempotencyKeys r !! key = None ->
  (Repository.GetByIdempotencyKey r key).2 = false.
Proof. intros Hk. unfold Repository.GetByIdempotencyKey. by rewrite Hk. Qed.

Lemma ProcessTransaction_purchase (r : Repository.t) (cmd : Command.t) :
  Command.TransactionType_ cmd = TypePurchase ->
  Service.ProcessTransaction r cmd = Service.processPurchase r cmd.
Proof.
  intros Ht. unfold Service.ProcessTransaction. by rewrite bool_decide_eq_true_2.
Qed.

Lemma ProcessTransaction_adjustment (r : Repository.t) (cmd : Command.t) :
  Command.TransactionType_ cmd = TypeReversalPurchase
  \/ Command.TransactionType_ cmd = TypeRefund ->
  Service.ProcessTransaction r cmd = Service.processAdjustment r cmd.
Proof.
  intros Ht. unfold Service.ProcessTransaction.
  rewrite bool_decide_eq_false_2 by (destruct Ht as [-> | ->]; done).
  destruct Ht as [Ht | Ht]; rewrite Ht; done.
Qed.

(** C10 (Service.ProcessTransaction).  A command whose declared type is
    none of PURCHASE, REVERSAL_PURCHASE and REFUND is answered
    InvalidTransactionType, wrapped with the declared type; the answer is
    the same for every ledger and every other field of the command, and
    the ledger is returned as it was. *)
Theorem ProcessTransaction_invalid_type (r : Repository.t) (cmd : Command.t) :
  Command.TransactionType_ cmd <> TypePurchase ->
  Command.TransactionType_ cmd <> TypeReversalPurchase ->
  Command.TransactionType_ cmd <> TypeRefund ->
  Service.ProcessTransaction r cmd
  = (r, (Result.zero,
         Some (Wrapf ErrInvalidTransactionType (Command.TransactionType_ cmd)))) /\
  errors_Is (Wrapf ErrInvalidTransactionType (Command.TransactionType_ cmd))
    ErrInvalidTransactionType = true.
Proof.
  intros Hp Hr Hf. split; [| done]. unfold Service.ProcessTransaction.
  by rewrite !bool_decide_eq_false_2 by done.
Qed.

Lemma ProcessTransaction_invalid_type_witness :
  let cmd := Command.mk "tx1" "UNKNOWN" "APPROVED" ""
               1000 "BRL" 1000 "BRL" 1000 "BRL" 1000 "BRL"
               "m1" "" "" "Store" "" "" "evt-tx1" 0 "idem1"
               "u1" "card1" "BR" "BRL" "POS" in
  Service.ProcessTransaction Repository.NewRepository cmd
  = (Repository.NewRepository,
     (Result.zero, Some (Wrapf ErrInvalidTransactionType "UNKNOWN"))).
Proof.
  intros cmd.
  refine (proj1 (ProcessTransaction_invalid_type Repository.NewRepository cmd _ _ _));
    vm_compute; congruence.
Defined.

Lemma processPurchase_replay (r : Repository.t) (cmd : Command.t) :
  is_Some (Repository.idempotencyKeys r !! Command.IdempotencyKey cmd) ->
  Service.processPurchase r cmd
  = (r, (Result.mk (Command.TransactionID cmd) true,
         Some (Plain ErrDuplicateIdempotencyKey))).
Proof.
  intros Hk. unfold Service.processPurchase.
  by rewrite GetByIdempotencyKey_found.
Qed.

Lemma processAdjustment_missing_reference (r : Repository.t) (cmd : Command.t) :
  Command.OriginalTransactionID cmd = "" ->
  Service.processAdjustment r cmd
  = (r, (Result.zero, Some (Plain ErrOriginalTransactionRequired))).
Proof.
  intros Ho. unfold Service.processAdjustment. by rewrite bool_decide_eq_true_2.
Qed.

Lemma processAdjustment_replay (r : Repository.t) (cmd : Command.t) :
  Command.OriginalTransactionID cmd <> "" ->
  is_Some (Repository.idempotencyKeys r !! Command.IdempotencyKey cmd) ->
  Service.processAdjustment r cmd
  = (r, (Result.mk (Command.TransactionID cmd) true,
         Some (Plain ErrDuplicateIdempotencyKey))).
Proof.
  intros Ho Hk. unfold Service.processAdjustment.
  rewrite bool_decide_eq_false_2 by done.
  by rewrite GetByIdempotencyKey_found.
Qed.

Lemma processAdjustment_not_found (r : Repository.t) (cmd : Command.t) :
  Command.OriginalTransactionID cmd <> "" ->
  Repository.idempotencyKeys r !! Command.IdempotencyKey cmd = None ->
  Repository.transactions r !! Command.OriginalTransactionID cmd = None ->
  Service.processAdjustment r cmd
  = (r, (Result.zero, Some (Plain ErrTransactionNotFound))).
Proof.
  intros Ho Hk Hp. unfold Service.processAdjustment.
  rewrite bool_decide_eq_false_2 by done.
  rewrite GetByIdempotencyKey_missing by done.
  unfold Service.prepareAdjustment, Repository.GetTransactionByID.
  by rewrite Hp.
Qed.

(** C8, the input that refutes the claim as stated.  The ledger holds
    the purchase tx1 committed under the key idem1.  A REFUND that
    references the absent purchase tx-missing and carries the key idem1
    is not answered TransactionNotFound: the advisory idempotency check
    runs before the lookup and answers an idempotent replay. *)
Lemma adjustment_replay_masks_not_found :
  let r := run Repository.NewRepository
             [makePurchaseCmd "tx1" "APPROVED" "idem1" 1000] in
  let cmd := makeAdjustCmd "adj1" "REFUND" "APPROVED" "tx-missing" "idem1" 500 in
  Command.OriginalTransactionID cmd <> "" /\
  Repository.transactions r !! Command.OriginalTransactionID cmd = None /\
  Service.ProcessTransaction r cmd
  = (r, (Result.mk "adj1" true, Some (Plain ErrDuplicateIdempotencyKey))).
Proof. repeat split; vm_compute; congruence. Qed.

(** C8, amended (Service.processAdjustment).  A REVERSAL_PURCHASE or
    REFUND event with an empty originalTransactionId fails with
    OriginalTransactionRequired, whatever the ledger holds.  One with a
    non-empty reference to a purchase absent from the ledger fails with
    TransactionNotFound when its idempotency key is not yet recorded;
    when the key is recorded, the advisory idempotency check, which runs
    before the lookup, answers the idempotent replay
    (DuplicateIdempotencyKey with Idempotent = true).  In all three
    cases the ledger is unchanged. *)
Theorem adjustment_reference_checks (r : Repository.t) (cmd : Command.t) :
  Command.TransactionType_ cmd = TypeReversalPurchase
  \/ Command.TransactionType_ cmd = TypeRefund ->
  (Command.OriginalTransactionID cmd = "" ->
     Service.ProcessTransaction r cmd
     = (r, (Result.zero, Some (Plain ErrOriginalTransactionRequired)))) /\
  (Command.OriginalTransactionID cmd <> "" ->
     Repository.idempotencyKeys r !! Command.IdempotencyKey cmd = None ->
     Repository.transactions r !! Command.OriginalTransactionID cmd = None ->
     Service.ProcessTransaction r cmd
     = (r, (Result.zero, Some (Plain ErrTransactionNotFound)))) /\
  (Command.OriginalTransactionID cmd <> "" ->
     is_Some (Repository.idempotencyKeys r !! Command.IdempotencyKey cmd) ->
     Service.ProcessTransaction r cmd
     = (r, (Result.mk (Command.TransactionID cmd) true,
            Some (Plain ErrDuplicateIdempotencyKey)))).
Proof.
  intros Ht. rewrite ProcessTransaction_adjustment by done.
  split; [apply processAdjustment_missing_reference |].
  split; [apply processAdjustment_not_found | apply processAdjustment_replay].
Qed.

Lemma adjustment_reference_checks_witness :
  let cmd := makeAdjustCmd "adj1" "REFUND" "APPROVED" "tx1" "idem-adj1" 500 in
  Service.ProcessTransaction Repository.NewRepository cmd
  = (Repository.NewRepository, (Result.zero, Some (Plain ErrTransactionNotFound))).
Proof.
  intros cmd.
  refine (proj1 (proj2 (adjustment_reference_checks Repository.NewRepository cmd _))
            _ _ _).
  - right. reflexivity.
  - vm_compute. congruence.
  - reflexivity.
  - reflexivity.
Defined.

(** *** What the constructors of the service accept *)

Lemma bind_Ok_inv {A B : Type} (r : result A) (k : A -> result B) (b : B) :
  r ≫= k = Ok b -> exists a, r = Ok a /\ k a = Ok b.
Proof. destruct r as [a | e]; [| discriminate]. intros H. by exists a. Qed.

Lemma buildPurchase_inv (cmd : Command.t) (tx : Transaction.t) :
  Service.buildPurchase cmd = Ok tx ->
  0 <= Command.LocalAmount cmd /\
  Command.TransactionID cmd <> "" /\
  MinPurchaseAmount <= Command.LocalAmount cmd <= MaxPurchaseAmount /\
  tx = Transaction.mk (Command.TransactionID cmd) TypePurchase
         (Command.TransactionStatus_ cmd)
         (AmountBreakdown.mk
            (Money.mk (Command.LocalAmount cmd) (Command.LocalCurrency cmd))
            (Money.mk (Command.TxAmount cmd) (Command.TxCurrency cmd))
            (Money.mk (Command.SettlementAmount cmd) (Command.SettlementCurrency cmd))
            (Money.mk (Command.OriginalAmount cmd) (Command.OriginalCurrency cmd)))
         (Service.merchantOf cmd) (Service.eventOf cmd) ""
         (Command.UserID cmd) (Command.CardID cmd) (Command.Country cmd)
         (Command.Currency cmd) (Command.PointOfSale cmd).
Proof.
  unfold Service.buildPurchase. intros H.
  apply bind_Ok_inv in H as (m1 & H1 & H). apply NewMoney_inv in H1 as [? ->].
  apply bind_Ok_inv in H as (m2 & H2 & H). apply NewMoney_inv in H2 as [? ->].
  apply bind_Ok_inv in H as (m3 & H3 & H). apply NewMoney_inv in H3 as [? ->].
  apply bind_Ok_inv in H as (m4 & H4 & H). apply NewMoney_inv in H4 as [? ->].
  apply NewPurchase_inv in H as (Hid & _ & _ & Hr & ->). done.
Qed.

Lemma buildPurchase_ok (cmd : Command.t) :
  Command.TransactionID cmd <> "" ->
  Command.EventID cmd <> "" ->
  Command.IdempotencyKey cmd <> "" ->
  0 <= Command.TxAmount cmd ->
  0 <= Command.SettlementAmount cmd ->
  0 <= Command.OriginalAmount cmd ->
  MinPurchaseAmount <= Command.LocalAmount cmd <= MaxPurchaseAmount ->
  exists tx,
    Service.buildPurchase cmd = Ok tx /\
    Transaction.ID tx = Command.TransactionID cmd /\
    Event.IdempotencyKey (Transaction.Event tx) = Command.IdempotencyKey cmd.
Proof.
  intros Hid He Hk H2 H3 H4 Hr. unfold Service.buildPurchase.
  rewrite !NewMoney_ok by (unfold MinPurchaseAmount in Hr; lia). simpl.
  rewrite NewPurchase_ok by done. by eexists.
Qed.

Lemma NewAdjustment_inv id txType status amount merchant event orig u c co cu pos adj :
  NewAdjustment id txType status amount merchant event orig u c co cu pos = Ok adj ->
  adj = Adjustment.mk id txType status amount merchant event orig u c co cu pos.
Proof.
  unfold NewAdjustment.
  destruct (_ && _); [discriminate |].
  case_bool_decide; [discriminate |].
  case_bool_decide; [discriminate |].
  destruct (_ || _); [discriminate |].
  by intros [= <-].
Qed.

Lemma buildAdjustment_inv (cmd : Command.t) (adj : Adjustment.t) :
  Service.buildAdjustment cmd = Ok adj ->
  0 <= Command.LocalAmount cmd /\
  Adjustment.Status adj = Command.TransactionStatus_ cmd /\
  Adjustment.OriginalTransactionID adj = Command.OriginalTransactionID cmd /\
  AmountBreakdown.Local (Adjustment.Amount adj)
  = Money.mk (Command.LocalAmount cmd) (Command.LocalCurrency cmd).
Proof.
  unfold Service.buildAdjustment. intros H.
  apply bind_Ok_inv in H as (m1 & H1 & H). apply NewMoney_inv in H1 as [? ->].
  apply bind_Ok_inv in H as (m2 & H2 & H). apply NewMoney_inv in H2 as [? ->].
  apply bind_Ok_inv in H as (m3 & H3 & H). apply NewMoney_inv in H3 as [? ->].
  apply bind_Ok_inv in H as (m4 & H4 & H). apply NewMoney_inv in H4 as [? ->].
  apply NewAdjustment_inv in H as ->. done.
Qed.

Lemma prepareAdjustment_inv (r : Repository.t) (cmd : Command.t) (adj : Adjustment.t) :
  Service.prepareAdjustment r cmd = Ok adj ->
  exists original existingTotal,
    Repository.transactions r !! Command.OriginalTransactionID cmd = Some original /\
    Service.buildAdjustment cmd = Ok adj /\
    Service.sumExistingAdjustments
      (Repository.adjustmentsOf r (Command.OriginalTransactionID cmd))
      (Command.LocalCurrency cmd) = Ok existingTotal /\
    Adjustment.ValidateAgainstPurchase adj original existingTotal = None.
Proof.
  unfold Service.prepareAdjustment. intros H.
  apply bind_Ok_inv in H as (original & Ho & H).
  apply bind_Ok_inv in H as (adj' & Ha & H).
  apply bind_Ok_inv in H as (existing & Hx & H).
  apply bind_Ok_inv in H as (total & Ht & H).
  unfold Repository.GetTransactionByID in Ho.
  destruct (Repository.transactions r !! _) as [p |] eqn:Hp; [| discriminate].
  injection Ho as ->.
  unfold Repository.GetAdjustmentsByTransactionID in Hx. injection Hx as <-.
  destruct (Adjustment.ValidateAgainstPurchase adj' original total) eqn:Hv;
    [discriminate |].
  injection H as <-. by exists original, total.
Qed.

(** What one event does to the ledger: nothing, or one successful save
    of the purchase or adjustment built from the command. *)
Lemma ProcessTransaction_effect (r : Repository.t) (cmd : Command.t) :
  (Service.ProcessTransaction r cmd).1 = r \/
  (exists tx,
     Service.buildPurchase cmd = Ok tx /\
     Repository.SaveTransaction r tx = ((Service.ProcessTransaction r cmd).1, None)) \/
  (exists adj,
     Command.OriginalTransactionID cmd <> "" /\
     Service.prepareAdjustment r cmd = Ok adj /\
     Repository.SaveAdjustment r adj = ((Service.ProcessTransaction r cmd).1, None)).
Proof.
  unfold Service.ProcessTransaction.
  case_bool_decide as Hp.
  - unfold Service.processPurchase.
    destruct (Repository.GetByIdempotencyKey r _).2; [by left |].
    destruct (Service.buildPurchase cmd) as [tx | e]; [| by left].
    destruct (Repository.SaveTransaction r tx) as [r' [e |]] eqn:Hs.
    + left. pose proof (SaveTransaction_error_unchanged r tx e) as Hu.
      rewrite Hs in Hu. simpl in Hu. specialize (Hu eq_refl). subst r'.
      by destruct (errors_Is e ErrDuplicateIdempotencyKey).
    + right. left. exists tx. done.
  - destruct (_ || _); [| by left].
    unfold Service.processAdjustment.
    case_bool_decide as Ho; [by left |].
    destruct (Repository.GetByIdempotencyKey r _).2; [by left |].
    destruct (Service.prepareAdjustment r cmd) as [adj | e] eqn:Ha; [| by left].
    destruct (Repository.SaveAdjustment r adj) as [r' [e |]] eqn:Hs.
    + left. unfold Repository.SaveAdjustment in Hs.
      destruct (Repository.idempotencyKeys r !! _); [| discriminate].
      injection Hs as <- <-. done.
    + right. right. exists adj. done.
Qed.

Lemma SaveTransaction_success_inv (r r' : Repository.t) (tx : Transaction.t) :
  Repository.SaveTransaction r tx = (r', None) ->
  Repository.idempotencyKeys r
    !! Event.IdempotencyKey (Transaction.Event tx) = None /\
  Repository.transactions r !! Transaction.ID tx = None /\
  r' = Repository.mk
         (<[Transaction.ID tx := tx]> (Repository.transactions r))
         (Repository.adjustments r)
         (<[Event.IdempotencyKey (Transaction.Event tx) := Transaction.ID tx]>
            (Repository.idempotencyKeys r)).
Proof.
  unfold Repository.SaveTransaction.
  destruct (Repository.idempotencyKeys r !! _); [discriminate |].
  destruct (Repository.transactions r !! _); [discriminate |].
  by intros [= <-].
Qed.

Lemma SaveAdjustment_success_inv (r r' : Repository.t) (adj : Adjustment.t) :
  Repository.SaveAdjustment r adj = (r', None) ->
  r' = Repository.mk
         (Repository.transactions r)
         (<[Adjustment.OriginalTransactionID adj :=
              Repository.adjustmentsOf r (Adjustment.OriginalTransactionID adj)
              ++ [adj]]> (Repository.adjustments r))
         (<[Event.IdempotencyKey (Adjustment.Event adj) := Adjustment.ID adj]>
            (Repository.idempotencyKeys r)).
Proof.
  unfold Repository.SaveAdjustment.
  destruct (Repository.idempotencyKeys r !! _); [discriminate |].
  by intros [= <-].
Qed.

(** *** Reachable ledgers *)

Lemma run_snoc (r : Repository.t) (cmds : list Command.t) (cmd : Command.t) :
  run r (cmds ++ [cmd]) = (Service.ProcessTransaction (run r cmds) cmd).1.
Proof. unfold run. by rewrite foldl_app. Qed.

Lemma reachable_induction (P : Repository.t -> Prop) :
  P Repository.NewRepository ->
  (forall r cmd, reachable r -> P r -> P (Service.ProcessTransaction r cmd).1) ->
  forall r, reachable r -> P r.
Proof.
  intros Hnew Hstep r [cmds ->].
  induction cmds as [| cmd cmds IH] using rev_ind; [done |].
  rewrite run_snoc. apply Hstep; [by exists cmds | done].
Qed.

(** Every purchase of a reachable ledger is filed under its own ID. *)
Lemma reachable_filed_by_id (r : Repository.t) :
  reachable r ->
  forall id tx, Repository.transactions r !! id = Some tx -> Transaction.ID tx = id.
Proof.
  intros Hr. induction Hr as [| r cmd _ IH] using reachable_induction; [done |].
  destruct (ProcessTransaction_effect r cmd)
    as [-> | [(tx & _ & Hs) | (adj & _ & _ & Hs)]]; [done | |].
  - apply SaveTransaction_success_inv in Hs as (_ & _ & ->). simpl.
    intros id tx' Hl. destruct (decide (Transaction.ID tx = id)) as [<- | Hne].
    + rewrite lookup_insert_eq in Hl. by injection Hl as <-.
    + rewrite lookup_insert_ne in Hl by done. by apply IH.
  - apply SaveAdjustment_success_inv in Hs as ->. done.
Qed.

(** *** Idempotent replay of a purchase *)

Lemma filter_none {A : Type} (P : A -> Prop) `{forall x, Decision (P x)}
    (l : list A) :
  (forall x, x ∈ l -> ~ P x) -> filter P l = [].
Proof.
  induction l as [| x l IH]; intros Hall; [done |].
  rewrite filter_cons_False by (apply Hall; left).
  apply IH. intros y Hy. apply Hall. by right.
Qed.

Lemma processPurchase_commit (r : Repository.t) (cmd : Command.t) (tx : Transaction.t) :
  Repository.idempotencyKeys r !! Command.IdempotencyKey cmd = None ->
  Service.buildPurchase cmd = Ok tx ->
  Repository.transactions r !! Transaction.ID tx = None ->
  Event.IdempotencyKey (Transaction.Event tx) = Command.IdempotencyKey cmd ->
  Service.processPurchase r cmd
  = (Repository.mk
       (<[Transaction.ID tx := tx]> (Repository.transactions r))
       (Repository.adjustments r)
       (<[Command.IdempotencyKey cmd := Transaction.ID tx]>
          (Repository.idempotencyKeys r)),
     (Result.mk (Transaction.ID tx) false, None)).
Proof.
  intros Hk Hb Hid Hkey. unfold Service.processPurchase.
  rewrite GetByIdempotencyKey_missing by done. rewrite Hb.
  rewrite SaveTransaction_fresh by (rewrite ?Hkey; done). by rewrite Hkey.
Qed.

(** C3 (Service.processPurchase).  A valid PURCHASE event whose
    idempotency key and transaction ID are new to the ledger is
    submitted twice.  The first submission succeeds with the
    transaction ID and Idempotent = false; the second returns the same
    transaction ID with Idempotent = true together with
    DuplicateIdempotencyKey, and leaves the ledger as the first left it;
    listTransactions then holds the purchases listed before plus the new
    one, and exactly one entry carries the submitted transaction ID. *)
Theorem purchase_submitted_twice (r : Repository.t) (cmd : Command.t) :
  reachable r ->
  Command.TransactionType_ cmd = TypePurchase ->
  Command.TransactionID cmd <> "" ->
  Command.EventID cmd <> "" ->
  Command.IdempotencyKey cmd <> "" ->
  0 <= Command.TxAmount cmd ->
  0 <= Command.SettlementAmount cmd ->
  0 <= Command.OriginalAmount cmd ->
  MinPurchaseAmount <= Command.LocalAmount cmd <= MaxPurchaseAmount ->
  Repository.idempotencyKeys r !! Command.IdempotencyKey cmd = None ->
  Repository.transactions r !! Command.TransactionID cmd = None ->
  let first := Service.ProcessTransaction r cmd in
  let second := Service.ProcessTransaction first.1 cmd in
  first.2 = (Result.mk (Command.TransactionID cmd) false, None) /\
  second.2 = (Result.mk (Command.TransactionID cmd) true,
              Some (Plain ErrDuplicateIdempotencyKey)) /\
  second.1 = first.1 /\
  exists before after tx,
    Service.ListTransactions r = Ok before /\
    Service.ListTransactions second.1 = Ok after /\
    Transaction.ID tx = Command.TransactionID cmd /\
    after ≡ₚ tx :: before /\
    length (filter (fun t => Transaction.ID t = Command.TransactionID cmd) after)
    = 1%nat.
Proof.
  intros Hreach Ht Hid He Hk H2 H3 H4 Hr Hfk Hfid first second.
  destruct (buildPurchase_ok cmd Hid He Hk H2 H3 H4 Hr) as (tx & Hb & Htid & Htk).
  assert (Hfirst : first
                   = (Repository.mk
                        (<[Transaction.ID tx := tx]> (Repository.transactions r))
                        (Repository.adjustments r)
                        (<[Command.IdempotencyKey cmd := Transaction.ID tx]>
                           (Repository.idempotencyKeys r)),
                      (Result.mk (Transaction.ID tx) false, None))).
  { unfold first. rewrite ProcessTransaction_purchase by done.
    apply processPurchase_commit; [done | done | by rewrite Htid | done]. }
  assert (Hsecond : second
                    = (first.1, (Result.mk (Command.TransactionID cmd) true,
                                 Some (Plain ErrDuplicateIdempotencyKey)))).
  { unfold second. rewrite ProcessTransaction_purchase by done.
    apply processPurchase_replay. rewrite Hfirst. simpl.
    rewrite lookup_insert_eq. by eexists. }
  split; [by rewrite Hfirst, Htid |].
  split; [by rewrite Hsecond |].
  split; [by rewrite Hsecond |].
  exists (map_to_list (Repository.transactions r)).*2,
         (map_to_list (<[Transaction.ID tx := tx]> (Repository.transactions r))).*2,
         tx.
  split; [done |].
  split; [by rewrite Hsecond, Hfirst |].
  split; [done |].
  assert (Hperm : (map_to_list
                     (<[Transaction.ID tx := tx]> (Repository.transactions r))).*2
                  ≡ₚ tx :: (map_to_list (Repository.transactions r)).*2).
  { rewrite map_to_list_insert by (by rewrite Htid). done. }
  split; [done |].
  rewrite Hperm. rewrite filter_cons_True by done. simpl. f_equal.
  rewrite filter_none; [done |].
  intros t Hel Hsame. apply list_elem_of_fmap in Hel as ([k t'] & -> & Hel).
  apply elem_of_map_to_list in Hel. simpl in Hsame.
  rewrite (reachable_filed_by_id r Hreach k t' Hel) in Hsame. congruence.
Qed.

Lemma purchase_submitted_twice_witness :
  let cmd := makePurchaseCmd "tx1" "APPROVED" "idem1" 1000 in
  let first := Service.ProcessTransaction Repository.NewRepository cmd in
  let second := Service.ProcessTransaction first.1 cmd in
  first.2 = (Result.mk "tx1" false, None) /\
  second.2 = (Result.mk "tx1" true, Some (Plain ErrDuplicateIdempotencyKey)).
Proof.
  intros cmd first second.
  assert (H : reachable Repository.NewRepository) by (by exists []).
  pose proof (purchase_submitted_twice Repository.NewRepository cmd H) as Hthm.
  refine ((fun p => conj (proj1 p) (proj1 (proj2 p))) (Hthm _ _ _ _ _ _ _ _ _ _)).
  - reflexivity.
  - vm_compute. congruence.
  - vm_compute. congruence.
  - vm_compute. congruence.
  - vm_compute. congruence.
  - vm_compute. congruence.
  - vm_compute. congruence.
  - vm_compute. split; congruence.
  - reflexivity.
  - reflexivity.
Defined.

(** *** The refund budget *)

Lemma approvedTotal_app (l1 l2 : list Adjustment.t) :
  approvedTotal (l1 ++ l2) = approvedTotal l1 + approvedTotal l2.
Proof.
  induction l1 as [| adj l1 IH]; simpl; [done |].
  case_bool_decide; lia.
Qed.

Lemma approvedTotal_nonneg (l : list Adjustment.t) :
  Forall (fun adj =>
            0 <= Money.Amount (AmountBreakdown.Local (Adjustment.Amount adj))) l ->
  0 <= approvedTotal l.
Proof.
  induction 1 as [| adj l Ha _ IH]; simpl; [done |].
  case_bool_decide; lia.
Qed.

(** While no addition overflows, the loop of [sumExistingAdjustments]
    computes the exact approved total. *)
Lemma sumFrom_exact (l : list Adjustment.t) (total m : Money.t) :
  Service.sumFrom total l = Ok m ->
  0 <= Money.Amount total ->
  Forall (fun adj =>
            0 <= Money.Amount (AmountBreakdown.Local (Adjustment.Amount adj))) l ->
  Money.Amount total + approvedTotal l <= int64_max ->
  Money.Amount m = Money.Amount total + approvedTotal l /\
  Money.Currency m = Money.Currency total.
Proof.
  revert total. induction l as [| adj l IH]; intros total Hsum Hpos Hall Hmax;
    simpl in *.
  - injection Hsum as <-. split; [lia | done].
  - apply Forall_cons in Hall as [Ha Hall].
    pose proof (approvedTotal_nonneg l Hall) as Hrest.
    case_bool_decide as Hst.
    + rewrite bool_decide_eq_false_2 in Hsum by auto.
      apply bind_Ok_inv in Hsum as (total' & Hadd & Hsum).
      unfold Money.Add in Hadd. case_bool_decide; [discriminate |].
      injection Hadd as <-.
      rewrite wrap64_in_range in Hsum
        by (unfold in_int64, int64_min, int64_max in *; lia).
      apply IH in Hsum as [Hm Hc]; simpl in *; [| lia | done | lia].
      split; [lia | done].
    + rewrite bool_decide_eq_true_2 in Hsum by done.
      by apply IH in Hsum.
Qed.

Lemma ValidateAgainstPurchase_accepts_inv
    (a : Adjustment.t) (original : Transaction.t) (existing : Money.t) :
  Adjustment.ValidateAgainstPurchase a original existing = None ->
  Adjustment.Status a = StatusApproved ->
  Money.Currency existing
  = Money.Currency (AmountBreakdown.Local (Adjustment.Amount a)) ->
  in_int64 (Money.Amount existing
            + Money.Amount (AmountBreakdown.Local (Adjustment.Amount a))) ->
  Money.Amount existing + Money.Amount (AmountBreakdown.Local (Adjustment.Amount a))
  <= Money.Amount (AmountBreakdown.Local (Transaction.Amount original)).
Proof.
  unfold Adjustment.ValidateAgainstPurchase. intros Hv Hs Hc Hr.
  destruct (Transaction.CanReceiveAdjustment original); [| discriminate].
  simpl in Hv. rewrite bool_decide_eq_false_2 in Hv by auto.
  rewrite Add_exact in Hv by done.
  unfold Money.GreaterThan in Hv. simpl in Hv.
  case_bool_decide; [discriminate |].
  destruct (Z.gtb_spec
              (Money.Amount existing
               + Money.Amount (AmountBreakdown.Local (Adjustment.Amount a)))
              (Money.Amount (AmountBreakdown.Local (Transaction.Amount original))));
    [discriminate | lia].
Qed.

Lemma budget_invariant_step (r : Repository.t) (cmd : Command.t) :
  amount_bounded cmd ->
  adjustments_covered r /\ purchases_in_range r ->
  adjustments_covered (Service.ProcessTransaction r cmd).1 /\
  purchases_in_range (Service.ProcessTransaction r cmd).1.
Proof.
  intros Hb [Hcov Hrange].
  destruct (ProcessTransaction_effect r cmd)
    as [-> | [(tx & Hbuild & Hs) | (adj & _ & Hadm & Hs)]]; [done | |].
  - apply SaveTransaction_success_inv in Hs as (_ & Hfresh & ->).
    apply buildPurchase_inv in Hbuild as (_ & _ & Hr & Htx).
    split.
    + intros id adjs Hl. simpl in Hl. destruct (Hcov id adjs Hl) as (p & Hp & Hrest).
      exists p. split; [| done]. simpl.
      rewrite lookup_insert_ne; [done |]. intros <-. congruence.
    + intros id p. simpl. destruct (decide (Transaction.ID tx = id)) as [<- | Hne].
      * rewrite lookup_insert_eq. intros [= <-]. by rewrite Htx.
      * rewrite lookup_insert_ne by done. apply Hrange.
  - apply SaveAdjustment_success_inv in Hs as ->.
    split; [| exact Hrange].
    apply prepareAdjustment_inv in Hadm as (orig & total & Horig & Hbuild & Hsum & Hval).
    apply buildAdjustment_inv in Hbuild as (Hpos & Hst & Hoid & Hloc).
    rewrite Hoid.
    set (l := Repository.adjustmentsOf r (Command.OriginalTransactionID cmd)) in *.
    assert (Hl : Forall (fun adj =>
                    0 <= Money.Amount (AmountBreakdown.Local (Adjustment.Amount adj))) l
                 /\ approvedTotal l
                    <= Money.Amount (AmountBreakdown.Local (Transaction.Amount orig))).
    { unfold l, Repository.adjustmentsOf.
      destruct (Repository.adjustments r !! Command.OriginalTransactionID cmd)
        as [adjs |] eqn:Hadjs; simpl.
      - destruct (Hcov _ _ Hadjs) as (p & Hp & Hall & Hle).
        assert (p = orig) as -> by congruence. done.
      - split; [constructor |]. pose proof (Hrange _ _ Horig) as Hr.
        unfold MinPurchaseAmount in Hr. lia. }
    destruct Hl as [Hall Hle].
    intros id adjs. simpl.
    destruct (decide (Command.OriginalTransactionID cmd = id)) as [<- | Hne].
    2:{ rewrite lookup_insert_ne by done. apply Hcov. }
    rewrite lookup_insert_eq. intros [= <-].
    exists orig. split; [done |].
    split; [apply Forall_app; split; [done |]; constructor; [| constructor];
            by rewrite Hloc |].
    rewrite approvedTotal_app. simpl.
    case_bool_decide as Happ; [| lia].
    unfold Service.sumExistingAdjustments in Hsum.
    rewrite NewMoney_ok in Hsum by done. simpl in Hsum.
    pose proof (Hrange _ _ Horig) as Hr.
    pose proof (approvedTotal_nonneg l Hall) as Hnn.
    unfold amount_bounded, int64_max, MaxPurchaseAmount in *.
    apply sumFrom_exact in Hsum as [Hamt Hcur]; simpl in *;
      [| done | done | unfold int64_max; lia].
    apply ValidateAgainstPurchase_accepts_inv in Hval; [| done | |].
    + rewrite Hloc in *. simpl in *. lia.
    + rewrite Hloc, Hcur. done.
    + rewrite Hloc. simpl. unfold in_int64, int64_min, int64_max. lia.
Qed.

(** The budget rule holds for every ledger built from events whose
    local amounts stay [MaxPurchaseAmount] below the 64-bit ceiling:
    without overflow the check of [ValidateAgainstPurchase] is exact. *)
Lemma budget_respected_without_overflow (cmds : list Command.t) :
  Forall amount_bounded cmds ->
  budget_respected (run Repository.NewRepository cmds).
Proof.
  intros Hall.
  assert (Hinv : adjustments_covered (run Repository.NewRepository cmds) /\
                 purchases_in_range (run Repository.NewRepository cmds)).
  { revert Hall. induction cmds as [| cmd cmds IH] using rev_ind; intros Hall.
    - split; intros id x Hx; done.
    - apply Forall_app in Hall as [Hall Hcmd]. apply Forall_inv in Hcmd.
      rewrite run_snoc. apply budget_invariant_step; [exact Hcmd | by apply IH]. }
  destruct Hinv as [Hcov Hrange].
  intros id p Hp. unfold Repository.adjustmentsOf.
  destruct (Repository.adjustments _ !! id) as [adjs |] eqn:Hadjs; simpl.
  - destruct (Hcov _ _ Hadjs) as (p' & Hp' & _ & Hle).
    assert (p' = p) as -> by congruence. done.
  - pose proof (Hrange _ _ Hp) as Hr. unfold MinPurchaseAmount in Hr. lia.
Qed.

(** The budget scenario of the specification: against a purchase of
    10000, a first approved refund of 6000 is committed, a second one
    fails with ExceedsOriginalAmount, and a rejected adjustment of a
    larger amount is committed all the same. *)
Example budget_scenario :
  let r1 := run Repository.NewRepository
              [makePurchaseCmd "tx1" "APPROVED" "idem1" 10000] in
  let refund1 := makeAdjustCmd "adj1" "REFUND" "APPROVED" "tx1" "idem-adj1" 6000 in
  let refund2 := makeAdjustCmd "adj2" "REFUND" "APPROVED" "tx1" "idem-adj2" 6000 in
  let rejected := makeAdjustCmd "adj3" "REFUND" "REJECTED" "tx1" "idem-adj3" 20000 in
  let r2 := (Service.ProcessTransaction r1 refund1).1 in
  (Service.ProcessTransaction r1 refund1).2 = (Result.mk "adj1" false, None) /\
  (Service.ProcessTransaction r2 refund2).2
  = (Result.zero, Some (Plain ErrExceedsOriginalAmount)) /\
  (Service.ProcessTransaction r2 rejected).2 = (Result.mk "adj3" false, None).
Proof. repeat split; vm_compute; reflexivity. Qed.

(** C1 (Service.processAdjustment, Adjustment.ValidateAgainstPurchase).
    The claim: in every ledger reachable through processEvent, the
    approved adjustments of a purchase never add up to more than the
    purchase's local amount.  This theorem runs the service on three
    well-formed events: a purchase of 100, an approved refund of 1, and
    an approved refund of 9223372036854775807 (the largest int64).  The
    running total 1 plus the new amount wraps to a negative number in
    [Money.Add], the comparison with 100 does not fire, and the refund
    is committed: the approved adjustments of the purchase then add up
    to 2^63, and the budget rule fails for the ledger reached. *)
Theorem budget_broken_by_overflow :
  let purchase := makePurchaseCmd "tx1" "APPROVED" "idem1" 100 in
  let small := makeAdjustCmd "adj1" "REFUND" "APPROVED" "tx1" "idem-adj1" 1 in
  let huge := makeAdjustCmd "adj2" "REFUND" "APPROVED" "tx1" "idem-adj2"
                9223372036854775807 in
  let r2 := run Repository.NewRepository [purchase; small] in
  let r3 := run Repository.NewRepository [purchase; small; huge] in
  Forall Command.well_formed [purchase; small; huge] /\
  reachable r3 /\
  (Service.ProcessTransaction r2 huge).2 = (Result.mk "adj2" false, None) /\
  (exists p, Repository.transactions r3 !! "tx1" = Some p /\
             Money.Amount (AmountBreakdown.Local (Transaction.Amount p)) = 100) /\
  approvedTotal (Repository.adjustmentsOf r3 "tx1") = 9223372036854775808 /\
  ~ budget_respected r3.
Proof.
  intros purchase small huge r2 r3.
  split.
  { repeat constructor; vm_compute; congruence. }
  split; [by eexists |].
  split; [vm_compute; reflexivity |].
  assert (Hp : exists p, Repository.transactions r3 !! "tx1" = Some p /\
                         Money.Amount (AmountBreakdown.Local (Transaction.Amount p))
                         = 100).
  { eexists. split; vm_compute; reflexivity. }
  split; [exact Hp |].
  assert (Hsum : approvedTotal (Repository.adjustmentsOf r3 "tx1")
                 = 9223372036854775808) by (vm_compute; reflexivity).
  split; [exact Hsum |].
  intros Hbudget. destruct Hp as (p & Hp & Hamt).
  specialize (Hbudget "tx1" p Hp). rewrite Hsum, Hamt in Hbudget. lia.
Qed.

(** ** Further scenarios *)

(** The end-to-end scenario of the specification: purchase 30000, two
    refunds of 15000 that together reach the purchase amount exactly,
    then a refund of 1 that is refused. *)
Example refunds_up_to_the_purchase_amount :
  let r1 := run Repository.NewRepository
              [makePurchaseCmd "tx1" "APPROVED" "idem1" 30000] in
  let refund1 := makeAdjustCmd "adj1" "REFUND" "APPROVED" "tx1" "idem-adj1" 15000 in
  let refund2 := makeAdjustCmd "adj2" "REFUND" "APPROVED" "tx1" "idem-adj2" 15000 in
  let refund3 := makeAdjustCmd "adj3" "REFUND" "APPROVED" "tx1" "idem-adj3" 1 in
  let r2 := (Service.ProcessTransaction r1 refund1).1 in
  let r3 := (Service.ProcessTransaction r2 refund2).1 in
  (Service.ProcessTransaction r1 refund1).2 = (Result.mk "adj1" false, None) /\
  (Service.ProcessTransaction r2 refund2).2 = (Result.mk "adj2" false, None) /\
  (Service.ProcessTransaction r3 refund3).2
  = (Result.zero, Some (Plain ErrExceedsOriginalAmount)) /\
  approvedTotal (Repository.adjustmentsOf r3 "tx1") = 30000.
Proof. repeat split; vm_compute; reflexivity. Qed.

(** Out of order: a refund that arrives before its purchase is answered
    TransactionNotFound; once the purchase is committed the same refund,
    under a new key, is accepted. *)
Example refund_before_purchase :
  let refund := makeAdjustCmd "adj1" "REFUND" "APPROVED" "tx1" "idem-adj1" 500 in
  let retry := makeAdjustCmd "adj1" "REFUND" "APPROVED" "tx1" "idem-adj1-retry" 500 in
  let r1 := run Repository.NewRepository
              [refund; makePurchaseCmd "tx1" "APPROVED" "idem1" 1000] in
  (Service.ProcessTransaction Repository.NewRepository refund).2
  = (Result.zero, Some (Plain ErrTransactionNotFound)) /\
  (Service.ProcessTransaction r1 retry).2 = (Result.mk "adj1" false, None).
Proof. repeat split; vm_compute; reflexivity. Qed.

(** [NewPurchase] alone does not tell a negative amount from a small
    one: handed a Money that did not come out of [NewMoney], it answers
    AmountOutOfRange.  The service never does that; the helper of the
    domain tests does, by dropping the error of [NewMoney]. *)
Example NewPurchase_unchecked_money :
  NewPurchase "tx1" StatusApproved
    (AmountBreakdown.mk (Money.mk (-1) "BRL") (Money.mk 0 "BRL")
       (Money.mk 0 "BRL") (Money.mk 0 "BRL"))
    makeMerchant (makeEvent "idem1") "u" "c" "BR" "BRL" "POS"
  = Err (Plain ErrAmountOutOfRange) /\
  NewPurchase "tx1" StatusApproved (makeAmountBreakdown (-1) "BRL")
    makeMerchant (makeEvent "idem1") "u" "c" "BR" "BRL" "POS"
  = Err (Plain ErrAmountOutOfRange).
Proof. split; vm_compute; reflexivity. Qed.

(** The adjustment ID is not checked on the service path either: two
    refund events with the same transaction ID and different keys are
    both committed. *)
Example adjustment_id_reused_through_service :
  let r1 := run Repository.NewRepository
              [makePurchaseCmd "tx1" "APPROVED" "idem1" 1000] in
  let first := makeAdjustCmd "adj1" "REFUND" "APPROVED" "tx1" "idem-adj1" 100 in
  let again := makeAdjustCmd "adj1" "REFUND" "APPROVED" "tx1" "idem-adj2" 100 in
  let r2 := (Service.ProcessTransaction r1 first).1 in
  let r3 := (Service.ProcessTransaction r2 again).1 in
  (Service.ProcessTransaction r1 first).2 = (Result.mk "adj1" false, None) /\
  (Service.ProcessTransaction r2 again).2 = (Result.mk "adj1" false, None) /\
  length (Repository.adjustmentsOf r3 "tx1") = 2%nat.
Proof. repeat split; vm_compute; reflexivity. Qed.

(** The budget is checked before the save and outside its lock: two
    refunds of 6000 that are both validated against the same ledger,
    holding a purchase of 10000 and no adjustment yet, are then both
    saved, since [SaveAdjustment] looks at the idempotency key only. *)
Example budget_not_rechecked_at_save :
  let r1 := run Repository.NewRepository
              [makePurchaseCmd "tx1" "APPROVED" "idem1" 10000] in
  let refund1 := makeAdjustCmd "adj1" "REFUND" "APPROVED" "tx1" "idem-adj1" 6000 in
  let refund2 := makeAdjustCmd "adj2" "REFUND" "APPROVED" "tx1" "idem-adj2" 6000 in
  exists adj1 adj2 r2 r3,
    Service.prepareAdjustment r1 refund1 = Ok adj1 /\
    Service.prepareAdjustment r1 refund2 = Ok adj2 /\
    Repository.SaveAdjustment r1 adj1 = (r2, None) /\
    Repository.SaveAdjustment r2 adj2 = (r3, None) /\
    approvedTotal (Repository.adjustmentsOf r3 "tx1") = 12000.
Proof. do 4 eexists. repeat split; vm_compute; reflexivity. Qed.


(** * Further properties of the code *)

(** ** Constructors *)

Lemma NewPurchase_cases
    (id : string) (status : TransactionStatus) (amount : AmountBreakdown.t)
    (merchant : Merchant.t) (event : Event.t) (u c co cu pos : string) :
  let res := NewPurchase id status amount merchant event u c co cu pos in
  let ids_present :=
    id <> "" /\ Event.ID event <> "" /\ Event.IdempotencyKey event <> "" in
  let in_range :=
    MinPurchaseAmount <= Money.Amount (AmountBreakdown.Local amount)
    <= MaxPurchaseAmount in
  (~ ids_present /\ exists d, res = Err (Wrapf ErrInvalidInput d)) \/
  (ids_present /\ ~ in_range /\ res = Err (Plain ErrAmountOutOfRange)) \/
  (ids_present /\ in_range /\
   res = Ok (Transaction.mk id TypePurchase status amount merchant event ""
               u c co cu pos)).
Proof.
  intros res ids_present in_range. unfold ids_present.
  destruct (decide (id = "")) as [Hid | Hid].
  { left. split; [tauto |]. unfold res, NewPurchase.
    rewrite (bool_decide_eq_true_2 _ Hid). by eexists. }
  destruct (decide (Event.ID event = "")) as [He | He].
  { left. split; [tauto |]. unfold res, NewPurchase.
    rewrite (bool_decide_eq_false_2 _ Hid), (bool_decide_eq_true_2 _ He).
    by eexists. }
  destruct (decide (Event.IdempotencyKey event = "")) as [Hk | Hk].
  { left. split; [tauto |]. unfold res, NewPurchase.
    rewrite (bool_decide_eq_false_2 _ Hid), (bool_decide_eq_true_2 _ Hk),
      orb_true_r. by eexists. }
  right. destruct (decide in_range) as [Hr | Hr].
  - right. split; [done |]. split; [done |]. by apply NewPurchase_ok.
  - left. split; [done |]. split; [done |]. by apply NewPurchase_out_of_range.
Qed.

(** X1 (NewPurchase).  The identifier checks come before the range
    check: the constructor fails with InvalidInput exactly when the
    transaction ID, the event ID or the idempotency key is empty,
    whatever the amount; with the three present it fails with
    AmountOutOfRange exactly when the local amount is outside
    100..500000, and succeeds otherwise.  A purchase it returns has the
    type PURCHASE, no original-transaction reference, the fields it was
    given, and can receive adjustments exactly when its status is
    APPROVED. *)
Theorem NewPurchase_outcomes
    (id : string) (status : TransactionStatus) (amount : AmountBreakdown.t)
    (merchant : Merchant.t) (event : Event.t) (u c co cu pos : string) :
  let res := NewPurchase id status amount merchant event u c co cu pos in
  let ids_present :=
    id <> "" /\ Event.ID event <> "" /\ Event.IdempotencyKey event <> "" in
  let in_range :=
    MinPurchaseAmount <= Money.Amount (AmountBreakdown.Local amount)
    <= MaxPurchaseAmount in
  (fails_with res ErrInvalidInput <-> ~ ids_present) /\
  (fails_with res ErrAmountOutOfRange <-> ids_present /\ ~ in_range) /\
  (succeeds res <-> ids_present /\ in_range) /\
  (forall tx, res = Ok tx ->
     tx = Transaction.mk id TypePurchase status amount merchant event ""
            u c co cu pos /\
     (Transaction.CanReceiveAdjustment tx = true <-> status = StatusApproved)).
Proof.
  intros res ids_present in_range.
  pose proof (NewPurchase_cases id status amount merchant event u c co cu pos)
    as Hcases.
  fold res ids_present in_range in Hcases. simpl in Hcases.
  split; [| split; [| split]].
  - split.
    + intros (e & He & Hs).
      destruct Hcases as [[H _] | [(_ & _ & H) | (_ & _ & H)]]; [done | |];
        rewrite H in He; simplify_eq.
    + intros Hn. destruct Hcases as [[_ (d & H)] | [(H & _) | (H & _)]];
        [| done | done].
      rewrite H. by eexists.
  - split.
    + intros (e & He & Hs).
      destruct Hcases as [[_ (d & H)] | [(H1 & H2 & _) | (_ & _ & H)]];
        [| done |]; rewrite H in He; simplify_eq.
    + intros [H1 H2].
      destruct Hcases as [[H _] | [(_ & _ & H) | (_ & H & _)]]; [done | | done].
      rewrite H. by eexists.
  - split.
    + intros [tx Htx].
      destruct Hcases as [[_ (d & H)] | [(_ & _ & H) | (H1 & H2 & _)]];
        [rewrite H in Htx; discriminate | rewrite H in Htx; discriminate | done].
    + intros [H1 H2].
      destruct Hcases as [[H _] | [(_ & H & _) | (_ & _ & H)]]; [done | done |].
      rewrite H. by eexists.
  - intros tx Htx. apply NewPurchase_inv in Htx as (_ & _ & _ & _ & ->).
    split; [done |]. rewrite CanReceiveAdjustment_iff. simpl. tauto.
Qed.

Lemma NewAdjustment_cases
    (id : string) (txType : TransactionType) (status : TransactionStatus)
    (amount : AmountBreakdown.t) (merchant : Merchant.t) (event : Event.t)
    (orig u c co cu pos : string) :
  let res := NewAdjustment id txType status amount merchant event orig
               u c co cu pos in
  let type_ok := txType = TypeReversalPurchase \/ txType = TypeRefund in
  let ids_present :=
    id <> "" /\ Event.ID event <> "" /\ Event.IdempotencyKey event <> "" in
  (~ type_ok /\ res = Err (Wrapf ErrInvalidTransactionType txType)) \/
  (type_ok /\ orig = "" /\ res = Err (Plain ErrOriginalTransactionRequired)) \/
  (type_ok /\ orig <> "" /\ ~ ids_present /\
   exists d, res = Err (Wrapf ErrInvalidInput d)) \/
  (type_ok /\ orig <> "" /\ ids_present /\
   res = Ok (Adjustment.mk id txType status amount merchant event orig
               u c co cu pos)).
Proof.
  intros res type_ok ids_present.
  unfold res, NewAdjustment, type_ok, ids_present.
    destruct (decide (txType = TypeReversalPurchase)) as [Hrev | Hrev].
    2:{ destruct (decide (txType = TypeRefund)) as [Href | Href].
        2:{ left. rewrite !bool_decide_eq_true_2 by done. simpl. tauto. }
        rewrite (bool_decide_eq_false_2 (txType <> TypeRefund)) by tauto.
        rewrite andb_false_r. right.
        case_bool_decide as Ho; [left; tauto |]. right.
        case_bool_decide as Hid; [left; split; [tauto |]; split; [done |];
                                  split; [tauto | by eexists] |].
        destruct (decide (Event.ID event = "")) as [He | He].
        { left. rewrite (bool_decide_eq_true_2 _ He). simpl.
          split; [tauto |]. split; [done |]. split; [tauto | by eexists]. }
        destruct (decide (Event.IdempotencyKey event = "")) as [Hk | Hk].
        { left. rewrite (bool_decide_eq_true_2 _ Hk), orb_true_r.
          split; [tauto |]. split; [done |]. split; [tauto | by eexists]. }
        right. rewrite !bool_decide_eq_false_2 by done. simpl. tauto. }
    rewrite (bool_decide_eq_false_2 (txType <> TypeReversalPurchase)) by tauto.
    simpl. right.
    case_bool_decide as Ho; [left; tauto |]. right.
    case_bool_decide as Hid; [left; split; [tauto |]; split; [done |];
                              split; [tauto | by eexists] |].
    destruct (decide (Event.ID event = "")) as [He | He].
    { left. rewrite (bool_decide_eq_true_2 _ He). simpl.
      split; [tauto |]. split; [done |]. split; [tauto | by eexists]. }
    destruct (decide (Event.IdempotencyKey event = "")) as [Hk | Hk].
    { left. rewrite (bool_decide_eq_true_2 _ Hk), orb_true_r.
      split; [tauto |]. split; [done |]. split; [tauto | by eexists]. }
    right. rewrite !bool_decide_eq_false_2 by done. simpl. tauto.
Qed.

(** X2 (NewAdjustment).  The checks run in the order type, original
    reference, adjustment ID, event identifiers: the constructor fails
    with InvalidTransactionType exactly when the type is neither
    REVERSAL_PURCHASE nor REFUND (PURCHASE included), even when other
    fields are missing; with a valid type it fails with
    OriginalTransactionRequired exactly when the reference is empty;
    with type and reference valid it fails with InvalidInput exactly
    when the ID, the event ID or the idempotency key is empty; otherwise
    it succeeds, for every status and every amount, and returns the
    fields unchanged. *)
Theorem NewAdjustment_outcomes
    (id : string) (txType : TransactionType) (status : TransactionStatus)
    (amount : AmountBreakdown.t) (merchant : Merchant.t) (event : Event.t)
    (orig u c co cu pos : string) :
  let res := NewAdjustment id txType status amount merchant event orig
               u c co cu pos in
  let type_ok := txType = TypeReversalPurchase \/ txType = TypeRefund in
  let ids_present :=
    id <> "" /\ Event.ID event <> "" /\ Event.IdempotencyKey event <> "" in
  (fails_with res ErrInvalidTransactionType <-> ~ type_ok) /\
  (fails_with res ErrOriginalTransactionRequired <-> type_ok /\ orig = "") /\
  (fails_with res ErrInvalidInput <-> type_ok /\ orig <> "" /\ ~ ids_present) /\
  (succeeds res <-> type_ok /\ orig <> "" /\ ids_present) /\
  (forall adj, res = Ok adj ->
     adj = Adjustment.mk id txType status amount merchant event orig
             u c co cu pos).
Proof.
  intros res type_ok ids_present.
  pose proof (NewAdjustment_cases id txType status amount merchant event orig
                u c co cu pos) as Hcases.
  fold res type_ok ids_present in Hcases. simpl in Hcases.
  assert (Hsent : forall s,
            fails_with res s ->
            (s = ErrInvalidTransactionType /\ ~ type_ok) \/
            (s = ErrOriginalTransactionRequired /\ type_ok /\ orig = "") \/
            (s = ErrInvalidInput /\ type_ok /\ orig <> "" /\ ~ ids_present)).
  { intros s (e & He & Hs). unfold errors_Is in Hs. apply bool_decide_eq_true in Hs.
    destruct Hcases as [[H1 H] | [(H1 & H2 & H) | [(H1 & H2 & H3 & d & H)
                                                   | (_ & _ & _ & H)]]];
      rewrite H in He; simplify_eq; simpl; tauto. }
  split; [| split; [| split; [| split]]].
  - split.
    + intros Hf. destruct (Hsent _ Hf) as [[_ H] | [[H _] | [H _]]];
        [done | discriminate | discriminate].
    + intros Hn. destruct Hcases as [[_ H] | [(H & _) | [(H & _) | (H & _)]]];
        [| done | done | done].
      rewrite H. by eexists.
  - split.
    + intros Hf. destruct (Hsent _ Hf) as [[H _] | [[_ H] | [H _]]];
        [discriminate | done | discriminate].
    + intros [H1 H2].
      destruct Hcases as [[H _] | [(_ & _ & H) | [(_ & H & _) | (_ & H & _)]]];
        [done | | done | done].
      rewrite H. by eexists.
  - split.
    + intros Hf. destruct (Hsent _ Hf) as [[H _] | [[H _] | [_ H]]];
        [discriminate | discriminate | done].
    + intros (H1 & H2 & H3).
      destruct Hcases as [[H _] | [(_ & H & _) | [(_ & _ & _ & d & H)
                                                  | (_ & _ & H & _)]]];
        [done | done | | done].
      rewrite H. by eexists.
  - split.
    + intros [adj Hadj].
      destruct Hcases as [[_ H] | [(_ & _ & H) | [(_ & _ & _ & d & H)
                                                  | (H1 & H2 & H3 & _)]]];
        [rewrite H in Hadj; discriminate | rewrite H in Hadj; discriminate
         | rewrite H in Hadj; discriminate | done].
    + intros (H1 & H2 & H3).
      destruct Hcases as [[H _] | [(_ & H & _) | [(_ & _ & H & _)
                                                  | (_ & _ & _ & H)]]];
        [done | done | done |].
      rewrite H. by eexists.
  - intros adj Hadj. by apply NewAdjustment_inv in Hadj.
Qed.


(** ** The running total *)

Lemma wrap64_add_l (x y : Z) : wrap64 (wrap64 x + y) = wrap64 (x + y).
Proof.
  unfold wrap64.
  replace ((x + 2 ^ 63) mod 2 ^ 64 - 2 ^ 63 + y + 2 ^ 63)
    with ((x + 2 ^ 63) mod 2 ^ 64 + y) by lia.
  rewrite Zplus_mod_idemp_l. f_equal. f_equal. lia.
Qed.

Lemma wrap64_idemp (x : Z) : wrap64 (wrap64 x) = wrap64 x.
Proof. apply wrap64_in_range, wrap64_is_int64. Qed.

Lemma sumFrom_cons (total : Money.t) (adj : Adjustment.t) (rest : list Adjustment.t) :
  Service.sumFrom total (adj :: rest)
  = if bool_decide (Adjustment.Status adj <> StatusApproved)
    then Service.sumFrom total rest
    else match Money.Add total (AmountBreakdown.Local (Adjustment.Amount adj)) with
         | Ok total' => Service.sumFrom total' rest
         | Err e => Err e
         end.
Proof. reflexivity. Qed.

Lemma sumFrom_uniform (l : list Adjustment.t) (total : Money.t) :
  Forall (fun adj => Adjustment.Status adj = StatusApproved ->
                     Money.Currency (AmountBreakdown.Local (Adjustment.Amount adj))
                     = Money.Currency total) l ->
  wrap64 (Money.Amount total) = Money.Amount total ->
  Service.sumFrom total l
  = Ok (Money.mk (wrap64 (Money.Amount total + approvedTotal l))
          (Money.Currency total)).
Proof.
  revert total. induction l as [| adj l IH]; intros total Hall Hw.
  - simpl. rewrite Z.add_0_r, Hw. by destruct total.
  - apply Forall_cons in Hall as [Ha Hall]. rewrite sumFrom_cons.
    assert (Hhead : approvedTotal (adj :: l)
                    = if bool_decide (Adjustment.Status adj = StatusApproved)
                      then Money.Amount (AmountBreakdown.Local (Adjustment.Amount adj))
                           + approvedTotal l
                      else approvedTotal l) by reflexivity.
    rewrite Hhead.
    destruct (decide (Adjustment.Status adj = StatusApproved)) as [Hst | Hst].
    + rewrite (bool_decide_eq_true_2 _ Hst).
      rewrite bool_decide_eq_false_2 by auto.
      rewrite Add_same_currency by (symmetry; auto).
      rewrite IH; simpl; [| done | apply wrap64_idemp].
      by rewrite wrap64_add_l, Z.add_assoc.
    + rewrite (bool_decide_eq_false_2 _ Hst).
      rewrite bool_decide_eq_true_2 by done. by apply IH.
Qed.

Lemma sumFrom_mismatch (l : list Adjustment.t) (total : Money.t) :
  ~ Forall (fun adj => Adjustment.Status adj = StatusApproved ->
                       Money.Currency (AmountBreakdown.Local (Adjustment.Amount adj))
                       = Money.Currency total) l ->
  fails_with (Service.sumFrom total l) ErrCurrencyMismatch.
Proof.
  revert total. induction l as [| adj l IH]; intros total Hall.
  - destruct Hall. constructor.
  - rewrite sumFrom_cons.
    destruct (decide (Adjustment.Status adj = StatusApproved)) as [Hst | Hst].
    + rewrite bool_decide_eq_false_2 by auto.
      destruct (decide (Money.Currency total
                        = Money.Currency (AmountBreakdown.Local
                                            (Adjustment.Amount adj)))) as [Hc | Hc].
      * rewrite Add_same_currency by done. apply IH. simpl.
        intros Hrest. apply Hall. constructor; [by intros _ |]. done.
      * unfold Money.Add. rewrite bool_decide_eq_true_2 by done.
        by eexists.
    + rewrite bool_decide_eq_true_2 by done. apply IH.
      intros Hrest. apply Hall. constructor; [done | done].
Qed.

Lemma approvedTotal_permutation (l1 l2 : list Adjustment.t) :
  l1 ≡ₚ l2 -> approvedTotal l1 = approvedTotal l2.
Proof.
  induction 1 as [| x l1 l2 _ IH | x y l | l1 l2 l3 _ IH1 _ IH2]; simpl.
  - done.
  - by rewrite IH.
  - repeat case_bool_decide; lia.
  - congruence.
Qed.

(** X3 (Service.sumExistingAdjustments).  The running total is computed
    in the currency of the incoming event: the function succeeds exactly
    when every APPROVED adjustment of the list has that local currency
    and fails with CurrencyMismatch otherwise; adjustments that are not
    APPROVED are skipped, whatever their currency and amount.  On
    success the total carries the event's currency and the 64-bit sum of
    the approved local amounts, which is their exact sum whenever that
    sum is a 64-bit value; the empty list gives zero. *)
Theorem sumExistingAdjustments_outcomes
    (adjs : list Adjustment.t) (currency : string) :
  let uniform :=
    Forall (fun adj => Adjustment.Status adj = StatusApproved ->
                       Money.Currency (AmountBreakdown.Local (Adjustment.Amount adj))
                       = currency) adjs in
  (succeeds (Service.sumExistingAdjustments adjs currency) <-> uniform) /\
  (fails_with (Service.sumExistingAdjustments adjs currency) ErrCurrencyMismatch
   <-> ~ uniform) /\
  (forall total,
     Service.sumExistingAdjustments adjs currency = Ok total ->
     total = Money.mk (wrap64 (approvedTotal adjs)) currency /\
     (in_int64 (approvedTotal adjs) -> Money.Amount total = approvedTotal adjs)) /\
  Service.sumExistingAdjustments [] currency = Ok (Money.mk 0 currency).
Proof.
  intros uniform.
  assert (Hcases :
    (uniform /\ Service.sumExistingAdjustments adjs currency
                = Ok (Money.mk (wrap64 (approvedTotal adjs)) currency)) \/
    (~ uniform /\ fails_with (Service.sumExistingAdjustments adjs currency)
                    ErrCurrencyMismatch)).
  { unfold Service.sumExistingAdjustments. rewrite NewMoney_ok by done. simpl.
    destruct (decide uniform) as [Hu | Hu].
    - left. split; [done |]. by rewrite sumFrom_uniform.
    - right. split; [done |]. by apply sumFrom_mismatch. }
  split; [| split; [| split]].
  - split.
    + intros [m Hm]. destruct Hcases as [[H _] | [_ (e & H & _)]]; [done |].
      rewrite H in Hm. discriminate.
    + intros Hu. destruct Hcases as [[_ H] | [H _]]; [by eexists | done].
  - split.
    + intros (e & He & _). destruct Hcases as [[_ H] | [H _]]; [| done].
      rewrite H in He. discriminate.
    + intros Hu. destruct Hcases as [[H _] | [_ H]]; done.
  - intros total Ht. destruct Hcases as [[_ H] | [_ (e & H & _)]];
      rewrite H in Ht; [| discriminate].
    injection Ht as <-. split; [done |]. simpl. apply wrap64_in_range.
  - done.
Qed.

(** X4 (Service.sumExistingAdjustments).  The total does not depend on
    the order in which the adjustments are stored: two lists with the
    same adjustments give the same total, and one fails when the other
    does. *)
Theorem sumExistingAdjustments_order_independent
    (adjs adjs' : list Adjustment.t) (currency : string) :
  adjs ≡ₚ adjs' ->
  (forall total,
     Service.sumExistingAdjustments adjs currency = Ok total ->
     Service.sumExistingAdjustments adjs' currency = Ok total) /\
  (fails_with (Service.sumExistingAdjustments adjs currency) ErrCurrencyMismatch ->
   fails_with (Service.sumExistingAdjustments adjs' currency) ErrCurrencyMismatch).
Proof.
  intros Hperm.
  assert (Hsteps : forall l,
    Service.sumExistingAdjustments l currency
    = Service.sumFrom (Money.mk 0 currency) l).
  { intros l. unfold Service.sumExistingAdjustments. by rewrite NewMoney_ok. }
  split.
  - intros total Ht. rewrite Hsteps in *.
    destruct (decide (Forall (fun adj => Adjustment.Status adj = StatusApproved ->
                Money.Currency (AmountBreakdown.Local (Adjustment.Amount adj))
                = currency) adjs)) as [Hu | Hu].
    + rewrite sumFrom_uniform in Ht by done.
      rewrite (sumFrom_uniform adjs' (Money.mk 0 currency));
        [| by rewrite <- Hperm | done].
      by rewrite <- (approvedTotal_permutation adjs adjs').
    + destruct (sumFrom_mismatch adjs (Money.mk 0 currency) Hu) as (e & He & _).
      rewrite He in Ht. discriminate.
  - rewrite !Hsteps. intros (e & He & _).
    apply sumFrom_mismatch. simpl. rewrite <- Hperm. intros Hu.
    rewrite sumFrom_uniform in He by done. discriminate.
Qed.

Lemma sumExistingAdjustments_order_independent_witness :
  let a := MemoryFixtures.makeAdjustment "adj1" "tx1" "k1" 100 in
  let b := MemoryFixtures.makeAdjustment "adj2" "tx1" "k2" 250 in
  Service.sumExistingAdjustments [b; a] "BRL" = Ok (Money.mk 350 "BRL").
Proof.
  intros a b.
  refine (proj1 (sumExistingAdjustments_order_independent [a; b] [b; a] "BRL" _)
            (Money.mk 350 "BRL") _).
  - apply Permutation_swap.
  - vm_compute. reflexivity.
Defined.


(** ** Reading the ledger back *)

(** X5 (Repository.SaveTransaction and the read methods).  A save that
    succeeds found neither the ID nor the key in the ledger; afterwards
    the purchase is returned by GetTransactionByID under its ID, its key
    resolves to that ID, the listing holds the purchase in addition to
    what it held, and every other ID, every other key and every
    adjustment list read as before. *)
Theorem SaveTransaction_then_read
    (r r' : Repository.t) (tx : Transaction.t) :
  Repository.SaveTransaction r tx = (r', None) ->
  let id := Transaction.ID tx in
  let key := Event.IdempotencyKey (Transaction.Event tx) in
  Repository.GetTransactionByID r id = Err (Plain ErrTransactionNotFound) /\
  Repository.GetByIdempotencyKey r key = ("", false) /\
  Repository.GetTransactionByID r' id = Ok tx /\
  Repository.GetByIdempotencyKey r' key = (id, true) /\
  (forall id', id' <> id ->
     Repository.GetTransactionByID r' id' = Repository.GetTransactionByID r id') /\
  (forall key', key' <> key ->
     Repository.GetByIdempotencyKey r' key' = Repository.GetByIdempotencyKey r key') /\
  (forall id',
     Repository.GetAdjustmentsByTransactionID r' id'
     = Repository.GetAdjustmentsByTransactionID r id') /\
  exists before after,
    Repository.ListTransactions r = Ok before /\
    Repository.ListTransactions r' = Ok after /\
    after ≡ₚ tx :: before.
Proof.
  intros Hs id key.
  apply SaveTransaction_success_inv in Hs as (Hk & Hid & ->).
  unfold Repository.GetTransactionByID, Repository.GetByIdempotencyKey,
    Repository.GetAdjustmentsByTransactionID, Repository.adjustmentsOf,
    Repository.ListTransactions. simpl.
  fold id key in Hk, Hid |- *. rewrite Hk, Hid, !lookup_insert_eq.
  repeat (split; [done |]).
  split; [intros id' Hne; by rewrite lookup_insert_ne |].
  split; [intros key' Hne; by rewrite lookup_insert_ne |].
  split; [done |].
  do 2 eexists. split; [done |]. split; [done |].
  by rewrite map_to_list_insert.
Qed.

Lemma SaveTransaction_then_read_witness :
  let tx := MemoryFixtures.makePurchase "tx1" "idem1" 1000 in
  let r' := (Repository.SaveTransaction Repository.NewRepository tx).1 in
  Repository.GetTransactionByID r' "tx1" = Ok tx.
Proof.
  intros tx r'.
  refine (proj1 (proj2 (proj2
            (SaveTransaction_then_read Repository.NewRepository r' tx _)))).
  vm_compute. reflexivity.
Defined.

(** X6 (Repository.SaveAdjustment and the read methods).  A save that
    succeeds appends the adjustment at the end of the list filed under
    its original-transaction ID (a new list when there was none, and
    whether or not a purchase with that ID is stored) and makes its key
    resolve to the adjustment's ID; the other lists and keys, every
    purchase lookup and the listing read as before, so an adjustment is
    never returned by GetTransactionByID. *)
Theorem SaveAdjustment_then_read
    (r r' : Repository.t) (adj : Adjustment.t) :
  Repository.SaveAdjustment r adj = (r', None) ->
  let orig := Adjustment.OriginalTransactionID adj in
  let key := Event.IdempotencyKey (Adjustment.Event adj) in
  Repository.GetByIdempotencyKey r key = ("", false) /\
  (exists before,
     Repository.GetAdjustmentsByTransactionID r orig = Ok before /\
     Repository.GetAdjustmentsByTransactionID r' orig = Ok (before ++ [adj])) /\
  Repository.GetByIdempotencyKey r' key = (Adjustment.ID adj, true) /\
  (forall id', id' <> orig ->
     Repository.GetAdjustmentsByTransactionID r' id'
     = Repository.GetAdjustmentsByTransactionID r id') /\
  (forall key', key' <> key ->
     Repository.GetByIdempotencyKey r' key' = Repository.GetByIdempotencyKey r key') /\
  (forall id',
     Repository.GetTransactionByID r' id' = Repository.GetTransactionByID r id') /\
  Repository.ListTransactions r' = Repository.ListTransactions r.
Proof.
  intros Hs orig key.
  assert (Hk : Repository.idempotencyKeys r !! key = None).
  { unfold Repository.SaveAdjustment in Hs. fold key in Hs.
    by destruct (Repository.idempotencyKeys r !! key). }
  apply SaveAdjustment_success_inv in Hs as ->.
  unfold Repository.GetTransactionByID, Repository.GetByIdempotencyKey,
    Repository.GetAdjustmentsByTransactionID, Repository.adjustmentsOf,
    Repository.ListTransactions. simpl.
  fold orig key. rewrite Hk, !lookup_insert_eq. simpl.
  split; [done |].
  split; [by eexists |].
  split; [done |].
  split; [intros id' Hne; by rewrite lookup_insert_ne |].
  split; [intros key' Hne; by rewrite lookup_insert_ne |].
  done.
Qed.

Lemma SaveAdjustment_then_read_witness :
  let adj := MemoryFixtures.makeAdjustment "adj1" "tx1" "adj-idem1" 500 in
  let r' := (Repository.SaveAdjustment Repository.NewRepository adj).1 in
  Repository.GetTransactionByID r' "adj1" = Err (Plain ErrTransactionNotFound).
Proof.
  intros adj r'.
  refine (eq_trans
            (proj1 (proj2 (proj2 (proj2 (proj2 (proj2
               (SaveAdjustment_then_read Repository.NewRepository r' adj _))))))
               "adj1") _).
  - vm_compute. reflexivity.
  - reflexivity.
Defined.

(** *** The ledger only grows *)

Lemma apply_commit_extends (r : Repository.t) (c : commit) :
  let r' := (apply_commit r c).1 in
  (forall id p, Repository.transactions r !! id = Some p ->
                Repository.transactions r' !! id = Some p) /\
  (forall k v, Repository.idempotencyKeys r !! k = Some v ->
               Repository.idempotencyKeys r' !! k = Some v) /\
  (forall id, Repository.adjustmentsOf r id `prefix_of` Repository.adjustmentsOf r' id).
Proof.
  destruct (apply_commit r c) as [r1 [e |]] eqn:Hc; simpl.
  - assert (r1 = r) as ->.
    { destruct c as [tx | adj]; simpl in Hc.
      - pose proof (SaveTransaction_error_unchanged r tx e) as Hu.
        rewrite Hc in Hu. by apply Hu.
      - unfold Repository.SaveAdjustment in Hc.
        destruct (Repository.idempotencyKeys r !! _); [| discriminate].
        by injection Hc as <-. }
    done.
  - destruct c as [tx | adj]; simpl in Hc.
    + apply SaveTransaction_success_inv in Hc as (Hk & Hid & ->). simpl.
      split; [| split].
      * intros id p Hp. rewrite lookup_insert_ne; [done |]. intros <-. congruence.
      * intros k v Hv. rewrite lookup_insert_ne; [done |]. intros <-. congruence.
      * done.
    + assert (Hk : Repository.idempotencyKeys r
                     !! Event.IdempotencyKey (Adjustment.Event adj) = None).
      { unfold Repository.SaveAdjustment in Hc.
        by destruct (Repository.idempotencyKeys r !! _). }
      apply SaveAdjustment_success_inv in Hc as ->. simpl.
      split; [done |]. split.
      * intros k v Hv. rewrite lookup_insert_ne; [done |]. intros <-. congruence.
      * intros id. unfold Repository.adjustmentsOf at 2. simpl.
        destruct (decide (Adjustment.OriginalTransactionID adj = id)) as [<- | Hne].
        -- rewrite lookup_insert_eq. simpl. by apply prefix_app_r.
        -- rewrite lookup_insert_ne by done. done.
Qed.

Lemma ProcessTransaction_as_commit (r : Repository.t) (cmd : Command.t) :
  (Service.ProcessTransaction r cmd).1 = r \/
  exists c, apply_commit r c = ((Service.ProcessTransaction r cmd).1, None).
Proof.
  destruct (ProcessTransaction_effect r cmd)
    as [H | [(tx & _ & Hs) | (adj & _ & _ & Hs)]]; [by left | |]; right.
  - by exists (CommitTransaction tx).
  - by exists (CommitAdjustment adj).
Qed.

(** X7 (Repository, Service.ProcessTransaction).  The ledger is
    append-only: whatever events are processed, every purchase stays
    stored unchanged under its ID, every recorded idempotency key keeps
    the transaction ID it was mapped to, and every adjustment list keeps
    its entries in place, new ones being added at the end. *)
Theorem ledger_append_only (r : Repository.t) (cmds : list Command.t) :
  let r' := run r cmds in
  (forall id p,
     Repository.GetTransactionByID r id = Ok p ->
     Repository.GetTransactionByID r' id = Ok p) /\
  (forall key id,
     Repository.GetByIdempotencyKey r key = (id, true) ->
     Repository.GetByIdempotencyKey r' key = (id, true)) /\
  (forall id before,
     Repository.GetAdjustmentsByTransactionID r id = Ok before ->
     exists added,
       Repository.GetAdjustmentsByTransactionID r' id = Ok (before ++ added)).
Proof.
  assert (Hext : let r' := run r cmds in
    (forall id p, Repository.transactions r !! id = Some p ->
                  Repository.transactions r' !! id = Some p) /\
    (forall k v, Repository.idempotencyKeys r !! k = Some v ->
                 Repository.idempotencyKeys r' !! k = Some v) /\
    (forall id, Repository.adjustmentsOf r id
                `prefix_of` Repository.adjustmentsOf r' id)).
  { induction cmds as [| cmd cmds IH] using rev_ind; [done |].
    rewrite run_snoc. destruct IH as (IH1 & IH2 & IH3).
    destruct (ProcessTransaction_as_commit (run r cmds) cmd) as [-> | [c Hc]];
      [done |].
    pose proof (apply_commit_extends (run r cmds) c) as Hstep.
    rewrite Hc in Hstep. simpl in Hstep. destruct Hstep as (H1 & H2 & H3).
    split; [| split].
    - intros id p Hp. by apply H1, IH1.
    - intros k v Hv. by apply H2, IH2.
    - intros id. etrans; [apply IH3 | apply H3]. }
  intros r'. destruct Hext as (H1 & H2 & H3). fold r' in H1, H2, H3.
  unfold Repository.GetTransactionByID, Repository.GetByIdempotencyKey,
    Repository.GetAdjustmentsByTransactionID.
  split; [| split].
  - intros id p Hp.
    destruct (Repository.transactions r !! id) as [p' |] eqn:Hl; [| discriminate].
    injection Hp as ->. by rewrite (H1 id p Hl).
  - intros key id Hk.
    destruct (Repository.idempotencyKeys r !! key) as [v |] eqn:Hl;
      [| discriminate].
    injection Hk as ->. by rewrite (H2 key id Hl).
  - intros id before [= <-]. destruct (H3 id) as [added Hadd].
    exists added. by rewrite Hadd.
Qed.

(** X8 (Repository.ListTransactions, Repository.GetTransactionByID).
    In a ledger built by the service the listing and the lookup agree: a
    purchase is listed exactly when GetTransactionByID returns it under
    its own ID, and no two listed purchases have the same ID. *)
Theorem listing_matches_lookup (r : Repository.t) (txs : list Transaction.t) :
  reachable r ->
  Repository.ListTransactions r = Ok txs ->
  (forall tx, tx ∈ txs <-> Repository.GetTransactionByID r (Transaction.ID tx) = Ok tx) /\
  NoDup (Transaction.ID <$> txs).
Proof.
  intros Hreach [= <-].
  pose proof (reachable_filed_by_id r Hreach) as Hfiled.
  split.
  - intros tx. unfold Repository.GetTransactionByID. split.
    + intros Hel. apply list_elem_of_fmap in Hel as ([id tx'] & -> & Hel).
      apply elem_of_map_to_list in Hel. simpl.
      rewrite (Hfiled _ _ Hel). by rewrite Hel.
    + destruct (Repository.transactions r !! Transaction.ID tx) as [tx' |] eqn:Hl;
        [| discriminate].
      intros [= ->]. apply list_elem_of_fmap. exists (Transaction.ID tx, tx).
      split; [done |]. by apply elem_of_map_to_list.
  - assert (Heq : Transaction.ID <$> (map_to_list (Repository.transactions r)).*2
                  = (map_to_list (Repository.transactions r)).*1).
    { rewrite <- list_fmap_compose. apply list_fmap_ext.
      intros i [id tx] Hi. simpl. apply (Hfiled id tx).
      apply elem_of_map_to_list. by eapply list_elem_of_lookup_2. }
    rewrite Heq. apply NoDup_fst_map_to_list.
Qed.

Lemma listing_matches_lookup_witness :
  let r := run Repository.NewRepository
             [makePurchaseCmd "tx1" "APPROVED" "idem1" 1000] in
  NoDup (Transaction.ID <$> (map_to_list (Repository.transactions r)).*2).
Proof.
  intros r.
  refine (proj2 (listing_matches_lookup r _ _ _)).
  - by eexists.
  - reflexivity.
Defined.


(** ** What the service stores *)

Lemma buildPurchase_stored (cmd : Command.t) (tx : Transaction.t) :
  Service.buildPurchase cmd = Ok tx ->
  stored_purchase (Command.TransactionID cmd) tx /\
  Event.IdempotencyKey (Transaction.Event tx) = Command.IdempotencyKey cmd.
Proof.
  unfold Service.buildPurchase. intros H.
  apply bind_Ok_inv in H as (m1 & H1 & H). apply NewMoney_inv in H1 as [? ->].
  apply bind_Ok_inv in H as (m2 & H2 & H). apply NewMoney_inv in H2 as [? ->].
  apply bind_Ok_inv in H as (m3 & H3 & H). apply NewMoney_inv in H3 as [? ->].
  apply bind_Ok_inv in H as (m4 & H4 & H). apply NewMoney_inv in H4 as [? ->].
  apply NewPurchase_inv in H as (Hid & He & Hk & Hr & ->).
  unfold stored_purchase. simpl in *. done.
Qed.

Lemma NewAdjustment_checks id txType status amount merchant event orig u c co cu pos adj :
  NewAdjustment id txType status amount merchant event orig u c co cu pos = Ok adj ->
  (txType = TypeReversalPurchase \/ txType = TypeRefund) /\
  orig <> "" /\ id <> "" /\
  Event.ID event <> "" /\ Event.IdempotencyKey event <> "".
Proof.
  unfold NewAdjustment.
  destruct (decide (txType = TypeReversalPurchase)) as [Hrev | Hrev];
    destruct (decide (txType = TypeRefund)) as [Href | Href];
    rewrite ?(bool_decide_eq_true_2 _ Hrev), ?(bool_decide_eq_true_2 _ Href),
      ?(bool_decide_eq_false_2 (txType <> TypeReversalPurchase)),
      ?(bool_decide_eq_false_2 (txType <> TypeRefund)) by tauto;
    simpl; try discriminate;
    (case_bool_decide as Ho; [discriminate |];
     case_bool_decide as Hid; [discriminate |];
     destruct (decide (Event.ID event = "")) as [He | He];
       [rewrite (bool_decide_eq_true_2 _ He); discriminate |];
     destruct (decide (Event.IdempotencyKey event = "")) as [Hk | Hk];
       [rewrite (bool_decide_eq_true_2 _ Hk), orb_true_r; discriminate |];
     intros _; tauto).
Qed.

Lemma buildAdjustment_stored (cmd : Command.t) (adj : Adjustment.t) :
  Service.buildAdjustment cmd = Ok adj ->
  adj = Adjustment.mk (Command.TransactionID cmd) (Command.TransactionType_ cmd)
          (Command.TransactionStatus_ cmd)
          (AmountBreakdown.mk
             (Money.mk (Command.LocalAmount cmd) (Command.LocalCurrency cmd))
             (Money.mk (Command.TxAmount cmd) (Command.TxCurrency cmd))
             (Money.mk (Command.SettlementAmount cmd) (Command.SettlementCurrency cmd))
             (Money.mk (Command.OriginalAmount cmd) (Command.OriginalCurrency cmd)))
          (Service.merchantOf cmd) (Service.eventOf cmd)
          (Command.OriginalTransactionID cmd)
          (Command.UserID cmd) (Command.CardID cmd) (Command.Country cmd)
          (Command.Currency cmd) (Command.PointOfSale cmd) /\
  (Command.TransactionType_ cmd = TypeReversalPurchase
   \/ Command.TransactionType_ cmd = TypeRefund) /\
  Command.OriginalTransactionID cmd <> "" /\
  Command.TransactionID cmd <> "" /\
  Command.EventID cmd <> "" /\ Command.IdempotencyKey cmd <> "" /\
  0 <= Command.LocalAmount cmd /\ 0 <= Command.TxAmount cmd /\
  0 <= Command.SettlementAmount cmd /\ 0 <= Command.OriginalAmount cmd.
Proof.
  unfold Service.buildAdjustment. intros H.
  apply bind_Ok_inv in H as (m1 & H1 & H). apply NewMoney_inv in H1 as [? ->].
  apply bind_Ok_inv in H as (m2 & H2 & H). apply NewMoney_inv in H2 as [? ->].
  apply bind_Ok_inv in H as (m3 & H3 & H). apply NewMoney_inv in H3 as [? ->].
  apply bind_Ok_inv in H as (m4 & H4 & H). apply NewMoney_inv in H4 as [? ->].
  pose proof (NewAdjustment_checks _ _ _ _ _ _ _ _ _ _ _ _ _ H) as Hc.
  apply NewAdjustment_inv in H as ->. simpl in Hc. tauto.
Qed.

Lemma ValidateAgainstPurchase_accepts_currency
    (a : Adjustment.t) (original : Transaction.t) (existing : Money.t) :
  Adjustment.ValidateAgainstPurchase a original existing = None ->
  Transaction.CanReceiveAdjustment original = true /\
  (Adjustment.Status a = StatusApproved ->
   Money.Currency existing
   = Money.Currency (AmountBreakdown.Local (Adjustment.Amount a)) /\
   Money.Currency existing
   = Money.Currency (AmountBreakdown.Local (Transaction.Amount original))).
Proof.
  unfold Adjustment.ValidateAgainstPurchase. intros Hv.
  destruct (Transaction.CanReceiveAdjustment original); [| discriminate].
  split; [done |]. intros Hs. simpl in Hv.
  rewrite bool_decide_eq_false_2 in Hv by auto.
  unfold Money.Add in Hv. case_bool_decide as Hc1; [discriminate |].
  unfold Money.GreaterThan in Hv. simpl in Hv.
  case_bool_decide as Hc2; [discriminate |].
  split; [by destruct (decide (Money.Currency existing = Money.Currency
                         (AmountBreakdown.Local (Adjustment.Amount a))))
         | by destruct (decide (Money.Currency existing = Money.Currency
                         (AmountBreakdown.Local (Transaction.Amount original))))].
Qed.

Lemma sumExistingAdjustments_currency (adjs : list Adjustment.t)
    (currency : string) (total : Money.t) :
  Service.sumExistingAdjustments adjs currency = Ok total ->
  Money.Currency total = currency.
Proof.
  unfold Service.sumExistingAdjustments. rewrite NewMoney_ok by done.
  assert (Hgen : forall l t m, Service.sumFrom t l = Ok m ->
                               Money.Currency m = Money.Currency t).
  { induction l as [| adj l IH]; intros t m; simpl; [by intros [= <-] |].
    case_bool_decide as Hst; [apply IH |].
    intros Hm. apply bind_Ok_inv in Hm as (t' & Ht' & Hm).
    apply IH in Hm. rewrite Hm. unfold Money.Add in Ht'.
    case_bool_decide as Hc; [discriminate |]. by injection Ht' as <-. }
  intros H. by apply Hgen in H.
Qed.

(** The three invariants of a ledger built by the service. *)
Lemma reachable_well_formed (r : Repository.t) :
  reachable r ->
  purchases_well_formed r /\ adjustments_well_formed r /\ keys_recorded r.
Proof.
  intros Hr. induction Hr as [| r cmd _ (IHp & IHa & IHk1 & IHk2)]
    using reachable_induction.
  { split; [| split; [| split]]; intros ? ?; done. }
  destruct (ProcessTransaction_effect r cmd)
    as [-> | [(tx & Hbuild & Hs) | (adj & _ & Hadm & Hs)]];
    [split; [done | split; [done | by split]] | |].
  - apply SaveTransaction_success_inv in Hs as (Hk & Hid & ->).
    apply buildPurchase_stored in Hbuild as [Hst Hkey].
    assert (Htid : Transaction.ID tx = Command.TransactionID cmd) by apply Hst.
    unfold purchases_well_formed, adjustments_well_formed, keys_recorded. simpl.
    split; [| split; [| split]].
    + intros id p. destruct (decide (Transaction.ID tx = id)) as [<- | Hne].
      * rewrite lookup_insert_eq. intros [= <-]. by rewrite Htid.
      * rewrite lookup_insert_ne by done. apply IHp.
    + intros id adjs Hl. destruct (IHa id adjs Hl) as (Hne & p & Hp & Hrest).
      split; [done |]. exists p. split; [| done].
      rewrite lookup_insert_ne; [done |]. intros <-. congruence.
    + intros id p. destruct (decide (Transaction.ID tx = id)) as [<- | Hne].
      * rewrite lookup_insert_eq. intros [= <-]. by rewrite lookup_insert_eq.
      * rewrite lookup_insert_ne by done. intros Hp.
        rewrite lookup_insert_ne; [by apply IHk1 |].
        intros Heq. rewrite Heq, (IHk1 id p Hp) in Hk. discriminate.
    + intros id adjs a Hl Hel.
      rewrite lookup_insert_ne; [by eapply IHk2 |].
      intros Heq. rewrite Heq, (IHk2 id adjs a Hl Hel) in Hk. discriminate.
  - assert (Hk : Repository.idempotencyKeys r
                   !! Event.IdempotencyKey (Adjustment.Event adj) = None).
    { unfold Repository.SaveAdjustment in Hs.
      by destruct (Repository.idempotencyKeys r !! _). }
    apply SaveAdjustment_success_inv in Hs as ->.
    apply prepareAdjustment_inv in Hadm as (orig & total & Horig & Hbuild & Hsum & Hval).
    apply buildAdjustment_stored in Hbuild
      as (Hadj & Hty & Ho & Hid & He & Hkey & H1 & H2 & H3 & H4).
    apply ValidateAgainstPurchase_accepts_currency in Hval as [Hcan Hcur].
    apply sumExistingAdjustments_currency in Hsum.
    assert (Hnew : stored_adjustment (Command.OriginalTransactionID cmd) orig adj).
    { rewrite Hadj. unfold stored_adjustment. simpl.
      repeat (split; [done |]). intros Happ.
      rewrite Hadj in Hcur. simpl in Hcur. destruct (Hcur Happ) as [Ha Hb].
      congruence. }
    assert (Hoid : Adjustment.OriginalTransactionID adj
                   = Command.OriginalTransactionID cmd) by (by rewrite Hadj).
    rewrite Hoid.
    unfold adjustments_well_formed, keys_recorded. simpl.
    split; [exact IHp |]. split; [| split].
    + intros id adjs.
      destruct (decide (Command.OriginalTransactionID cmd = id)) as [<- | Hne].
      2:{ rewrite lookup_insert_ne by done. apply IHa. }
      rewrite lookup_insert_eq. intros [= <-].
      split; [by destruct (Repository.adjustmentsOf r _) |].
      exists orig. split; [done |]. split; [done |].
      apply Forall_app. split; [| by constructor].
      unfold Repository.adjustmentsOf.
      destruct (Repository.adjustments r !! Command.OriginalTransactionID cmd)
        as [old |] eqn:Hold; simpl; [| constructor].
      destruct (IHa _ _ Hold) as (_ & p & Hp & _ & Hall).
      assert (p = orig) as -> by congruence. done.
    + intros id p Hp. rewrite lookup_insert_ne; [by apply IHk1 |].
      intros Heq. rewrite Heq, (IHk1 id p Hp) in Hk. discriminate.
    + intros id adjs a.
      destruct (decide (Command.OriginalTransactionID cmd = id)) as [<- | Hne].
      * rewrite lookup_insert_eq. intros [= <-] Hel.
        apply elem_of_app in Hel as [Hel | Hel].
        -- unfold Repository.adjustmentsOf in Hel.
           destruct (Repository.adjustments r !! Command.OriginalTransactionID cmd)
             as [old |] eqn:Hold; simpl in Hel; [| by apply elem_of_nil in Hel].
           rewrite lookup_insert_ne; [by eapply IHk2 |].
           intros Heq. rewrite Heq, (IHk2 _ old a Hold Hel) in Hk. discriminate.
        -- apply list_elem_of_singleton in Hel as ->. apply lookup_insert_eq.
      * rewrite lookup_insert_ne by done. intros Hl Hel.
        rewrite lookup_insert_ne; [by eapply IHk2 |].
        intros Heq. rewrite Heq, (IHk2 id adjs a Hl Hel) in Hk. discriminate.
Qed.


(** X9 (Service.processPurchase, NewPurchase, NewMoney).  Every purchase
    a ledger built by the service returns was validated: it is filed
    under its own non-empty ID, has the type PURCHASE and no
    original-transaction reference, carries non-empty event
    identifiers, a local amount within 100..500000 and non-negative
    other amounts, and its idempotency key resolves to its ID. *)
Theorem stored_purchases_are_valid
    (r : Repository.t) (id : string) (p : Transaction.t) :
  reachable r ->
  Service.GetTransaction r id = Ok p ->
  stored_purchase id p /\
  Repository.GetByIdempotencyKey r (Event.IdempotencyKey (Transaction.Event p))
  = (id, true).
Proof.
  intros Hreach Hget.
  destruct (reachable_well_formed r Hreach) as (Hp & _ & Hk & _).
  unfold Service.GetTransaction, Repository.GetTransactionByID in Hget.
  destruct (Repository.transactions r !! id) as [p' |] eqn:Hl; [| discriminate].
  injection Hget as ->. split; [by apply Hp |].
  unfold Repository.GetByIdempotencyKey. by rewrite (Hk id p Hl).
Qed.

Lemma stored_purchases_are_valid_witness :
  let r := run Repository.NewRepository
             [makePurchaseCmd "tx1" "APPROVED" "idem1" 1000] in
  Repository.GetByIdempotencyKey r "idem1" = ("tx1", true).
Proof.
  intros r.
  refine (proj2 (stored_purchases_are_valid r "tx1"
                   (MemoryFixtures.makePurchase "tx1" "idem1" 1000) _ _)).
  - by eexists.
  - vm_compute. reflexivity.
Defined.

(** X10 (Service.processAdjustment).  In a ledger built by the service
    adjustments exist only under approved purchases: a non-empty
    adjustment list is filed under the ID of a stored purchase of type
    PURCHASE and status APPROVED, and each of its adjustments references
    that ID, has the type REVERSAL_PURCHASE or REFUND, non-empty
    identifiers and non-negative amounts, shares the purchase's local
    currency when it is APPROVED, and has its idempotency key resolving
    to its own ID. *)
Theorem stored_adjustments_are_valid
    (r : Repository.t) (id : string) (adjs : list Adjustment.t) :
  reachable r ->
  Repository.GetAdjustmentsByTransactionID r id = Ok adjs ->
  adjs <> [] ->
  exists p,
    Service.GetTransaction r id = Ok p /\
    Transaction.IsApprovedPurchase p = true /\
    Forall (stored_adjustment id p) adjs /\
    Forall (fun adj =>
              Repository.GetByIdempotencyKey r
                (Event.IdempotencyKey (Adjustment.Event adj))
              = (Adjustment.ID adj, true)) adjs.
Proof.
  intros Hreach [= <-] Hne.
  destruct (reachable_well_formed r Hreach) as (_ & Ha & _ & Hk).
  unfold Repository.adjustmentsOf in *.
  destruct (Repository.adjustments r !! id) as [adjs |] eqn:Hl; [| done].
  simpl in *. destruct (Ha id adjs Hl) as (_ & p & Hp & Happ & Hall).
  exists p. unfold Service.GetTransaction, Repository.GetTransactionByID.
  rewrite Hp. split; [done |]. split; [done |]. split; [done |].
  apply Forall_forall. intros adj Hel.
  unfold Repository.GetByIdempotencyKey. by rewrite (Hk id adjs adj Hl Hel).
Qed.

Lemma stored_adjustments_are_valid_witness :
  let r := run Repository.NewRepository
             [makePurchaseCmd "tx1" "APPROVED" "idem1" 1000;
              makeAdjustCmd "adj1" "REFUND" "APPROVED" "tx1" "idem-adj1" 400] in
  exists p, Service.GetTransaction r "tx1" = Ok p /\
            Transaction.IsApprovedPurchase p = true.
Proof.
  intros r.
  destruct (stored_adjustments_are_valid r "tx1"
              (Repository.adjustmentsOf r "tx1")) as (p & Hp & Happ & _).
  - by eexists.
  - reflexivity.
  - vm_compute. discriminate.
  - exists p. split; [exact Hp | exact Happ].
Defined.

(** ** One key per stored record *)

Lemma recordKeys_after_purchase (r : Repository.t) (tx : Transaction.t) (k id : string) :
  Repository.transactions r !! Transaction.ID tx = None ->
  recordKeys (Repository.mk (<[Transaction.ID tx := tx]> (Repository.transactions r))
                (Repository.adjustments r)
                (<[k := id]> (Repository.idempotencyKeys r)))
  ≡ₚ Event.IdempotencyKey (Transaction.Event tx) :: recordKeys r.
Proof.
  intros Hid. unfold recordKeys. simpl.
  rewrite map_to_list_insert by done. done.
Qed.

Lemma adjustment_lists_after_append (m : gmap string (list Adjustment.t))
    (id : string) (adj : Adjustment.t) :
  mjoin (map_to_list (<[id := default [] (m !! id) ++ [adj]]> m)).*2
  ≡ₚ adj :: mjoin (map_to_list m).*2.
Proof.
  destruct (m !! id) as [old |] eqn:Hold; simpl.
  - rewrite <- insert_delete_eq.
    rewrite map_to_list_insert by apply lookup_delete_eq.
    rewrite <- (map_to_list_delete m id old Hold). simpl.
    rewrite <- !app_assoc. simpl.
    rewrite <- Permutation_middle. done.
  - rewrite map_to_list_insert by done. done.
Qed.

Lemma recordKeys_after_adjustment (r : Repository.t) (adj : Adjustment.t)
    (k id : string) :
  recordKeys (Repository.mk (Repository.transactions r)
                (<[Adjustment.OriginalTransactionID adj :=
                     Repository.adjustmentsOf r (Adjustment.OriginalTransactionID adj)
                     ++ [adj]]> (Repository.adjustments r))
                (<[k := id]> (Repository.idempotencyKeys r)))
  ≡ₚ Event.IdempotencyKey (Adjustment.Event adj) :: recordKeys r.
Proof.
  unfold recordKeys, Repository.adjustmentsOf. simpl.
  rewrite adjustment_lists_after_append. simpl.
  by rewrite <- Permutation_middle.
Qed.

Lemma apply_commit_recordKeys (r : Repository.t) (c : commit) :
  (apply_commit r c).2 = None ->
  Repository.idempotencyKeys r !! commit_key c = None /\
  recordKeys (apply_commit r c).1 ≡ₚ commit_key c :: recordKeys r /\
  dom (Repository.idempotencyKeys (apply_commit r c).1)
  = {[commit_key c]} ∪ dom (Repository.idempotencyKeys r).
Proof.
  destruct c as [tx | adj]; simpl.
  - unfold Repository.SaveTransaction.
    destruct (Repository.idempotencyKeys r !! _) eqn:Hk; [discriminate |].
    destruct (Repository.transactions r !! _) eqn:Hid; [discriminate |].
    intros _. simpl. split; [done |].
    split; [by apply recordKeys_after_purchase | apply dom_insert_L].
  - unfold Repository.SaveAdjustment.
    destruct (Repository.idempotencyKeys r !! _) eqn:Hk; [discriminate |].
    intros _. simpl. split; [done |].
    split; [apply recordKeys_after_adjustment | apply dom_insert_L].
Qed.

Lemma apply_commit_failure_unchanged (r : Repository.t) (c : commit) (e : error) :
  (apply_commit r c).2 = Some e -> (apply_commit r c).1 = r.
Proof.
  destruct c as [tx | adj]; simpl.
  - apply SaveTransaction_error_unchanged.
  - unfold Repository.SaveAdjustment.
    by destruct (Repository.idempotencyKeys r !! _).
Qed.

Lemma commits_recordKeys (cs : list commit) (r : Repository.t) :
  NoDup (recordKeys r) ->
  (forall k, k ∈ recordKeys r <-> k ∈ dom (Repository.idempotencyKeys r)) ->
  let r' := (commits r cs).1 in
  NoDup (recordKeys r') /\
  (forall k, k ∈ recordKeys r' <-> k ∈ dom (Repository.idempotencyKeys r')).
Proof.
  revert r. induction cs as [| c cs IH]; intros r Hnd Hdom; [done |].
  rewrite commits_cons. simpl. apply IH.
  - destruct (apply_commit r c).2 as [e |] eqn:He.
    + by rewrite (apply_commit_failure_unchanged r c e He).
    + destruct (apply_commit_recordKeys r c He) as (Hk & Hperm & _).
      rewrite Hperm. constructor; [| done].
      rewrite Hdom. by apply not_elem_of_dom.
  - intros k. destruct (apply_commit r c).2 as [e |] eqn:He.
    + by rewrite (apply_commit_failure_unchanged r c e He).
    + destruct (apply_commit_recordKeys r c He) as (Hk & Hperm & Hd).
      rewrite Hperm, Hd, elem_of_cons, elem_of_union, elem_of_singleton, Hdom.
      done.
Qed.

Lemma run_as_commits (cmds : list Command.t) :
  exists cs, run Repository.NewRepository cmds
             = (commits Repository.NewRepository cs).1.
Proof.
  induction cmds as [| cmd cmds [cs IH]] using rev_ind; [by exists [] |].
  rewrite run_snoc.
  destruct (ProcessTransaction_as_commit (run Repository.NewRepository cmds) cmd)
    as [-> | [c Hc]]; [by exists cs |].
  exists (cs ++ [c]). rewrite commits_app. cbn [fst]. rewrite <- IH.
  rewrite commits_cons. cbn [fst]. by rewrite Hc.
Qed.

(** X11 (Repository.SaveTransaction, Repository.SaveAdjustment).
    Whatever commits are attempted on a fresh ledger, no two stored
    records (purchases and adjustments together) carry the same
    idempotency key, and the recorded keys are exactly the keys of the
    stored records: one key per record and one record per key.  The same
    holds for every ledger built by the service. *)
Theorem one_record_per_idempotency_key :
  (forall cs : list commit,
     let r := (commits Repository.NewRepository cs).1 in
     NoDup (recordKeys r) /\
     (forall k, k ∈ recordKeys r
                <-> (Repository.GetByIdempotencyKey r k).2 = true) /\
     length (recordKeys r) = size (Repository.idempotencyKeys r)) /\
  (forall cmds : list Command.t,
     let r := run Repository.NewRepository cmds in
     NoDup (recordKeys r) /\
     (forall k, k ∈ recordKeys r
                <-> (Repository.GetByIdempotencyKey r k).2 = true)).
Proof.
  assert (Hcommits : forall cs : list commit,
     let r := (commits Repository.NewRepository cs).1 in
     NoDup (recordKeys r) /\
     (forall k, k ∈ recordKeys r
                <-> (Repository.GetByIdempotencyKey r k).2 = true) /\
     length (recordKeys r) = size (Repository.idempotencyKeys r)).
  { intros cs r.
    destruct (commits_recordKeys cs Repository.NewRepository) as [Hnd Hdom].
    { constructor. }
    { intros k. unfold recordKeys. simpl.
      rewrite map_to_list_empty. simpl. rewrite dom_empty_L. set_solver. }
    fold r in Hnd, Hdom. split; [done |]. split.
    - intros k. rewrite Hdom, elem_of_dom. unfold Repository.GetByIdempotencyKey.
      destruct (Repository.idempotencyKeys r !! k); simpl.
      + split; [done | by eexists].
      + split; [by intros [? ?] | done].
    - rewrite <- size_dom. rewrite <- (size_list_to_set (C := gset string)) by done.
      f_equal. apply set_eq. intros k. rewrite elem_of_list_to_set. apply Hdom. }
  split; [exact Hcommits |].
  intros cmds r. destruct (run_as_commits cmds) as [cs Hcs].
  unfold r. rewrite Hcs. destruct (Hcommits cs) as (H1 & H2 & _). done.
Qed.


(** ** How the service decides an event *)

Lemma four_amounts_negative (cmd : Command.t) {A : Type}
    (k : Money.t -> Money.t -> Money.t -> Money.t -> result A) :
  Command.LocalAmount cmd < 0 \/ Command.TxAmount cmd < 0 \/
  Command.SettlementAmount cmd < 0 \/ Command.OriginalAmount cmd < 0 ->
  (localMoney ← NewMoney (Command.LocalAmount cmd) (Command.LocalCurrency cmd);
   txMoney ← NewMoney (Command.TxAmount cmd) (Command.TxCurrency cmd);
   settlementMoney ←
     NewMoney (Command.SettlementAmount cmd) (Command.SettlementCurrency cmd);
   originalMoney ←
     NewMoney (Command.OriginalAmount cmd) (Command.OriginalCurrency cmd);
   k localMoney txMoney settlementMoney originalMoney)
  = Err (Plain ErrNegativeAmount).
Proof.
  intros Hneg.
  destruct (Z.lt_ge_cases (Command.LocalAmount cmd) 0) as [H1 | H1];
    [by rewrite (NewMoney_negative _ _ H1) |].
  rewrite (NewMoney_ok (Command.LocalAmount cmd)) by done.
  destruct (Z.lt_ge_cases (Command.TxAmount cmd) 0) as [H2 | H2];
    [by rewrite (NewMoney_negative _ _ H2) |].
  rewrite (NewMoney_ok (Command.TxAmount cmd)) by done.
  destruct (Z.lt_ge_cases (Command.SettlementAmount cmd) 0) as [H3 | H3];
    [by rewrite (NewMoney_negative _ _ H3) |].
  rewrite (NewMoney_ok (Command.SettlementAmount cmd)) by done.
  destruct (Z.lt_ge_cases (Command.OriginalAmount cmd) 0) as [H4 | H4];
    [by rewrite (NewMoney_negative _ _ H4) | lia].
Qed.

Lemma four_amounts_ok (cmd : Command.t) {A : Type}
    (k : Money.t -> Money.t -> Money.t -> Money.t -> result A) :
  ~ (Command.LocalAmount cmd < 0 \/ Command.TxAmount cmd < 0 \/
     Command.SettlementAmount cmd < 0 \/ Command.OriginalAmount cmd < 0) ->
  (localMoney ← NewMoney (Command.LocalAmount cmd) (Command.LocalCurrency cmd);
   txMoney ← NewMoney (Command.TxAmount cmd) (Command.TxCurrency cmd);
   settlementMoney ←
     NewMoney (Command.SettlementAmount cmd) (Command.SettlementCurrency cmd);
   originalMoney ←
     NewMoney (Command.OriginalAmount cmd) (Command.OriginalCurrency cmd);
   k localMoney txMoney settlementMoney originalMoney)
  = k (Money.mk (Command.LocalAmount cmd) (Command.LocalCurrency cmd))
      (Money.mk (Command.TxAmount cmd) (Command.TxCurrency cmd))
      (Money.mk (Command.SettlementAmount cmd) (Command.SettlementCurrency cmd))
      (Money.mk (Command.OriginalAmount cmd) (Command.OriginalCurrency cmd)).
Proof. intros Hneg. by rewrite !NewMoney_ok by lia. Qed.

Lemma processPurchase_after_check (r : Repository.t) (cmd : Command.t) :
  Repository.idempotencyKeys r !! Command.IdempotencyKey cmd = None ->
  Service.processPurchase r cmd
  = match Service.buildPurchase cmd with
    | Err err => (r, (Result.zero, Some err))
    | Ok tx =>
        match Repository.transactions r !! Transaction.ID tx with
        | Some _ => (r, (Result.zero, Some (Plain ErrDuplicateTransactionID)))
        | None =>
            (Repository.mk
               (<[Transaction.ID tx := tx]> (Repository.transactions r))
               (Repository.adjustments r)
               (<[Command.IdempotencyKey cmd := Transaction.ID tx]>
                  (Repository.idempotencyKeys r)),
             (Result.mk (Transaction.ID tx) false, None))
        end
    end.
Proof.
  intros Hk. unfold Service.processPurchase.
  rewrite GetByIdempotencyKey_missing by done.
  destruct (Service.buildPurchase cmd) as [tx | e] eqn:Hb; [| done].
  apply buildPurchase_stored in Hb as [_ Hkey].
  destruct (Repository.transactions r !! Transaction.ID tx) as [old |] eqn:Hid.
  - rewrite SaveTransaction_duplicate_id; [done | by rewrite Hkey |].
    rewrite Hid. by eexists.
  - rewrite SaveTransaction_fresh by (by rewrite ?Hkey). by rewrite Hkey.
Qed.

(** X12 (Service.processPurchase).  The decision on a PURCHASE event,
    in the order the code takes it: a recorded idempotency key is
    answered as a replay that echoes the event's own transaction ID,
    before anything else is looked at; otherwise a negative amount (any
    of the four) gives NegativeAmount, even when identifiers are
    missing; otherwise a missing transaction ID, event ID or key gives
    InvalidInput; otherwise a local amount outside 100..500000 gives
    AmountOutOfRange; otherwise a stored transaction ID gives
    DuplicateTransactionID; otherwise the purchase is committed, is
    returned by GetTransaction with the event's fields, and its key
    resolves to its ID.  Every refusal leaves the ledger as it was. *)
Theorem purchase_event_decision (r : Repository.t) (cmd : Command.t) :
  Command.TransactionType_ cmd = TypePurchase ->
  let out := Service.ProcessTransaction r cmd in
  let replay :=
    is_Some (Repository.idempotencyKeys r !! Command.IdempotencyKey cmd) in
  let negative :=
    Command.LocalAmount cmd < 0 \/ Command.TxAmount cmd < 0 \/
    Command.SettlementAmount cmd < 0 \/ Command.OriginalAmount cmd < 0 in
  let ids_present :=
    Command.TransactionID cmd <> "" /\ Command.EventID cmd <> "" /\
    Command.IdempotencyKey cmd <> "" in
  let in_range :=
    MinPurchaseAmount <= Command.LocalAmount cmd <= MaxPurchaseAmount in
  let known := is_Some (Repository.transactions r !! Command.TransactionID cmd) in
  (replay ->
   out = (r, (Result.mk (Command.TransactionID cmd) true,
              Some (Plain ErrDuplicateIdempotencyKey)))) /\
  (~ replay -> negative ->
   out = (r, (Result.zero, Some (Plain ErrNegativeAmount)))) /\
  (~ replay -> ~ negative -> ~ ids_present ->
   exists d, out = (r, (Result.zero, Some (Wrapf ErrInvalidInput d)))) /\
  (~ replay -> ~ negative -> ids_present -> ~ in_range ->
   out = (r, (Result.zero, Some (Plain ErrAmountOutOfRange)))) /\
  (~ replay -> ~ negative -> ids_present -> in_range -> known ->
   out = (r, (Result.zero, Some (Plain ErrDuplicateTransactionID)))) /\
  (~ replay -> ~ negative -> ids_present -> in_range -> ~ known ->
   out.2 = (Result.mk (Command.TransactionID cmd) false, None) /\
   Service.buildPurchase cmd
   = Service.GetTransaction out.1 (Command.TransactionID cmd) /\
   succeeds (Service.buildPurchase cmd) /\
   Repository.GetByIdempotencyKey out.1 (Command.IdempotencyKey cmd)
   = (Command.TransactionID cmd, true)).
Proof.
  intros Ht out replay negative ids_present in_range known.
  unfold out. rewrite ProcessTransaction_purchase by done.
  split; [apply processPurchase_replay |].
  assert (Hfresh : ~ replay ->
            Repository.idempotencyKeys r !! Command.IdempotencyKey cmd = None).
  { unfold replay. intros Hn.
    destruct (Repository.idempotencyKeys r !! _); [| done].
    destruct Hn. by eexists. }
  assert (Hbuild : ~ negative ->
            Service.buildPurchase cmd
            = NewPurchase (Command.TransactionID cmd) (Command.TransactionStatus_ cmd)
                (AmountBreakdown.mk
                   (Money.mk (Command.LocalAmount cmd) (Command.LocalCurrency cmd))
                   (Money.mk (Command.TxAmount cmd) (Command.TxCurrency cmd))
                   (Money.mk (Command.SettlementAmount cmd)
                      (Command.SettlementCurrency cmd))
                   (Money.mk (Command.OriginalAmount cmd)
                      (Command.OriginalCurrency cmd)))
                (Service.merchantOf cmd) (Service.eventOf cmd)
                (Command.UserID cmd) (Command.CardID cmd) (Command.Country cmd)
                (Command.Currency cmd) (Command.PointOfSale cmd)).
  { intros Hn. unfold Service.buildPurchase.
    by rewrite (four_amounts_ok cmd _ Hn). }
  pose proof (NewPurchase_cases (Command.TransactionID cmd)
                (Command.TransactionStatus_ cmd)
                (AmountBreakdown.mk
                   (Money.mk (Command.LocalAmount cmd) (Command.LocalCurrency cmd))
                   (Money.mk (Command.TxAmount cmd) (Command.TxCurrency cmd))
                   (Money.mk (Command.SettlementAmount cmd)
                      (Command.SettlementCurrency cmd))
                   (Money.mk (Command.OriginalAmount cmd)
                      (Command.OriginalCurrency cmd)))
                (Service.merchantOf cmd) (Service.eventOf cmd)
                (Command.UserID cmd) (Command.CardID cmd) (Command.Country cmd)
                (Command.Currency cmd) (Command.PointOfSale cmd)) as Hcases.
  simpl in Hcases. fold ids_present in_range in Hcases.
  split; [| split; [| split; [| split]]].
  - intros Hr Hneg. rewrite processPurchase_after_check by auto.
    unfold Service.buildPurchase. by rewrite (four_amounts_negative cmd _ Hneg).
  - intros Hr Hneg Hids. rewrite processPurchase_after_check by auto.
    rewrite Hbuild by done.
    destruct Hcases as [[_ (d & ->)] | [(H & _) | (H & _)]]; [by exists d | done | done].
  - intros Hr Hneg Hids Hrange. rewrite processPurchase_after_check by auto.
    rewrite Hbuild by done.
    destruct Hcases as [[H _] | [(_ & _ & ->) | (_ & H & _)]]; done.
  - intros Hr Hneg Hids Hrange [old Hold].
    rewrite processPurchase_after_check by auto. rewrite Hbuild by done.
    destruct Hcases as [[H _] | [(_ & H & _) | (_ & _ & ->)]]; [done | done |].
    simpl. by rewrite Hold.
  - intros Hr Hneg Hids Hrange Hknown.
    rewrite processPurchase_after_check by auto. rewrite Hbuild by done.
    destruct Hcases as [[H _] | [(_ & H & _) | (_ & _ & ->)]]; [done | done |].
    simpl.
    destruct (Repository.transactions r !! Command.TransactionID cmd) as [old |]
      eqn:Hold; [destruct Hknown; by eexists |].
    simpl. split; [done |].
    unfold Service.GetTransaction, Repository.GetTransactionByID,
      Repository.GetByIdempotencyKey. simpl. rewrite !lookup_insert_eq.
    split; [done |]. split; [by eexists | done].
Qed.

Lemma purchase_event_decision_witness :
  let r := run Repository.NewRepository
             [makePurchaseCmd "tx1" "APPROVED" "idem1" 1000] in
  Service.ProcessTransaction r (makePurchaseCmd "tx2" "APPROVED" "idem1" (-5))
  = (r, (Result.mk "tx2" true, Some (Plain ErrDuplicateIdempotencyKey))).
Proof.
  intros r.
  refine (proj1 (purchase_event_decision r
                   (makePurchaseCmd "tx2" "APPROVED" "idem1" (-5)) _) _).
  - reflexivity.
  - vm_compute. eexists. reflexivity.
Defined.


Lemma processAdjustment_after_lookup
    (r : Repository.t) (cmd : Command.t) (p : Transaction.t) :
  Command.OriginalTransactionID cmd <> "" ->
  Repository.idempotencyKeys r !! Command.IdempotencyKey cmd = None ->
  Repository.transactions r !! Command.OriginalTransactionID cmd = Some p ->
  Service.processAdjustment r cmd
  = match Service.buildAdjustment cmd with
    | Err err => (r, (Result.zero, Some err))
    | Ok adj =>
        match Service.sumExistingAdjustments
                (Repository.adjustmentsOf r (Command.OriginalTransactionID cmd))
                (Command.LocalCurrency cmd) with
        | Err err => (r, (Result.zero, Some err))
        | Ok total =>
            match Adjustment.ValidateAgainstPurchase adj p total with
            | Some err => (r, (Result.zero, Some err))
            | None =>
                (Repository.mk (Repository.transactions r)
                   (<[Command.OriginalTransactionID cmd :=
                        Repository.adjustmentsOf r (Command.OriginalTransactionID cmd)
                        ++ [adj]]> (Repository.adjustments r))
                   (<[Command.IdempotencyKey cmd := Command.TransactionID cmd]>
                      (Repository.idempotencyKeys r)),
                 (Result.mk (Command.TransactionID cmd) false, None))
            end
        end
    end.
Proof.
  intros Ho Hk Hp. unfold Service.processAdjustment.
  rewrite bool_decide_eq_false_2 by done.
  rewrite GetByIdempotencyKey_missing by done.
  unfold Service.prepareAdjustment, Repository.GetTransactionByID,
    Repository.GetAdjustmentsByTransactionID.
  rewrite Hp. simpl.
  destruct (Service.buildAdjustment cmd) as [adj | e] eqn:Hb; [| done]. simpl.
  destruct (Service.sumExistingAdjustments _ _) as [total | e]; [| done]. simpl.
  destruct (Adjustment.ValidateAgainstPurchase adj p total); [done |].
  apply buildAdjustment_stored in Hb as [-> _].
  rewrite SaveAdjustment_fresh by done. done.
Qed.

(** X13 (Service.processAdjustment).  The decision on a REVERSAL_PURCHASE
    or REFUND event whose reference is present, whose key is new and
    whose purchase is stored, in the order the code takes it: a negative
    amount gives NegativeAmount; then missing identifiers give
    InvalidInput; then the stored adjustments are summed in the event's
    local currency, and an APPROVED one in another currency gives
    CurrencyMismatch, whatever the status of the event; then a purchase
    that is not an approved PURCHASE gives PurchaseNotApproved; then an
    event that is not APPROVED is committed, whatever its amount and
    currency; an APPROVED one whose local currency differs from the
    purchase's gives CurrencyMismatch; and when the approved total plus
    the event's amount is a 64-bit value, the event fails with
    ExceedsOriginalAmount if that sum is greater than the purchase's
    local amount and is committed otherwise.  A committed adjustment is
    appended to the purchase's list and its key resolves to its ID;
    every refusal leaves the ledger as it was. *)
Theorem adjustment_event_decision
    (r : Repository.t) (cmd : Command.t) (p : Transaction.t) :
  Command.TransactionType_ cmd = TypeReversalPurchase
  \/ Command.TransactionType_ cmd = TypeRefund ->
  Command.OriginalTransactionID cmd <> "" ->
  Repository.idempotencyKeys r !! Command.IdempotencyKey cmd = None ->
  Service.GetTransaction r (Command.OriginalTransactionID cmd) = Ok p ->
  let out := Service.ProcessTransaction r cmd in
  let existing :=
    Repository.adjustmentsOf r (Command.OriginalTransactionID cmd) in
  let negative :=
    Command.LocalAmount cmd < 0 \/ Command.TxAmount cmd < 0 \/
    Command.SettlementAmount cmd < 0 \/ Command.OriginalAmount cmd < 0 in
  let ids_present :=
    Command.TransactionID cmd <> "" /\ Command.EventID cmd <> "" /\
    Command.IdempotencyKey cmd <> "" in
  let uniform :=
    Forall (fun adj => Adjustment.Status adj = StatusApproved ->
                       Money.Currency (AmountBreakdown.Local (Adjustment.Amount adj))
                       = Command.LocalCurrency cmd) existing in
  let purchaseLocal := AmountBreakdown.Local (Transaction.Amount p) in
  let total := approvedTotal existing + Command.LocalAmount cmd in
  let committed :=
    out.2 = (Result.mk (Command.TransactionID cmd) false, None) /\
    (exists adj,
       Service.buildAdjustment cmd = Ok adj /\
       Repository.GetAdjustmentsByTransactionID out.1
         (Command.OriginalTransactionID cmd) = Ok (existing ++ [adj])) /\
    Repository.GetByIdempotencyKey out.1 (Command.IdempotencyKey cmd)
    = (Command.TransactionID cmd, true) in
  let refused (s : sentinel) :=
    exists e, out = (r, (Result.zero, Some e)) /\ unwrap e = s in
  (negative -> refused ErrNegativeAmount) /\
  (~ negative -> ~ ids_present -> refused ErrInvalidInput) /\
  (~ negative -> ids_present -> ~ uniform -> refused ErrCurrencyMismatch) /\
  (~ negative -> ids_present -> uniform ->
   Transaction.CanReceiveAdjustment p = false -> refused ErrPurchaseNotApproved) /\
  (~ negative -> ids_present -> uniform ->
   Transaction.CanReceiveAdjustment p = true ->
   Command.TransactionStatus_ cmd <> StatusApproved -> committed) /\
  (~ negative -> ids_present -> uniform ->
   Transaction.CanReceiveAdjustment p = true ->
   Command.TransactionStatus_ cmd = StatusApproved ->
   Money.Currency purchaseLocal <> Command.LocalCurrency cmd ->
   refused ErrCurrencyMismatch) /\
  (~ negative -> ids_present -> uniform ->
   Transaction.CanReceiveAdjustment p = true ->
   Command.TransactionStatus_ cmd = StatusApproved ->
   Money.Currency purchaseLocal = Command.LocalCurrency cmd ->
   in_int64 total ->
   (total > Money.Amount purchaseLocal -> refused ErrExceedsOriginalAmount) /\
   (total <= Money.Amount purchaseLocal -> committed)).
Proof.
  intros Ht Ho Hk Hget out existing negative ids_present uniform purchaseLocal
    total committed refused.
  assert (Hp : Repository.transactions r !! Command.OriginalTransactionID cmd
               = Some p).
  { unfold Service.GetTransaction, Repository.GetTransactionByID in Hget.
    destruct (Repository.transactions r !! _); [| discriminate].
    by injection Hget as ->. }
  assert (Hout : out = Service.processAdjustment r cmd).
  { unfold out. by apply ProcessTransaction_adjustment. }
  rewrite (processAdjustment_after_lookup r cmd p Ho Hk Hp) in Hout.
  fold existing in Hout.
  set (amount := AmountBreakdown.mk
             (Money.mk (Command.LocalAmount cmd) (Command.LocalCurrency cmd))
             (Money.mk (Command.TxAmount cmd) (Command.TxCurrency cmd))
             (Money.mk (Command.SettlementAmount cmd) (Command.SettlementCurrency cmd))
             (Money.mk (Command.OriginalAmount cmd) (Command.OriginalCurrency cmd))).
  set (adj := Adjustment.mk (Command.TransactionID cmd) (Command.TransactionType_ cmd)
          (Command.TransactionStatus_ cmd) amount
          (Service.merchantOf cmd) (Service.eventOf cmd)
          (Command.OriginalTransactionID cmd)
          (Command.UserID cmd) (Command.CardID cmd) (Command.Country cmd)
          (Command.Currency cmd) (Command.PointOfSale cmd)).
  assert (Hbuild : ~ negative ->
            Service.buildAdjustment cmd
            = NewAdjustment (Command.TransactionID cmd) (Command.TransactionType_ cmd)
                (Command.TransactionStatus_ cmd) amount
                (Service.merchantOf cmd) (Service.eventOf cmd)
                (Command.OriginalTransactionID cmd)
                (Command.UserID cmd) (Command.CardID cmd) (Command.Country cmd)
                (Command.Currency cmd) (Command.PointOfSale cmd)).
  { intros Hn. unfold Service.buildAdjustment.
    by rewrite (four_amounts_ok cmd _ Hn). }
  pose proof (NewAdjustment_cases (Command.TransactionID cmd)
                (Command.TransactionType_ cmd) (Command.TransactionStatus_ cmd)
                amount (Service.merchantOf cmd) (Service.eventOf cmd)
                (Command.OriginalTransactionID cmd)
                (Command.UserID cmd) (Command.CardID cmd) (Command.Country cmd)
                (Command.Currency cmd) (Command.PointOfSale cmd)) as Hcases.
  cbv zeta in Hcases. change (Event.ID (Service.eventOf cmd)) with (Command.EventID cmd) in Hcases.
  change (Event.IdempotencyKey (Service.eventOf cmd))
    with (Command.IdempotencyKey cmd) in Hcases.
  fold ids_present adj in Hcases.
  assert (Hok : ~ negative -> ids_present -> Service.buildAdjustment cmd = Ok adj).
  { intros Hn Hids. rewrite Hbuild by done.
    destruct Hcases as [[H _] | [(_ & H & _) | [(_ & _ & H & _) | (_ & _ & _ & H)]]];
      done. }
  assert (Hsum : uniform ->
            Service.sumExistingAdjustments existing (Command.LocalCurrency cmd)
            = Ok (Money.mk (wrap64 (approvedTotal existing))
                    (Command.LocalCurrency cmd))).
  { intros Hu. unfold Service.sumExistingAdjustments.
    rewrite NewMoney_ok by done. simpl. by rewrite sumFrom_uniform. }
  assert (Hcommit : forall total',
            ~ negative -> ids_present ->
            Service.sumExistingAdjustments existing (Command.LocalCurrency cmd)
            = Ok total' ->
            Adjustment.ValidateAgainstPurchase adj p total' = None -> committed).
  { intros total' Hn Hids Hs Hv. unfold committed.
    rewrite Hout, (Hok Hn Hids), Hs, Hv. simpl.
    split; [done |]. split.
    - exists adj. split; [done |].
      unfold Repository.GetAdjustmentsByTransactionID, Repository.adjustmentsOf.
      simpl. by rewrite lookup_insert_eq.
    - unfold Repository.GetByIdempotencyKey. simpl. by rewrite lookup_insert_eq. }
  subst refused. cbv beta.
  split; [| split; [| split; [| split; [| split; [| split]]]]].
  - intros Hneg. exists (Plain ErrNegativeAmount). split; [| done].
    rewrite Hout. unfold Service.buildAdjustment.
    by rewrite (four_amounts_negative cmd _ Hneg).
  - intros Hn Hids. rewrite Hout, Hbuild by done.
    destruct Hcases as [[H _] | [(_ & H & _) | [(_ & _ & _ & d & ->)
                                                | (_ & _ & H & _)]]];
      [done | done | | done].
    by eexists.
  - intros Hn Hids Hu. rewrite Hout, (Hok Hn Hids).
    destruct (sumFrom_mismatch existing (Money.mk 0 (Command.LocalCurrency cmd)) Hu)
      as (e & He & Hs).
    unfold Service.sumExistingAdjustments. rewrite NewMoney_ok by done. simpl.
    rewrite He. exists e. split; [done |].
    unfold errors_Is in Hs. by apply bool_decide_eq_true in Hs.
  - intros Hn Hids Hu Hcan. rewrite Hout, (Hok Hn Hids), (Hsum Hu).
    rewrite ValidateAgainstPurchase_not_approved_purchase by done. by eexists.
  - intros Hn Hids Hu Hcan Hst. apply (Hcommit _ Hn Hids (Hsum Hu)).
    by apply ValidateAgainstPurchase_rejected.
  - intros Hn Hids Hu Hcan Hst Hcur. rewrite Hout, (Hok Hn Hids), (Hsum Hu).
    unfold Adjustment.ValidateAgainstPurchase. rewrite Hcan. simpl.
    rewrite bool_decide_eq_false_2 by auto.
    rewrite Add_same_currency by done. unfold Money.GreaterThan. simpl.
    rewrite bool_decide_eq_true_2 by (by intros Heq; apply Hcur).
    by eexists.
  - intros Hn Hids Hu Hcan Hst Hcur Hrange.
    assert (Hval : Adjustment.ValidateAgainstPurchase adj p
                     (Money.mk (wrap64 (approvedTotal existing))
                        (Command.LocalCurrency cmd))
                   = if total >? Money.Amount purchaseLocal
                     then Some (Plain ErrExceedsOriginalAmount) else None).
    { unfold Adjustment.ValidateAgainstPurchase. rewrite Hcan. simpl.
      rewrite bool_decide_eq_false_2 by auto.
      rewrite Add_same_currency by done. simpl.
      rewrite wrap64_add_l.
      change (approvedTotal existing + Command.LocalAmount cmd) with total.
      rewrite (wrap64_in_range _ Hrange).
      by rewrite GreaterThan_same_currency by done. }
    split; intros Hcmp.
    + rewrite Hout, (Hok Hn Hids), (Hsum Hu), Hval.
      destruct (Z.gtb_spec total (Money.Amount purchaseLocal)); [| lia].
      by eexists.
    + apply (Hcommit _ Hn Hids (Hsum Hu)). rewrite Hval.
      destruct (Z.gtb_spec total (Money.Amount purchaseLocal)); [lia | done].
Qed.

Lemma adjustment_event_decision_witness :
  let r := run Repository.NewRepository
             [makePurchaseCmd "tx1" "APPROVED" "idem1" 1000;
              makeAdjustCmd "adj1" "REFUND" "APPROVED" "tx1" "idem-adj1" 400] in
  let cmd := Command.mk "adj2" "REFUND" "REJECTED" "tx1"
               700 "USD" 700 "USD" 700 "USD" 700 "USD"
               "m1" "" "" "Store" "" "" "evt-adj2" 0 "idem-adj2"
               "u1" "card1" "BR" "BRL" "POS" in
  exists e, Service.ProcessTransaction r cmd = (r, (Result.zero, Some e)) /\
            unwrap e = ErrCurrencyMismatch.
Proof.
  intros r cmd.
  refine (proj1 (proj2 (proj2
            (adjustment_event_decision r cmd
               (MemoryFixtures.makePurchase "tx1" "idem1" 1000) _ _ _ _))) _ _ _).
  - right. reflexivity.
  - vm_compute. congruence.
  - vm_compute. reflexivity.
  - vm_compute. reflexivity.
  - vm_compute. intros [H | [H | [H | H]]]; discriminate.
  - vm_compute. repeat split; congruence.
  - intros Hu. apply Forall_inv in Hu. specialize (Hu eq_refl). discriminate.
Defined.


(** ** Which errors an event can meet *)

Lemma buildPurchase_error_kinds (cmd : Command.t) (e : error) :
  Service.buildPurchase cmd = Err e ->
  unwrap e = ErrNegativeAmount \/ unwrap e = ErrInvalidInput
  \/ unwrap e = ErrAmountOutOfRange.
Proof.
  intros Hb.
  destruct (decide (Command.LocalAmount cmd < 0 \/ Command.TxAmount cmd < 0 \/
                    Command.SettlementAmount cmd < 0 \/ Command.OriginalAmount cmd < 0))
    as [Hneg | Hneg].
  - unfold Service.buildPurchase in Hb.
    rewrite (four_amounts_negative cmd _ Hneg) in Hb. injection Hb as <-. by left.
  - unfold Service.buildPurchase in Hb. rewrite (four_amounts_ok cmd _ Hneg) in Hb.
    match type of Hb with
    | NewPurchase ?id ?st ?am ?me ?ev ?u ?c ?co ?cu ?pos = _ =>
        destruct (NewPurchase_cases id st am me ev u c co cu pos)
          as [[_ (d & H)] | [(_ & _ & H) | (_ & _ & H)]]
    end; rewrite H in Hb; simplify_eq; simpl; tauto.
Qed.

Lemma buildAdjustment_error_kinds (cmd : Command.t) (e : error) :
  Service.buildAdjustment cmd = Err e ->
  unwrap e = ErrNegativeAmount \/ unwrap e = ErrInvalidTransactionType
  \/ unwrap e = ErrOriginalTransactionRequired \/ unwrap e = ErrInvalidInput.
Proof.
  intros Hb.
  destruct (decide (Command.LocalAmount cmd < 0 \/ Command.TxAmount cmd < 0 \/
                    Command.SettlementAmount cmd < 0 \/ Command.OriginalAmount cmd < 0))
    as [Hneg | Hneg].
  - unfold Service.buildAdjustment in Hb.
    rewrite (four_amounts_negative cmd _ Hneg) in Hb. injection Hb as <-. by left.
  - unfold Service.buildAdjustment in Hb. rewrite (four_amounts_ok cmd _ Hneg) in Hb.
    match type of Hb with
    | NewAdjustment ?id ?ty ?st ?am ?me ?ev ?o ?u ?c ?co ?cu ?pos = _ =>
        destruct (NewAdjustment_cases id ty st am me ev o u c co cu pos)
          as [[_ H] | [(_ & _ & H) | [(_ & _ & _ & d & H) | (_ & _ & _ & H)]]]
    end; rewrite H in Hb; simplify_eq; simpl; tauto.
Qed.

Lemma sumExistingAdjustments_error_kind (adjs : list Adjustment.t)
    (currency : string) (e : error) :
  Service.sumExistingAdjustments adjs currency = Err e ->
  unwrap e = ErrCurrencyMismatch.
Proof.
  unfold Service.sumExistingAdjustments. rewrite NewMoney_ok by done. simpl.
  intros He.
  destruct (decide (Forall (fun adj => Adjustment.Status adj = StatusApproved ->
              Money.Currency (AmountBreakdown.Local (Adjustment.Amount adj))
              = Money.Currency (Money.mk 0 currency)) adjs)) as [Hu | Hu].
  - rewrite sumFrom_uniform in He by done. discriminate.
  - destruct (sumFrom_mismatch adjs _ Hu) as (e' & He' & Hs).
    rewrite He in He'. injection He' as <-.
    unfold errors_Is in Hs. by apply bool_decide_eq_true in Hs.
Qed.

Lemma ValidateAgainstPurchase_error_kinds
    (a : Adjustment.t) (original : Transaction.t) (existing : Money.t) (e : error) :
  Adjustment.ValidateAgainstPurchase a original existing = Some e ->
  unwrap e = ErrPurchaseNotApproved \/ unwrap e = ErrCurrencyMismatch
  \/ unwrap e = ErrExceedsOriginalAmount.
Proof.
  unfold Adjustment.ValidateAgainstPurchase.
  destruct (Transaction.CanReceiveAdjustment original); simpl;
    [| intros [= <-]; by left].
  case_bool_decide as Hst; [discriminate |].
  unfold Money.Add. case_bool_decide as Hc1; [intros [= <-]; right; by left |].
  unfold Money.GreaterThan. simpl.
  case_bool_decide as Hc2; [intros [= <-]; right; by left |].
  destruct (_ >? _); [| discriminate]. intros [= <-]. right. by right.
Qed.

Lemma prepareAdjustment_error_kinds (r : Repository.t) (cmd : Command.t) (e : error) :
  Service.prepareAdjustment r cmd = Err e ->
  unwrap e = ErrTransactionNotFound \/ unwrap e = ErrNegativeAmount
  \/ unwrap e = ErrInvalidTransactionType
  \/ unwrap e = ErrOriginalTransactionRequired \/ unwrap e = ErrInvalidInput
  \/ unwrap e = ErrCurrencyMismatch \/ unwrap e = ErrPurchaseNotApproved
  \/ unwrap e = ErrExceedsOriginalAmount.
Proof.
  unfold Service.prepareAdjustment, Repository.GetTransactionByID,
    Repository.GetAdjustmentsByTransactionID.
  destruct (Repository.transactions r !! _) as [p |]; simpl;
    [| intros [= <-]; by left].
  destruct (Service.buildAdjustment cmd) as [adj | e1] eqn:Hb; simpl.
  2:{ intros [= <-]. apply buildAdjustment_error_kinds in Hb. tauto. }
  destruct (Service.sumExistingAdjustments _ _) as [total | e2] eqn:Hs; simpl.
  2:{ intros [= <-]. apply sumExistingAdjustments_error_kind in Hs. tauto. }
  destruct (Adjustment.ValidateAgainstPurchase adj p total) as [e3 |] eqn:Hv;
    [| discriminate].
  intros [= <-]. apply ValidateAgainstPurchase_error_kinds in Hv. tauto.
Qed.

(** Every outcome of the service: a refusal that leaves the ledger alone,
    or one successful commit. *)
Lemma ProcessTransaction_outcome (r : Repository.t) (cmd : Command.t) :
  (Service.ProcessTransaction r cmd
   = (r, (Result.mk (Command.TransactionID cmd) true,
          Some (Plain ErrDuplicateIdempotencyKey)))) \/
  (exists e,
     Service.ProcessTransaction r cmd = (r, (Result.zero, Some e)) /\
     unwrap e <> ErrDuplicateIdempotencyKey) \/
  (exists c,
     apply_commit r c = ((Service.ProcessTransaction r cmd).1, None) /\
     (Service.ProcessTransaction r cmd).2
     = (Result.mk (Command.TransactionID cmd) false, None) /\
     commit_key c = Command.IdempotencyKey cmd /\
     commit_id c = Command.TransactionID cmd).
Proof.
  unfold Service.ProcessTransaction.
  case_bool_decide as Hp.
  - unfold Service.processPurchase.
    destruct (Repository.idempotencyKeys r !! Command.IdempotencyKey cmd)
      as [v |] eqn:Hk.
    { left. rewrite GetByIdempotencyKey_found; [done | by eexists]. }
    rewrite GetByIdempotencyKey_missing by done. right.
    destruct (Service.buildPurchase cmd) as [tx | e] eqn:Hb.
    2:{ left. exists e. split; [done |].
        apply buildPurchase_error_kinds in Hb. intros Heq. rewrite Heq in Hb.
        destruct Hb as [? | [? | ?]]; discriminate. }
    apply buildPurchase_stored in Hb as [Hst Hkey].
    assert (Hid : Transaction.ID tx = Command.TransactionID cmd) by apply Hst.
    destruct (Repository.transactions r !! Transaction.ID tx) as [old |] eqn:Hold.
    + left. rewrite SaveTransaction_duplicate_id;
        [| by rewrite Hkey | rewrite Hold; by eexists].
      simpl. by eexists.
    + right. exists (CommitTransaction tx). simpl.
      rewrite SaveTransaction_fresh by (by rewrite ?Hkey). simpl.
      by rewrite Hid.
  - destruct (_ || _).
    2:{ right. left. eexists; split; [reflexivity | done]. }
    unfold Service.processAdjustment.
    case_bool_decide as Ho.
    { right. left. eexists; split; [reflexivity | done]. }
    destruct (Repository.idempotencyKeys r !! Command.IdempotencyKey cmd)
      as [v |] eqn:Hk.
    { left. rewrite GetByIdempotencyKey_found; [done | by eexists]. }
    rewrite GetByIdempotencyKey_missing by done. right.
    destruct (Service.prepareAdjustment r cmd) as [adj | e] eqn:Ha.
    2:{ left. exists e. split; [done |].
        apply prepareAdjustment_error_kinds in Ha. intros Heq. rewrite Heq in Ha.
        repeat (destruct Ha as [Ha | Ha]; [discriminate |]). discriminate. }
    apply prepareAdjustment_inv in Ha as (p & total & _ & Hb & _ & _).
    apply buildAdjustment_stored in Hb as [Hadj _].
    assert (Hkey : Event.IdempotencyKey (Adjustment.Event adj)
                   = Command.IdempotencyKey cmd) by (by rewrite Hadj).
    assert (Hid : Adjustment.ID adj = Command.TransactionID cmd)
      by (by rewrite Hadj).
    right. exists (CommitAdjustment adj). simpl.
    rewrite SaveAdjustment_fresh by (by rewrite Hkey). simpl.
    by rewrite Hid.
Qed.

(** X14 (Service.ProcessTransaction).  An event either is refused and
    leaves the ledger exactly as it was, or is committed and records its
    idempotency key, which was not recorded before: the ledger changes
    if and only if no error is returned.  The result carries the event's
    transaction ID with Idempotent = false on success, the event's
    transaction ID with Idempotent = true exactly when the error is
    DuplicateIdempotencyKey, and is the zero value with every other
    error. *)
Theorem ledger_changes_iff_success (r : Repository.t) (cmd : Command.t) :
  let out := Service.ProcessTransaction r cmd in
  (out.2.2 = None <-> out.1 <> r) /\
  (out.2.2 = None ->
   out.2.1 = Result.mk (Command.TransactionID cmd) false /\
   Repository.GetByIdempotencyKey r (Command.IdempotencyKey cmd) = ("", false) /\
   Repository.GetByIdempotencyKey out.1 (Command.IdempotencyKey cmd)
   = (Command.TransactionID cmd, true)) /\
  (forall e, out.2.2 = Some e ->
     out.1 = r /\
     out.2.1 = (if errors_Is e ErrDuplicateIdempotencyKey
                then Result.mk (Command.TransactionID cmd) true
                else Result.zero)).
Proof.
  intros out.
  destruct (ProcessTransaction_outcome r cmd)
    as [H | [(e & H & Hne) | (c & Hc & Hres & Hkey & Hid)]]; fold out in H || idtac.
  - rewrite H. simpl. split; [split; [discriminate | done] |].
    split; [discriminate |]. by intros e [= <-].
  - rewrite H. simpl. split; [split; [discriminate | done] |].
    split; [discriminate |]. intros e' [= <-]. split; [done |].
    unfold errors_Is. by rewrite bool_decide_eq_false_2.
  - fold out in Hc, Hres.
    destruct (apply_commit_recordKeys r c) as (Hfresh & _ & _);
      [by rewrite Hc |].
    pose proof (apply_commit_success_records r out.1 c Hc) as [v Hv].
    assert (Hv' : Repository.idempotencyKeys out.1 !! Command.IdempotencyKey cmd
                  = Some (Command.TransactionID cmd)).
    { rewrite <- Hkey, <- Hid. clear -Hc. destruct c as [tx | adj]; simpl in *.
      - apply SaveTransaction_success_inv in Hc as (_ & _ & ->). simpl.
        apply lookup_insert_eq.
      - apply SaveAdjustment_success_inv in Hc as ->. simpl.
        apply lookup_insert_eq. }
    rewrite Hkey in Hfresh. rewrite Hres. simpl.
    split; [split; [intros _ Heq; rewrite Heq in Hv'; congruence | done] |].
    split; [| discriminate]. intros _. split; [done |].
    unfold Repository.GetByIdempotencyKey. by rewrite Hfresh, Hv'.
Qed.

(** X15 (Service.ProcessTransaction).  The errors an event can meet
    depend on its declared type.  A PURCHASE event fails only with
    DuplicateIdempotencyKey, NegativeAmount, InvalidInput,
    AmountOutOfRange or DuplicateTransactionID: its four currencies are
    never compared, so it never meets CurrencyMismatch.  A
    REVERSAL_PURCHASE or REFUND event fails only with
    OriginalTransactionRequired, DuplicateIdempotencyKey,
    TransactionNotFound, NegativeAmount, InvalidInput, CurrencyMismatch,
    PurchaseNotApproved or ExceedsOriginalAmount: it never meets
    DuplicateTransactionID or AmountOutOfRange.  Any other type fails
    with InvalidTransactionType. *)
Theorem error_kinds_by_event_type (r : Repository.t) (cmd : Command.t) (e : error) :
  (Service.ProcessTransaction r cmd).2.2 = Some e ->
  (Command.TransactionType_ cmd = TypePurchase ->
   unwrap e ∈ [ErrDuplicateIdempotencyKey; ErrNegativeAmount; ErrInvalidInput;
               ErrAmountOutOfRange; ErrDuplicateTransactionID]) /\
  (Command.TransactionType_ cmd = TypeReversalPurchase
   \/ Command.TransactionType_ cmd = TypeRefund ->
   unwrap e ∈ [ErrOriginalTransactionRequired; ErrDuplicateIdempotencyKey;
               ErrTransactionNotFound; ErrNegativeAmount; ErrInvalidInput;
               ErrCurrencyMismatch; ErrPurchaseNotApproved;
               ErrExceedsOriginalAmount]) /\
  (Command.TransactionType_ cmd <> TypePurchase ->
   Command.TransactionType_ cmd <> TypeReversalPurchase ->
   Command.TransactionType_ cmd <> TypeRefund ->
   unwrap e = ErrInvalidTransactionType).
Proof.
  intros He. split; [| split].
  - intros Ht. rewrite ProcessTransaction_purchase in He by done.
    unfold Service.processPurchase in He.
    destruct (Repository.idempotencyKeys r !! Command.IdempotencyKey cmd)
      as [v |] eqn:Hk.
    { rewrite GetByIdempotencyKey_found in He by (by eexists).
      injection He as <-. by repeat constructor. }
    rewrite GetByIdempotencyKey_missing in He by done.
    destruct (Service.buildPurchase cmd) as [tx | e1] eqn:Hb.
    2:{ injection He as <-. apply buildPurchase_error_kinds in Hb.
        destruct Hb as [-> | [-> | ->]]; by repeat constructor. }
    apply buildPurchase_stored in Hb as [_ Hkey].
    destruct (Repository.transactions r !! Transaction.ID tx) as [old |] eqn:Hold.
    + rewrite SaveTransaction_duplicate_id in He;
        [| by rewrite Hkey | rewrite Hold; by eexists].
      simpl in He. injection He as <-. by repeat constructor.
    + rewrite SaveTransaction_fresh in He by (by rewrite ?Hkey). discriminate.
  - intros Ht. rewrite ProcessTransaction_adjustment in He by done.
    unfold Service.processAdjustment in He.
    case_bool_decide as Ho; [injection He as <-; by repeat constructor |].
    destruct (Repository.idempotencyKeys r !! Command.IdempotencyKey cmd)
      as [v |] eqn:Hk.
    { rewrite GetByIdempotencyKey_found in He by (by eexists).
      injection He as <-. by repeat constructor. }
    rewrite GetByIdempotencyKey_missing in He by done.
    destruct (Service.prepareAdjustment r cmd) as [adj | e1] eqn:Ha.
    + apply prepareAdjustment_inv in Ha as (p & total & _ & Hb & _ & _).
      apply buildAdjustment_stored in Hb as [-> _].
      rewrite SaveAdjustment_fresh in He by done. discriminate.
    + injection He as <-.
      unfold Service.prepareAdjustment, Repository.GetTransactionByID,
        Repository.GetAdjustmentsByTransactionID in Ha.
      destruct (Repository.transactions r !! _) as [p |]; simpl in Ha;
        [| injection Ha as <-; by repeat constructor].
      destruct (Service.buildAdjustment cmd) as [adj | e2] eqn:Hb; simpl in Ha.
      2:{ injection Ha as <-.
          destruct (decide (Command.LocalAmount cmd < 0 \/ Command.TxAmount cmd < 0 \/
                            Command.SettlementAmount cmd < 0 \/
                            Command.OriginalAmount cmd < 0)) as [Hneg | Hneg].
          - unfold Service.buildAdjustment in Hb.
            rewrite (four_amounts_negative cmd _ Hneg) in Hb.
            injection Hb as <-. by repeat constructor.
          - unfold Service.buildAdjustment in Hb.
            rewrite (four_amounts_ok cmd _ Hneg) in Hb.
            match type of Hb with
            | NewAdjustment ?id ?ty ?st ?am ?me ?ev ?o ?u ?c ?co ?cu ?pos = _ =>
                destruct (NewAdjustment_cases id ty st am me ev o u c co cu pos)
                  as [[Hty _] | [(_ & Hoe & _) | [(_ & _ & _ & d & H)
                                                | (_ & _ & _ & H)]]]
            end; [done | done | | ]; rewrite H in Hb; simplify_eq. by repeat constructor. }
      destruct (Service.sumExistingAdjustments _ _) as [total | e3] eqn:Hs;
        simpl in Ha.
      2:{ injection Ha as <-. apply sumExistingAdjustments_error_kind in Hs.
          rewrite Hs. by repeat constructor. }
      destruct (Adjustment.ValidateAgainstPurchase adj p total) as [e4 |] eqn:Hv;
        [| discriminate].
      injection Ha as <-. apply ValidateAgainstPurchase_error_kinds in Hv.
      destruct Hv as [-> | [-> | ->]]; by repeat constructor.
  - intros Hp Hr Hf. unfold Service.ProcessTransaction in He.
    rewrite !bool_decide_eq_false_2 in He by done. simpl in He.
    by injection He as <-.
Qed.

Lemma error_kinds_by_event_type_witness :
  ErrAmountOutOfRange
  ∈ [ErrDuplicateIdempotencyKey; ErrNegativeAmount; ErrInvalidInput;
     ErrAmountOutOfRange; ErrDuplicateTransactionID].
Proof.
  refine (proj1 (error_kinds_by_event_type Repository.NewRepository
                   (makePurchaseCmd "tx1" "APPROVED" "idem1" 99)
                   (Plain ErrAmountOutOfRange) _) _).
  - vm_compute. reflexivity.
  - reflexivity.
Defined.


(** ** Approval gating *)

Lemma buildAdjustment_ok (cmd : Command.t) :
  Command.TransactionType_ cmd = TypeReversalPurchase
  \/ Command.TransactionType_ cmd = TypeRefund ->
  Command.OriginalTransactionID cmd <> "" ->
  ~ (Command.LocalAmount cmd < 0 \/ Command.TxAmount cmd < 0 \/
     Command.SettlementAmount cmd < 0 \/ Command.OriginalAmount cmd < 0) ->
  Command.TransactionID cmd <> "" /\ Command.EventID cmd <> "" /\
  Command.IdempotencyKey cmd <> "" ->
  succeeds (Service.buildAdjustment cmd).
Proof.
  intros Ht Ho Hneg Hids. unfold Service.buildAdjustment.
  rewrite (four_amounts_ok cmd _ Hneg).
  match goal with
  | |- succeeds (NewAdjustment ?id ?ty ?st ?am ?me ?ev ?o ?u ?c ?co ?cu ?pos) =>
      destruct (NewAdjustment_cases id ty st am me ev o u c co cu pos)
        as [[H _] | [(_ & H & _) | [(_ & _ & H & _) | (_ & _ & _ & ->)]]]
  end; [done | done | done | by eexists].
Qed.

(** X16 (Service.processAdjustment, Transaction.CanReceiveAdjustment).
    In a ledger built by the service, a stored purchase whose status is
    not APPROVED has no adjustments, and every otherwise valid
    adjustment event that references it (new key, non-negative amounts,
    identifiers present) is refused with PurchaseNotApproved, whatever
    its status, amount and currency, leaving the ledger unchanged. *)
Theorem unapproved_purchase_refuses_adjustments
    (r : Repository.t) (cmd : Command.t) (p : Transaction.t) :
  reachable r ->
  Command.TransactionType_ cmd = TypeReversalPurchase
  \/ Command.TransactionType_ cmd = TypeRefund ->
  Service.GetTransaction r (Command.OriginalTransactionID cmd) = Ok p ->
  Transaction.Status p <> StatusApproved ->
  Repository.idempotencyKeys r !! Command.IdempotencyKey cmd = None ->
  ~ (Command.LocalAmount cmd < 0 \/ Command.TxAmount cmd < 0 \/
     Command.SettlementAmount cmd < 0 \/ Command.OriginalAmount cmd < 0) ->
  Command.TransactionID cmd <> "" /\ Command.EventID cmd <> "" /\
  Command.IdempotencyKey cmd <> "" ->
  Repository.GetAdjustmentsByTransactionID r (Command.OriginalTransactionID cmd)
  = Ok [] /\
  Service.ProcessTransaction r cmd
  = (r, (Result.zero, Some (Plain ErrPurchaseNotApproved))).
Proof.
  intros Hreach Ht Hget Hst Hk Hneg Hids.
  destruct (reachable_well_formed r Hreach) as (Hpur & Hadj & _).
  assert (Hp : Repository.transactions r !! Command.OriginalTransactionID cmd
               = Some p).
  { unfold Service.GetTransaction, Repository.GetTransactionByID in Hget.
    destruct (Repository.transactions r !! _); [| discriminate].
    by injection Hget as ->. }
  assert (Ho : Command.OriginalTransactionID cmd <> "") by apply (Hpur _ _ Hp).
  assert (Hcan : Transaction.CanReceiveAdjustment p = false).
  { apply not_true_is_false. rewrite CanReceiveAdjustment_iff. tauto. }
  assert (Hnone : Repository.adjustmentsOf r (Command.OriginalTransactionID cmd)
                  = []).
  { unfold Repository.adjustmentsOf.
    destruct (Repository.adjustments r !! Command.OriginalTransactionID cmd)
      as [adjs |] eqn:Hl; [| done].
    destruct (Hadj _ _ Hl) as (_ & p' & Hp' & Happ & _).
    assert (p' = p) as -> by congruence.
    unfold Transaction.CanReceiveAdjustment in Hcan. congruence. }
  split; [unfold Repository.GetAdjustmentsByTransactionID; by rewrite Hnone |].
  rewrite ProcessTransaction_adjustment by done.
  rewrite (processAdjustment_after_lookup r cmd p Ho Hk Hp).
  destruct (buildAdjustment_ok cmd Ht Ho Hneg Hids) as [adj ->].
  rewrite Hnone. unfold Service.sumExistingAdjustments.
  rewrite NewMoney_ok by done. simpl.
  by rewrite ValidateAgainstPurchase_not_approved_purchase.
Qed.

Lemma unapproved_purchase_refuses_adjustments_witness :
  let r := run Repository.NewRepository
             [makePurchaseCmd "tx1" "REJECTED" "idem1" 1000] in
  Service.ProcessTransaction r
    (makeAdjustCmd "adj1" "REFUND" "APPROVED" "tx1" "idem-adj1" 500)
  = (r, (Result.zero, Some (Plain ErrPurchaseNotApproved))).
Proof.
  intros r.
  refine (proj2 (unapproved_purchase_refuses_adjustments r
                   (makeAdjustCmd "adj1" "REFUND" "APPROVED" "tx1" "idem-adj1" 500)
                   (Transaction.mk "tx1" "PURCHASE" "REJECTED"
                      (MemoryFixtures.makeAmountBreakdown 1000)
                      (Merchant.mk "m1" "" "" "Store" "" "")
                      (Event.mk "evt-tx1" 0 "idem1") ""
                      "u1" "card1" "BR" "BRL" "POS")
                   _ _ _ _ _ _ _)).
  - by eexists.
  - right. reflexivity.
  - vm_compute. reflexivity.
  - vm_compute. congruence.
  - vm_compute. reflexivity.
  - vm_compute. intros [H | [H | [H | H]]]; discriminate.
  - vm_compute. repeat split; congruence.
Defined.


(** ** The refund budget, away from overflow *)

(** X17 (Service.processAdjustment, Service.sumExistingAdjustments,
    Adjustment.ValidateAgainstPurchase).  For every sequence of events
    whose local amounts are at most 2^63 - 1 - 500000, and every
    purchase of the ledger they build: the approved adjustments of the
    purchase add up to at most its local amount (hence to at most
    500000), and the running total the service computes for the next
    event in the purchase's currency is exactly that sum. *)
Theorem budget_holds_below_overflow
    (cmds : list Command.t) (id : string) (p : Transaction.t) :
  Forall amount_bounded cmds ->
  let r := run Repository.NewRepository cmds in
  Service.GetTransaction r id = Ok p ->
  let purchaseLocal := AmountBreakdown.Local (Transaction.Amount p) in
  let existing := Repository.adjustmentsOf r id in
  0 <= approvedTotal existing <= Money.Amount purchaseLocal /\
  Money.Amount purchaseLocal <= MaxPurchaseAmount /\
  Service.sumExistingAdjustments existing (Money.Currency purchaseLocal)
  = Ok (Money.mk (approvedTotal existing) (Money.Currency purchaseLocal)).
Proof.
  intros Hb r Hget purchaseLocal existing.
  assert (Hreach : reachable r) by (by exists cmds).
  destruct (reachable_well_formed r Hreach) as (Hpur & Hadj & _).
  assert (Hp : Repository.transactions r !! id = Some p).
  { unfold Service.GetTransaction, Repository.GetTransactionByID in Hget.
    destruct (Repository.transactions r !! id); [| discriminate].
    by injection Hget as ->. }
  pose proof (budget_respected_without_overflow cmds Hb id p Hp) as Hle.
  fold r existing purchaseLocal in Hle.
  assert (Hrange : MinPurchaseAmount <= Money.Amount purchaseLocal
                   <= MaxPurchaseAmount) by apply (Hpur _ _ Hp).
  assert (Hall : Forall (stored_adjustment id p) existing).
  { unfold existing, Repository.adjustmentsOf.
    destruct (Repository.adjustments r !! id) as [adjs |] eqn:Hl; simpl;
      [| constructor].
    destruct (Hadj _ _ Hl) as (_ & p' & Hp' & _ & Hall).
    assert (p' = p) as -> by congruence. done. }
  assert (Hnn : 0 <= approvedTotal existing).
  { apply approvedTotal_nonneg. eapply Forall_impl; [exact Hall |].
    intros adj Hs. apply Hs. }
  split; [lia |]. split; [lia |].
  unfold Service.sumExistingAdjustments. rewrite NewMoney_ok by done. simpl.
  rewrite sumFrom_uniform; simpl; [| | done].
  - rewrite wrap64_in_range; [done |].
    unfold in_int64, int64_min, int64_max, MaxPurchaseAmount in *. lia.
  - eapply Forall_impl; [exact Hall |]. intros adj Hs. apply Hs.
Qed.

Lemma budget_holds_below_overflow_witness :
  let cmds := [makePurchaseCmd "tx1" "APPROVED" "idem1" 1000;
               makeAdjustCmd "adj1" "REFUND" "APPROVED" "tx1" "idem-adj1" 400] in
  let r := run Repository.NewRepository cmds in
  Service.sumExistingAdjustments (Repository.adjustmentsOf r "tx1") "BRL"
  = Ok (Money.mk (approvedTotal (Repository.adjustmentsOf r "tx1")) "BRL").
Proof.
  intros cmds r.
  refine (proj2 (proj2 (budget_holds_below_overflow cmds "tx1"
                          (MemoryFixtures.makePurchase "tx1" "idem1" 1000) _ _))).
  - repeat constructor; vm_compute; discriminate.
  - vm_compute. reflexivity.
Defined.

(** ** Goroutines: every run is a sequential run, and every run ends *)

Lemma history_from (pre ops : list commit) :
  omap (fun i => (pre ++ ops) !! i) (seq (length pre) (length ops)) = ops.
Proof.
  revert pre. induction ops as [| o ops IH]; intros pre; [done |].
  simpl. rewrite lookup_app_r by lia. rewrite Nat.sub_diag. simpl.
  f_equal. specialize (IH (pre ++ [o])).
  rewrite length_app, <- app_assoc in IH. simpl in IH.
  by rewrite Nat.add_1_r in IH.
Qed.

Lemma history_all (ops : list commit) :
  Concurrent.history ops (seq 0 (length ops)) = ops.
Proof. apply (history_from [] ops). Qed.

(** X18 (Repository.SaveTransaction, Repository.SaveAdjustment under
    r.mu).  When every goroutine has returned, whatever the
    interleaving was: the mutex is free, and there is an order of all
    the goroutines, each exactly once, such that the ledger is the one
    the calls leave when made one after the other in that order, and
    each goroutine returned the error its call returns there. *)
Theorem finished_run_is_sequential
    (r0 : Repository.t) (ops : list commit) (c : Concurrent.config) :
  Concurrent.reachable r0 ops c ->
  (forall i pt, Concurrent.points c !! i = Some pt ->
                exists res, pt = Concurrent.Returned res) ->
  Concurrent.holder c = None /\
  exists order,
    order ≡ₚ seq 0 (length ops) /\
    Concurrent.history ops order ≡ₚ ops /\
    Concurrent.ledger c = (commits r0 (Concurrent.history ops order)).1 /\
    forall n i, order !! n = Some i ->
      exists e, (commits r0 (Concurrent.history ops order)).2 !! n = Some e /\
                Concurrent.returned c i e.
Proof.
  intros Hreach Hdone.
  destruct (agrees_reachable _ _ _ Hreach)
    as [order (Hlen & Hnd & Hret & Hin & Hhold)].
  assert (Hfree : Concurrent.holder c = None).
  { destruct (Concurrent.holder c) as [h |]; [| done].
    destruct Hhold as [(o & pt & _ & Hpt & Hprog) _].
    destruct (Hdone _ _ Hpt) as [res ->]. destruct Hprog. }
  split; [done |]. rewrite Hfree in Hhold. destruct Hhold as [Hledger _].
  assert (Hperm : order ≡ₚ seq 0 (length ops)).
  { apply NoDup_Permutation; [done | apply NoDup_seq |].
    intros i. rewrite elem_of_seq. split.
    - intros Hi. apply list_elem_of_lookup in Hi as [n Hn].
      destruct (Hret _ _ Hn) as (e & _ & Hpt).
      apply lookup_lt_Some in Hpt. lia.
    - intros [_ Hi]. simpl in Hi. rewrite <- Hlen in Hi.
      apply lookup_lt_is_Some_2 in Hi as [pt Hpt].
      destruct (Hdone _ _ Hpt) as [res ->]. by apply (Hin i res). }
  exists order. split; [done |]. split.
  - unfold Concurrent.history. rewrite Hperm. fold (Concurrent.history ops (seq 0 (length ops))).
    by rewrite history_all.
  - split; [done |]. intros n i Hn. destruct (Hret _ _ Hn) as (e & He & Hpt).
    by exists e.
Qed.

Lemma finished_run_is_sequential_witness :
  let tx := MemoryFixtures.makePurchase "tx1" "idem1" 1000 in
  let ops := [CommitTransaction tx] in
  let c := Concurrent.mk (apply_commit Repository.NewRepository (CommitTransaction tx)).1
             None [Concurrent.Returned None] in
  Concurrent.holder c = None /\
  exists order,
    order ≡ₚ seq 0 (length ops) /\
    Concurrent.history ops order ≡ₚ ops /\
    Concurrent.ledger c
    = (commits Repository.NewRepository (Concurrent.history ops order)).1 /\
    forall n i, order !! n = Some i ->
      exists e, (commits Repository.NewRepository
                   (Concurrent.history ops order)).2 !! n = Some e /\
                Concurrent.returned c i e.
Proof.
  intros tx ops c.
  apply (finished_run_is_sequential Repository.NewRepository ops c).
  - unfold Concurrent.reachable.
    eapply rtc_l; [apply (Concurrent.step_lock ops _ 0); reflexivity |].
    eapply rtc_l;
      [apply (Concurrent.step_inside ops _ 0 (CommitTransaction tx)
                Concurrent.AtCheckKey); reflexivity |].
    eapply rtc_l;
      [apply (Concurrent.step_inside ops _ 0 (CommitTransaction tx)
                Concurrent.AtCheckID); reflexivity |].
    eapply rtc_l;
      [apply (Concurrent.step_inside ops _ 0 (CommitTransaction tx)
                Concurrent.AtPutKey); reflexivity |].
    eapply rtc_l;
      [apply (Concurrent.step_inside ops _ 0 (CommitTransaction tx)
                Concurrent.AtPutValue); reflexivity |].
    eapply rtc_l; [apply (Concurrent.step_unlock ops _ 0 None); reflexivity |].
    apply rtc_refl.
  - intros [| i] pt Hpt; [| done]. injection Hpt as <-. by exists None.
Defined.

Lemma weight_insert (pts : list Concurrent.point) (i : nat)
    (pt pt' : Concurrent.point) :
  pts !! i = Some pt ->
  (sum_list (Concurrent.remaining <$> <[i := pt']> pts)
   + Concurrent.remaining pt
   = sum_list (Concurrent.remaining <$> pts) + Concurrent.remaining pt')%nat.
Proof.
  revert i. induction pts as [| q pts IH]; intros [| i] Hi; try done.
  - injection Hi as ->.
    change (<[0%nat := pt']> (pt :: pts)) with (pt' :: pts).
    rewrite !fmap_cons. simpl sum_list. lia.
  - change ((q :: pts) !! S i) with (pts !! i) in Hi.
    specialize (IH i Hi).
    change (<[S i := pt']> (q :: pts)) with (q :: <[i := pt']> pts).
    rewrite !fmap_cons. simpl sum_list. lia.
Qed.

Lemma inside_remaining (o : commit) (pt pt' : Concurrent.point)
    (r r' : Repository.t) :
  Concurrent.inside o pt r = Some (pt', r') ->
  (Concurrent.remaining pt' < Concurrent.remaining pt)%nat.
Proof.
  destruct pt; simpl; try done.
  - destruct (Repository.idempotencyKeys r !! commit_key o);
      [| destruct o]; intros; simplify_eq; simpl; lia.
  - destruct o; [| done].
    destruct (Repository.transactions r !! Transaction.ID tx);
      intros; simplify_eq; simpl; lia.
  - intros; simplify_eq; simpl; lia.
  - intros; simplify_eq; simpl; lia.
Qed.

(** X19 (Repository.SaveTransaction, Repository.SaveAdjustment under
    r.mu).  The commits never deadlock and never run forever: from any
    reachable configuration in which some goroutine has not returned,
    a goroutine can take a step, and every step lowers the number of
    statements left to run, which starts at six per goroutine. *)
Theorem commits_always_finish
    (r0 : Repository.t) (ops : list commit) (c : Concurrent.config) :
  Concurrent.reachable r0 ops c ->
  Concurrent.weight (Concurrent.start r0 ops) = (6 * length ops)%nat /\
  (forall c', Concurrent.step ops c c' ->
              (Concurrent.weight c' < Concurrent.weight c)%nat) /\
  ((exists i pt, Concurrent.points c !! i = Some pt /\
                 forall res, pt <> Concurrent.Returned res) ->
   exists c', Concurrent.step ops c c').
Proof.
  intros Hreach. split; [| split].
  - unfold Concurrent.weight, Concurrent.start. simpl.
    induction (length ops) as [| n IH]; [done |].
    rewrite replicate_S, fmap_cons. simpl sum_list. simpl Concurrent.remaining.
    rewrite IH. lia.
  - intros c' Hstep. unfold Concurrent.weight.
    destruct Hstep as [c i Hpt _ | c i o pt pt' r' _ Hpt Hin | c i res Hpt]; simpl.
    + pose proof (weight_insert _ _ _ Concurrent.AtCheckKey Hpt) as Hw.
      simpl in Hw. lia.
    + pose proof (weight_insert _ _ _ pt' Hpt) as Hw.
      pose proof (inside_remaining _ _ _ _ _ Hin). lia.
    + pose proof (weight_insert _ _ _ (Concurrent.Returned res) Hpt) as Hw.
      simpl in Hw. lia.
  - intros (i & pt & Hpt & Hnot).
    destruct (agrees_reachable _ _ _ Hreach)
      as [order (_ & _ & _ & _ & Hhold)].
    destruct (Concurrent.holder c) as [h |] eqn:Hh.
    + destruct Hhold as [(o & q & Ho & Hq & Hprog) _].
      assert (Hmove : forall q',
                (exists pt' r', Concurrent.inside o q' (Concurrent.ledger c)
                                = Some (pt', r')) ->
                Concurrent.points c !! h = Some q' ->
                exists c', Concurrent.step ops c c').
      { intros q' (pt' & r' & Hin) Hq'. eexists.
        by apply (Concurrent.step_inside ops c h o q' pt' r'). }
      destruct q as [| | | | | res | res]; simpl in Hprog; try done.
      * apply (Hmove Concurrent.AtCheckKey); [| done]. simpl.
        destruct (Repository.idempotencyKeys (Concurrent.ledger c) !! commit_key o);
          [by eexists _, _ | destruct o; by eexists _, _].
      * destruct Hprog as (_ & _ & tx & ->).
        apply (Hmove Concurrent.AtCheckID); [| done]. simpl.
        destruct (Repository.transactions (Concurrent.ledger c) !! Transaction.ID tx);
          by eexists _, _.
      * apply (Hmove Concurrent.AtPutKey); [| done]. by eexists _, _.
      * apply (Hmove Concurrent.AtPutValue); [| done]. by eexists _, _.
      * eexists. by apply (Concurrent.step_unlock ops c h res).
    + destruct Hhold as [_ Hidle].
      destruct (Hidle _ _ Hpt) as [-> | [res ->]].
      * eexists. by apply (Concurrent.step_lock ops c i).
      * by destruct (Hnot res).
Qed.

Lemma commits_always_finish_witness :
  let ops := [CommitTransaction (MemoryFixtures.makePurchase "tx1" "idem1" 1000)] in
  let c := Concurrent.start Repository.NewRepository ops in
  Concurrent.weight c = 6%nat /\
  exists c', Concurrent.step ops c c'.
Proof.
  intros ops c.
  destruct (commits_always_finish Repository.NewRepository ops c (rtc_refl _ _))
    as (Hw & _ & Hstep).
  split; [exact Hw |]. apply Hstep.
  exists 0%nat, Concurrent.AtLock. split; [reflexivity | discriminate].
Defined.


(** ** The HTTP adapter *)

Lemma buildPurchase_invalid_input (cmd : Command.t) (e : error) :
  Service.buildPurchase cmd = Err e ->
  unwrap e = ErrInvalidInput ->
  ~ (Command.TransactionID cmd <> "" /\ Command.EventID cmd <> "" /\
     Command.IdempotencyKey cmd <> "").
Proof.
  intros Hb Hu.
  destruct (decide (Command.LocalAmount cmd < 0 \/ Command.TxAmount cmd < 0 \/
                    Command.SettlementAmount cmd < 0 \/ Command.OriginalAmount cmd < 0))
    as [Hneg | Hneg].
  - unfold Service.buildPurchase in Hb.
    rewrite (four_amounts_negative cmd _ Hneg) in Hb. by simplify_eq.
  - unfold Service.buildPurchase in Hb. rewrite (four_amounts_ok cmd _ Hneg) in Hb.
    match type of Hb with
    | NewPurchase ?id ?st ?am ?me ?ev ?u ?c ?co ?cu ?pos = _ =>
        destruct (NewPurchase_cases id st am me ev u c co cu pos)
          as [[Hids _] | [(_ & _ & H) | (_ & _ & H)]]
    end; [exact Hids | |]; rewrite H in Hb; by simplify_eq.
Qed.

Lemma buildAdjustment_invalid_input (cmd : Command.t) (e : error) :
  Service.buildAdjustment cmd = Err e ->
  unwrap e = ErrInvalidInput ->
  ~ (Command.TransactionID cmd <> "" /\ Command.EventID cmd <> "" /\
     Command.IdempotencyKey cmd <> "").
Proof.
  intros Hb Hu.
  destruct (decide (Command.LocalAmount cmd < 0 \/ Command.TxAmount cmd < 0 \/
                    Command.SettlementAmount cmd < 0 \/ Command.OriginalAmount cmd < 0))
    as [Hneg | Hneg].
  - unfold Service.buildAdjustment in Hb.
    rewrite (four_amounts_negative cmd _ Hneg) in Hb. by simplify_eq.
  - unfold Service.buildAdjustment in Hb. rewrite (four_amounts_ok cmd _ Hneg) in Hb.
    match type of Hb with
    | NewAdjustment ?id ?ty ?st ?am ?me ?ev ?o ?u ?c ?co ?cu ?pos = _ =>
        destruct (NewAdjustment_cases id ty st am me ev o u c co cu pos)
          as [[_ H] | [(_ & _ & H) | [(_ & _ & Hids & _) | (_ & _ & _ & H)]]]
    end; [| | exact Hids |]; rewrite H in Hb; by simplify_eq.
Qed.

(** The service answers InvalidInput only to a command with an empty
    transaction ID, event ID or idempotency key. *)
Lemma ProcessTransaction_invalid_input (r : Repository.t) (cmd : Command.t) (e : error) :
  (Service.ProcessTransaction r cmd).2.2 = Some e ->
  unwrap e = ErrInvalidInput ->
  ~ (Command.TransactionID cmd <> "" /\ Command.EventID cmd <> "" /\
     Command.IdempotencyKey cmd <> "").
Proof.
  unfold Service.ProcessTransaction.
  case_bool_decide as Hp.
  - destruct (Repository.idempotencyKeys r !! Command.IdempotencyKey cmd)
      as [v |] eqn:Hk.
    { unfold Service.processPurchase.
      rewrite GetByIdempotencyKey_found by (by eexists).
      simpl. intros [= <-]. done. }
    rewrite processPurchase_after_check by done.
    destruct (Service.buildPurchase cmd) as [tx | e1] eqn:Hb.
    + destruct (Repository.transactions r !! Transaction.ID tx); simpl;
        [intros [= <-]; done | done].
    + simpl. intros [= <-]. by apply buildPurchase_invalid_input.
  - destruct (_ || _); [| simpl; intros [= <-]; done].
    unfold Service.processAdjustment.
    case_bool_decide as Ho; [simpl; intros [= <-]; done |].
    destruct (Repository.idempotencyKeys r !! Command.IdempotencyKey cmd)
      as [v |] eqn:Hk.
    { rewrite GetByIdempotencyKey_found by (by eexists).
      simpl. intros [= <-]. done. }
    rewrite GetByIdempotencyKey_missing by done.
    destruct (Service.prepareAdjustment r cmd) as [adj | e1] eqn:Ha.
    + apply prepareAdjustment_inv in Ha as (p & total & _ & Hb & _ & _).
      apply buildAdjustment_stored in Hb as [Hadj _].
      rewrite SaveAdjustment_fresh by (by rewrite Hadj). done.
    + simpl. intros [= <-] Hu.
      unfold Service.prepareAdjustment, Repository.GetTransactionByID,
        Repository.GetAdjustmentsByTransactionID in Ha.
      destruct (Repository.transactions r !! _) as [p |]; simpl in Ha;
        [| by simplify_eq].
      destruct (Service.buildAdjustment cmd) as [adj | e0] eqn:Hb; simpl in Ha.
      2:{ simplify_eq. by eapply buildAdjustment_invalid_input. }
      destruct (Service.sumExistingAdjustments _ _) as [total | e2] eqn:Hs;
        simpl in Ha.
      2:{ simplify_eq. apply sumExistingAdjustments_error_kind in Hs. congruence. }
      destruct (Adjustment.ValidateAgainstPurchase adj p total) as [e3 |] eqn:Hv;
        [| discriminate].
      simplify_eq. apply ValidateAgainstPurchase_error_kinds in Hv.
      rewrite Hu in Hv. repeat (destruct Hv as [Hv | Hv]; [discriminate |]).
      discriminate.
Qed.

(** An event of another type than PURCHASE leaves the purchases alone. *)
Lemma adjustment_keeps_transactions (r : Repository.t) (cmd : Command.t) :
  Command.TransactionType_ cmd <> TypePurchase ->
  Repository.transactions (Service.ProcessTransaction r cmd).1
  = Repository.transactions r.
Proof.
  intros Ht. unfold Service.ProcessTransaction.
  rewrite bool_decide_eq_false_2 by done.
  destruct (_ || _); [| done].
  unfold Service.processAdjustment.
  case_bool_decide as Ho; [done |].
  destruct (Repository.idempotencyKeys r !! Command.IdempotencyKey cmd)
    as [v |] eqn:Hk.
  { by rewrite GetByIdempotencyKey_found by (by eexists). }
  rewrite GetByIdempotencyKey_missing by done.
  destruct (Service.prepareAdjustment r cmd) as [adj | e1] eqn:Ha; [| done].
  apply prepareAdjustment_inv in Ha as (p & total & _ & Hb & _ & _).
  apply buildAdjustment_stored in Hb as [Hadj _].
  rewrite SaveAdjustment_fresh by (by rewrite Hadj). done.
Qed.

Lemma ToCommand_ok (parseRFC3339 : string -> string + Z)
    (quote : string -> string) (d : WebhookRequestDTO.t) (createdAt : Z) :
  presentable d ->
  parseRFC3339 (DTOEvent.CreatedAt (WebhookRequestDTO.Event d)) = inr createdAt ->
  exists cmd, HTTP.ToCommand parseRFC3339 quote d = inr cmd /\ copied d createdAt cmd.
Proof.
  intros (Hid & Hty & Hev & Hkey & Hst) Hp. unfold HTTP.ToCommand.
  rewrite !(bool_decide_eq_false_2 (_ = "")) by done.
  assert (Hs : bool_decide (WebhookRequestDTO.Status d <> "APPROVED")
               && bool_decide (WebhookRequestDTO.Status d <> "REJECTED") = false).
  { destruct Hst as [-> | ->]; done. }
  rewrite Hs, Hp. eexists. split; [reflexivity |]. unfold copied. simpl. tauto.
Qed.

Lemma ToCommand_inv (parseRFC3339 : string -> string + Z)
    (quote : string -> string) (d : WebhookRequestDTO.t) (cmd : Command.t) :
  HTTP.ToCommand parseRFC3339 quote d = inr cmd ->
  presentable d /\
  exists createdAt,
    parseRFC3339 (DTOEvent.CreatedAt (WebhookRequestDTO.Event d)) = inr createdAt /\
    copied d createdAt cmd.
Proof.
  unfold HTTP.ToCommand, presentable.
  case_bool_decide as Hid; [discriminate |].
  case_bool_decide as Hty; [discriminate |].
  case_bool_decide as Hev; [discriminate |].
  case_bool_decide as Hkey; [discriminate |].
  destruct (decide (WebhookRequestDTO.Status d = "APPROVED")) as [Ha | Ha];
    [| destruct (decide (WebhookRequestDTO.Status d = "REJECTED")) as [Hr | Hr]].
  3:{ rewrite !bool_decide_eq_true_2 by done. discriminate. }
  all: match goal with
       | |- context [bool_decide (?s <> "APPROVED") && bool_decide (?s <> "REJECTED")] =>
           replace (bool_decide (s <> "APPROVED") && bool_decide (s <> "REJECTED"))
             with false
       end.
  2:{ symmetry. rewrite (bool_decide_eq_false_2 (_ <> "APPROVED")); [done | tauto]. }
  3:{ symmetry. rewrite (bool_decide_eq_false_2 (_ <> "REJECTED")); [| tauto].
      apply andb_false_r. }
  all: destruct (parseRFC3339 _) as [err | t] eqn:Hp; [discriminate |];
    intros [= <-]; unfold StatusApproved, StatusRejected;
    (split; [tauto |]); exists t; split; [done |];
    unfold copied; simpl; tauto.
Qed.

(** X20 (WebhookRequestDTO.ToCommand).  A request becomes a command
    exactly when its id, type, event id and idempotency key are not
    empty, its status is APPROVED or REJECTED, and its creation time
    parses; the command then carries every field of the request
    unchanged, with the parsed time.  Neither the amounts nor the
    spelling of the type are examined here. *)
Theorem ToCommand_outcomes (parseRFC3339 : string -> string + Z)
    (quote : string -> string) (d : WebhookRequestDTO.t) :
  let res := HTTP.ToCommand parseRFC3339 quote d in
  let created := parseRFC3339 (DTOEvent.CreatedAt (WebhookRequestDTO.Event d)) in
  ((exists cmd, res = inr cmd) <->
   presentable d /\ exists createdAt, created = inr createdAt) /\
  (forall cmd, res = inr cmd ->
     exists createdAt, created = inr createdAt /\ copied d createdAt cmd) /\
  (forall createdAt,
     presentable d -> created = inr createdAt ->
     forall localTotal typ,
       let d' :=
         WebhookRequestDTO.mk (WebhookRequestDTO.ID d) typ
           (WebhookRequestDTO.Status d)
           (DTOAmounts.mk
              (DTOAmount.mk localTotal
                 (DTOAmount.Currency (DTOAmounts.Local (WebhookRequestDTO.Amount d))))
              (DTOAmounts.Transaction (WebhookRequestDTO.Amount d))
              (DTOAmounts.Settlement (WebhookRequestDTO.Amount d))
              (DTOAmounts.Original (WebhookRequestDTO.Amount d)))
           (WebhookRequestDTO.Merchant d) (WebhookRequestDTO.Event d)
           (WebhookRequestDTO.OriginalTransactionID d)
           (WebhookRequestDTO.UserID d) (WebhookRequestDTO.CardID d)
           (WebhookRequestDTO.Country d) (WebhookRequestDTO.Currency d)
           (WebhookRequestDTO.PointOfSale d) in
       typ <> "" ->
       exists cmd, HTTP.ToCommand parseRFC3339 quote d' = inr cmd /\
                   Command.LocalAmount cmd = localTotal /\
                   Command.TransactionType_ cmd = typ).
Proof.
  intros res created. split; [split |]; [| | split].
  - intros [cmd Hcmd]. apply ToCommand_inv in Hcmd as (Hpres & t & Ht & _).
    split; [done | by exists t].
  - intros (Hpres & t & Ht).
    destruct (ToCommand_ok parseRFC3339 quote d t Hpres Ht) as (cmd & Hcmd & _).
    by exists cmd.
  - intros cmd Hcmd. by apply ToCommand_inv in Hcmd as (_ & t & Ht & Hc); exists t.
  - intros t (Hid & _ & Hev & Hkey & Hst) Ht localTotal typ d' Htyp.
    destruct (ToCommand_ok parseRFC3339 quote d' t) as (cmd & Hcmd & Hc); [done | done |].
    exists cmd. split; [done |]. unfold copied in Hc. simpl in Hc. tauto.
Qed.

Lemma handleDomainError_refusal (e : error) (result : Result.t) :
  unwrap e <> ErrDuplicateIdempotencyKey ->
  unwrap e <> ErrInvalidInput ->
  exists st code,
    HTTP.handleDomainError e result
    = HTTP.mkResponse st (HTTP.ErrorPayload (ErrorResponseDTO.mk (errorText e) code)) /\
    st ∈ [HTTP.StatusBadRequest; HTTP.StatusNotFound; HTTP.StatusConflict;
          HTTP.StatusUnprocessableEntity] /\
    code ∈ ["NOT_FOUND"; "EXCEEDS_ORIGINAL_AMOUNT"; "PURCHASE_NOT_APPROVED";
            "DUPLICATE_TRANSACTION_ID"; "AMOUNT_OUT_OF_RANGE"; "NEGATIVE_AMOUNT";
            "ORIGINAL_TRANSACTION_REQUIRED"; "CURRENCY_MISMATCH";
            "INVALID_TRANSACTION_TYPE"].
Proof.
  intros Hd Hi. unfold HTTP.handleDomainError, errors_Is.
  destruct (unwrap e) eqn:Hu; try done; simpl;
    eexists _, _; (split; [reflexivity |]); split; by repeat constructor.
Qed.

(** X21 (Handler.handleDomainError).  The switch covers every error of
    the domain: no domain error reaches the default branch, so none is
    answered 500.  DuplicateIdempotencyKey alone is answered 200, with
    the transaction ID of the result and Idempotent = true; every other
    error is answered 400, 404, 409 or 422 with the error's own text,
    and its code names its sentinel: two errors answered with the same
    code wrap the same sentinel. *)
Theorem handleDomainError_covers_domain (e : error) (result : Result.t) :
  let resp := HTTP.handleDomainError e result in
  HTTP.status resp <> HTTP.StatusInternalServerError /\
  codeOf resp <> Some "INTERNAL_ERROR" /\
  (unwrap e = ErrDuplicateIdempotencyKey ->
   resp = HTTP.mkResponse HTTP.StatusOK
            (HTTP.WebhookPayload
               (WebhookResponseDTO.mk (Result.TransactionID result) true
                  "duplicate event, already processed"))) /\
  (unwrap e <> ErrDuplicateIdempotencyKey ->
   HTTP.status resp ∈ [HTTP.StatusBadRequest; HTTP.StatusNotFound;
                       HTTP.StatusConflict; HTTP.StatusUnprocessableEntity] /\
   exists code,
     HTTP.body resp = HTTP.ErrorPayload (ErrorResponseDTO.mk (errorText e) code)) /\
  (HTTP.status resp = HTTP.StatusNotFound <-> unwrap e = ErrTransactionNotFound) /\
  (HTTP.status resp = HTTP.StatusConflict <->
   unwrap e ∈ [ErrExceedsOriginalAmount; ErrPurchaseNotApproved;
               ErrDuplicateTransactionID]) /\
  (HTTP.status resp = HTTP.StatusUnprocessableEntity <->
   unwrap e = ErrAmountOutOfRange) /\
  (forall e' result',
     codeOf resp <> None ->
     codeOf (HTTP.handleDomainError e' result') = codeOf resp ->
     unwrap e' = unwrap e).
Proof.
  intros resp. subst resp. unfold HTTP.handleDomainError, errors_Is.
  destruct (unwrap e) eqn:Hu; simpl;
    (split; [done |]); (split; [done |]); (split; [done |]);
    (split; [first [done | intros _; split; [by repeat constructor | by eexists]] |]);
    (split; [done |]);
    (split; [split; [first [done | intros _; by repeat constructor]
                    | intros Hin; first [done | by (repeat (apply elem_of_cons in Hin as [Hin | Hin]; [discriminate |]); inversion Hin)]] |]);
    (split; [done |]);
    intros e' result' Hne; try done;
    destruct (unwrap e') eqn:Hu'; simpl; unfold codeOf; simpl; done.
Qed.

Lemma handleWebhook_with_command (parseRFC3339 : string -> string + Z)
    (quote : string -> string) (r : Repository.t) (d : WebhookRequestDTO.t)
    (cmd : Command.t) :
  HTTP.ToCommand parseRFC3339 quote d = inr cmd ->
  HTTP.handleWebhook parseRFC3339 quote r (Some d)
  = match Service.ProcessTransaction r cmd with
    | (r', (result, Some err)) => (r', HTTP.handleDomainError err result)
    | (r', (result, None)) =>
        (r', HTTP.mkResponse HTTP.StatusOK
               (HTTP.WebhookPayload
                  (WebhookResponseDTO.mk (Result.TransactionID result) false
                     "transaction processed")))
    end.
Proof. intros Hcmd. unfold HTTP.handleWebhook. by rewrite Hcmd. Qed.

(** X22 (Handler.handleWebhook, with Service as the use case).  Every
    webhook request gets one of three answers.  Processed: 200 with the
    request's id and Idempotent = false, and the ledger is the old one
    after one successful commit under the request's id and idempotency
    key.  Duplicate: 200 with the request's id and Idempotent = true,
    ledger unchanged.  Refused: an error body with status 400, 404, 409
    or 422, ledger unchanged.  The request is never answered 500, and
    never with the codes INVALID_INPUT or INTERNAL_ERROR: the empty
    identifiers the domain would call invalid input are refused
    earlier, as VALIDATION_ERROR. *)
Theorem handleWebhook_answers (parseRFC3339 : string -> string + Z)
    (quote : string -> string) (r : Repository.t)
    (decoded : option WebhookRequestDTO.t) :
  let out := HTTP.handleWebhook parseRFC3339 quote r decoded in
  (exists d c,
     decoded = Some d /\
     apply_commit r c = (out.1, None) /\
     commit_id c = WebhookRequestDTO.ID d /\
     commit_key c = DTOEvent.IdempotencyKey (WebhookRequestDTO.Event d) /\
     out.2 = HTTP.mkResponse HTTP.StatusOK
               (HTTP.WebhookPayload
                  (WebhookResponseDTO.mk (WebhookRequestDTO.ID d) false
                     "transaction processed"))) \/
  (exists d,
     decoded = Some d /\ out.1 = r /\
     out.2 = HTTP.mkResponse HTTP.StatusOK
               (HTTP.WebhookPayload
                  (WebhookResponseDTO.mk (WebhookRequestDTO.ID d) true
                     "duplicate event, already processed"))) \/
  (out.1 = r /\
   exists st msg code,
     out.2 = HTTP.mkResponse st (HTTP.ErrorPayload (ErrorResponseDTO.mk msg code)) /\
     st ∈ [HTTP.StatusBadRequest; HTTP.StatusNotFound; HTTP.StatusConflict;
           HTTP.StatusUnprocessableEntity] /\
     code ∈ ["BAD_REQUEST"; "VALIDATION_ERROR"; "NOT_FOUND";
             "EXCEEDS_ORIGINAL_AMOUNT"; "PURCHASE_NOT_APPROVED";
             "DUPLICATE_TRANSACTION_ID"; "AMOUNT_OUT_OF_RANGE"; "NEGATIVE_AMOUNT";
             "ORIGINAL_TRANSACTION_REQUIRED"; "CURRENCY_MISMATCH";
             "INVALID_TRANSACTION_TYPE"]).
Proof.
  intros out. subst out.
  destruct decoded as [d |].
  2:{ right. right. split; [done |]. eexists _, _, _.
      split; [reflexivity |]. split; by repeat constructor. }
  destruct (HTTP.ToCommand parseRFC3339 quote d) as [msg | cmd] eqn:Hcmd.
  { right. right. unfold HTTP.handleWebhook. rewrite Hcmd. split; [done |].
    eexists _, _, _. split; [reflexivity |]. split; by repeat constructor. }
  rewrite (handleWebhook_with_command _ _ _ _ _ Hcmd).
  apply ToCommand_inv in Hcmd as ((Hid & _ & Hev & Hkey & _) & t & _ & Hc).
  assert (Hcid : Command.TransactionID cmd = WebhookRequestDTO.ID d) by apply Hc.
  assert (Hcev : Command.EventID cmd = DTOEvent.ID (WebhookRequestDTO.Event d))
    by apply Hc.
  assert (Hckey : Command.IdempotencyKey cmd
                  = DTOEvent.IdempotencyKey (WebhookRequestDTO.Event d))
    by apply Hc.
  destruct (ProcessTransaction_outcome r cmd)
    as [H | [(e & H & Hne) | (c & Happ & Hres & Hk & Hi)]].
  - right. left. exists d. rewrite H. simpl.
    unfold HTTP.handleDomainError, errors_Is. simpl. by rewrite Hcid.
  - right. right. rewrite H. simpl. split; [done |].
    assert (Hni : unwrap e <> ErrInvalidInput).
    { intros Hu.
      apply (ProcessTransaction_invalid_input r cmd e);
        [by rewrite H | done | by rewrite Hcid, Hcev, Hckey]. }
    destruct (handleDomainError_refusal e Result.zero Hne Hni)
      as (st & code & -> & Hst & Hcode).
    exists st, (errorText e), code. split; [done |]. split; [done |].
    by do 2 (apply elem_of_cons; right).
  - left. exists d, c.
    destruct (Service.ProcessTransaction r cmd) as [r' [result oe]].
    simpl in Happ, Hres. injection Hres as -> ->. simpl.
    rewrite <- Hcid, <- Hckey. done.
Qed.

(** X23 (Handler.handleWebhook, Handler.handleGetTransaction,
    Handler.handleListTransactions).  A PURCHASE request answered as
    processed can be read back: the id was unknown before (404), and
    afterwards GET /transactions/{id} answers 200 with a purchase that
    carries the request's id, status, local amount and idempotency key,
    and the listing contains it. *)
Theorem purchase_webhook_then_get (parseRFC3339 : string -> string + Z)
    (quote : string -> string) (r : Repository.t) (d : WebhookRequestDTO.t) :
  let out := HTTP.handleWebhook parseRFC3339 quote r (Some d) in
  WebhookRequestDTO.Type_ d = TypePurchase ->
  HTTP.body out.2
  = HTTP.WebhookPayload
      (WebhookResponseDTO.mk (WebhookRequestDTO.ID d) false "transaction processed") ->
  HTTP.status (HTTP.handleGetTransaction r (WebhookRequestDTO.ID d))
  = HTTP.StatusNotFound /\
  exists tx txs,
    HTTP.handleGetTransaction out.1 (WebhookRequestDTO.ID d)
    = HTTP.mkResponse HTTP.StatusOK (HTTP.TransactionPayload tx) /\
    HTTP.handleListTransactions out.1
    = HTTP.mkResponse HTTP.StatusOK (HTTP.TransactionsPayload txs) /\
    tx ∈ txs /\
    Transaction.ID tx = WebhookRequestDTO.ID d /\
    Transaction.Type_ tx = TypePurchase /\
    Transaction.Status tx = WebhookRequestDTO.Status d /\
    AmountBreakdown.Local (Transaction.Amount tx)
    = Money.mk (DTOAmount.Total (DTOAmounts.Local (WebhookRequestDTO.Amount d)))
        (DTOAmount.Currency (DTOAmounts.Local (WebhookRequestDTO.Amount d))) /\
    Event.IdempotencyKey (Transaction.Event tx)
    = DTOEvent.IdempotencyKey (WebhookRequestDTO.Event d).
Proof.
  intros out Hty Hbody. subst out.
  destruct (HTTP.ToCommand parseRFC3339 quote d) as [msg | cmd] eqn:Hcmd.
  { unfold HTTP.handleWebhook in Hbody. by rewrite Hcmd in Hbody. }
  rewrite (handleWebhook_with_command _ _ _ _ _ Hcmd) in Hbody |- *.
  apply ToCommand_inv in Hcmd as (_ & t & _ & Hc).
  assert (Hcty : Command.TransactionType_ cmd = TypePurchase)
    by (rewrite <- Hty; apply Hc).
  rewrite (ProcessTransaction_purchase r cmd Hcty) in Hbody |- *.
  destruct (Repository.idempotencyKeys r !! Command.IdempotencyKey cmd)
    as [v |] eqn:Hk.
  { unfold Service.processPurchase in Hbody.
    rewrite GetByIdempotencyKey_found in Hbody by (by eexists). done. }
  rewrite processPurchase_after_check in Hbody |- * by done.
  destruct (Service.buildPurchase cmd) as [tx | e] eqn:Hb.
  2:{ simpl in Hbody. unfold HTTP.handleDomainError in Hbody.
      repeat (destruct (errors_Is e _) in Hbody; [done |]). done. }
  apply buildPurchase_inv in Hb as (_ & _ & _ & Htx).
  assert (Hid : Transaction.ID tx = WebhookRequestDTO.ID d).
  { rewrite Htx. simpl. apply Hc. }
  destruct (Repository.transactions r !! Transaction.ID tx) as [old |] eqn:Hold;
    [done |].
  simpl. split.
  { unfold HTTP.handleGetTransaction, Service.GetTransaction,
      Repository.GetTransactionByID. by rewrite <- Hid, Hold. }
  exists tx. eexists. split; [| split; [reflexivity |]].
  { unfold HTTP.handleGetTransaction, Service.GetTransaction,
      Repository.GetTransactionByID. simpl.
    by rewrite <- Hid, lookup_insert_eq. }
  split.
  { apply list_elem_of_fmap. exists (Transaction.ID tx, tx). split; [done |].
    apply elem_of_map_to_list. simpl. apply lookup_insert_eq. }
  split; [done |]. unfold copied in Hc. rewrite Htx. simpl.
  destruct Hc as (_ & _ & -> & _ & -> & -> & _ & _ & _ & _ & _ & _ & _ & _ & _ & _
                  & _ & _ & _ & _ & -> & _). done.
Qed.

Lemma purchase_webhook_then_get_witness :
  let parse := fun _ : string => inr 0 : string + Z in
  let quote := fun s : string => s in
  let d := buildWebhookBody "PURCHASE" "APPROVED" "" in
  let out := HTTP.handleWebhook parse quote Repository.NewRepository (Some d) in
  HTTP.status (HTTP.handleGetTransaction Repository.NewRepository "tx1")
  = HTTP.StatusNotFound /\
  exists tx txs,
    HTTP.handleGetTransaction out.1 "tx1"
    = HTTP.mkResponse HTTP.StatusOK (HTTP.TransactionPayload tx) /\
    HTTP.handleListTransactions out.1
    = HTTP.mkResponse HTTP.StatusOK (HTTP.TransactionsPayload txs) /\
    tx ∈ txs /\
    Transaction.ID tx = "tx1" /\
    Transaction.Type_ tx = TypePurchase /\
    Transaction.Status tx = "APPROVED" /\
    AmountBreakdown.Local (Transaction.Amount tx) = Money.mk 1000 "BRL" /\
    Event.IdempotencyKey (Transaction.Event tx) = "idem1".
Proof.
  intros parse quote d out.
  apply (purchase_webhook_then_get parse quote Repository.NewRepository d).
  - reflexivity.
  - vm_compute. reflexivity.
Defined.

(** X24 (Handler.handleWebhook, Handler.handleGetTransaction,
    Handler.handleListTransactions).  A request of any other type than
    PURCHASE, whatever its answer, changes nothing the read endpoints
    show: every GET /transactions/{id} and the listing answer as
    before.  In particular an accepted reversal or refund cannot be read
    back under its own id. *)
Theorem adjustments_hidden_from_reads (parseRFC3339 : string -> string + Z)
    (quote : string -> string) (r : Repository.t)
    (decoded : option WebhookRequestDTO.t) :
  let out := HTTP.handleWebhook parseRFC3339 quote r decoded in
  (forall d, decoded = Some d -> WebhookRequestDTO.Type_ d <> TypePurchase) ->
  HTTP.handleListTransactions out.1 = HTTP.handleListTransactions r /\
  forall id,
    HTTP.handleGetTransaction out.1 id = HTTP.handleGetTransaction r id.
Proof.
  intros out Hty.
  assert (Htx : Repository.transactions out.1 = Repository.transactions r).
  { subst out. destruct decoded as [d |]; [| done].
    destruct (HTTP.ToCommand parseRFC3339 quote d) as [msg | cmd] eqn:Hcmd.
    { unfold HTTP.handleWebhook. by rewrite Hcmd. }
    rewrite (handleWebhook_with_command _ _ _ _ _ Hcmd).
    apply ToCommand_inv in Hcmd as (_ & t & _ & Hc).
    assert (Hcty : Command.TransactionType_ cmd <> TypePurchase).
    { destruct Hc as (_ & -> & _). by apply Hty. }
    rewrite <- (adjustment_keeps_transactions r cmd Hcty).
    by destruct (Service.ProcessTransaction r cmd) as [r' [result [e |]]]. }
  unfold HTTP.handleListTransactions, HTTP.handleGetTransaction,
    Service.ListTransactions, Service.GetTransaction,
    Repository.ListTransactions, Repository.GetTransactionByID.
  by rewrite Htx.
Qed.

Lemma adjustments_hidden_from_reads_witness :
  let parse := fun _ : string => inr 0 : string + Z in
  let quote := fun s : string => s in
  let r := run Repository.NewRepository
             [makePurchaseCmd "tx0" "APPROVED" "idem0" 1000] in
  let d := buildWebhookBody "REFUND" "APPROVED" "tx0" in
  let out := HTTP.handleWebhook parse quote r (Some d) in
  out.1 <> r /\
  HTTP.status (HTTP.handleGetTransaction out.1 "tx1") = HTTP.StatusNotFound.
Proof.
  intros parse quote r d out. split.
  - vm_compute. discriminate.
  - unfold out.
    rewrite (proj2 (adjustments_hidden_from_reads parse quote r (Some d)
                      ltac:(intros ? [= <-]; discriminate)) "tx1").
    vm_compute. reflexivity.
Defined.


(** ** Money arithmetic *)

Lemma wrap64_add_r (x y : Z) : wrap64 (x + wrap64 y) = wrap64 (x + y).
Proof. rewrite (Z.add_comm x), wrap64_add_l. f_equal. lia. Qed.

(** X25 (Money.Add, Money.GreaterThan, NewMoney).  On one currency the
    64-bit addition of [Add] stays in the int64 range, is commutative
    and associative even when it wraps, and has the zero amount as its
    unit; [GreaterThan] is a strict order there.  On two currencies both
    operations fail in both argument orders, and a sum of three amounts
    fails in both groupings as soon as one currency differs.  A
    non-negative [NewMoney] amount is returned unchanged. *)
Theorem Money_arithmetic_laws (a b c : Money.t) :
  (Money.Currency a = Money.Currency b ->
   Money.Add a b = Money.Add b a /\
   (exists m, Money.Add a b = Ok m /\ in_int64 (Money.Amount m) /\
              Money.Currency m = Money.Currency a) /\
   (Money.GreaterThan a b = Ok true -> Money.GreaterThan b a = Ok false)) /\
  (Money.Currency a = Money.Currency b -> Money.Currency b = Money.Currency c ->
   (ab ← Money.Add a b; Money.Add ab c) = (bc ← Money.Add b c; Money.Add a bc) /\
   (Money.GreaterThan a b = Ok true -> Money.GreaterThan b c = Ok true ->
    Money.GreaterThan a c = Ok true)) /\
  (Money.Currency a <> Money.Currency b \/ Money.Currency b <> Money.Currency c ->
   fails_with (ab ← Money.Add a b; Money.Add ab c) ErrCurrencyMismatch /\
   fails_with (bc ← Money.Add b c; Money.Add a bc) ErrCurrencyMismatch) /\
  (Money.Currency a <> Money.Currency b ->
   fails_with (Money.Add b a) ErrCurrencyMismatch /\
   fails_with (Money.GreaterThan b a) ErrCurrencyMismatch) /\
  (in_int64 (Money.Amount a) ->
   Money.Add a (Money.mk 0 (Money.Currency a)) = Ok a /\
   Money.GreaterThan a a = Ok false) /\
  (0 <= Money.Amount a ->
   NewMoney (Money.Amount a) (Money.Currency a) = Ok a).
Proof.
  split; [| split; [| split; [| split; [| split]]]].
  - intros Hab. split; [| split].
    + rewrite !Add_same_currency by done. rewrite Hab. do 3 f_equal. lia.
    + rewrite Add_same_currency by done. eexists. split; [done |].
      split; [apply wrap64_is_int64 | done].
    + rewrite !GreaterThan_same_currency by done.
      intros [= H]. f_equal. lia.
  - intros Hab Hbc. split.
    + rewrite (Add_same_currency a b), (Add_same_currency b c) by done.
      cbn [mbind result_bind].
      rewrite !Add_same_currency by (simpl; congruence). simpl.
      rewrite wrap64_add_l, wrap64_add_r. do 3 f_equal. lia.
    + rewrite !GreaterThan_same_currency by congruence.
      intros [= H1] [= H2]. f_equal. lia.
  - intros Hne.
    destruct (decide (Money.Currency a = Money.Currency b)) as [Hab | Hab].
    + destruct Hne as [Hne | Hbc]; [done |].
      rewrite (Add_same_currency a b) by done. cbn [mbind result_bind]. split.
      * apply Add_mismatch_iff. simpl. congruence.
      * destruct (proj2 (Add_mismatch_iff b c) Hbc) as (e & -> & He).
        by exists e.
    + split.
      * destruct (proj2 (Add_mismatch_iff a b) Hab) as (e & -> & He).
        by exists e.
      * destruct (decide (Money.Currency b = Money.Currency c)) as [Hbc | Hbc].
        -- rewrite (Add_same_currency b c) by done. cbn [mbind result_bind].
           by apply Add_mismatch_iff.
        -- destruct (proj2 (Add_mismatch_iff b c) Hbc) as (e & -> & He).
           by exists e.
  - intros Hab. split.
    + apply Add_mismatch_iff. congruence.
    + apply GreaterThan_mismatch_iff. congruence.
  - intros Hr. split.
    + rewrite Add_exact; simpl; [| done | by rewrite Z.add_0_r].
      rewrite Z.add_0_r. by destruct a.
    + rewrite GreaterThan_same_currency by done. f_equal. lia.
  - intros Hnn. rewrite NewMoney_ok by done. by destruct a.
Qed.
